(** * clitool2: a shallow embedding of [clitool.py] and [clitoolbox.py]

    The development follows the two modules of the package:
    - text helpers of Python's [str] that the code calls,
    - [_to_bool], [_parse_docargs], [parse_docstr],
    - Python values, signatures and calls,
    - the fragment of [argparse] that the tools drive,
    - [_config_parser], [_getcallargs], [CLITool],
    - [CLIToolbox].

    Characters are the 8-bit [ascii] of the Standard Library.  Python's
    tables are followed on the ASCII range 0..127; a code above 127 is a
    character without case that is neither whitespace, a line boundary nor
    a word character. *)

From Stdlib Require Import Bool Arith ZArith List Ascii String Lia.
Import ListNotations.

Set Warnings "-register-all".
Open Scope string_scope.
Open Scope list_scope.

(** String concatenation, apart from the [++] of lists. *)
Infix "+:+" := String.append (at level 60, right associativity).

(** ** Characters *)

Module Char.

Definition code (c : ascii) : nat := nat_of_ascii c.

Definition between (lo hi : nat) (c : ascii) : bool :=
  ((lo <=? code c) && (code c <=? hi))%nat.

(** [str.isspace] on one character: TAB..CR, FS..US and the space. *)
Definition is_space (c : ascii) : bool :=
  between 9 13 c || between 28 32 c.

(** The line boundaries of [str.splitlines], the pair CR LF apart. *)
Definition is_linebreak (c : ascii) : bool :=
  between 10 13 c || between 28 30 c.

Definition is_upper (c : ascii) : bool := between 65 90 c.
Definition is_lower (c : ascii) : bool := between 97 122 c.
Definition is_digit (c : ascii) : bool := between 48 57 c.
Definition is_cased (c : ascii) : bool := is_upper c || is_lower c.

(** [\w] of the [re] module. *)
Definition is_word (c : ascii) : bool :=
  is_cased c || is_digit c || (code c =? 95)%nat.

Definition lower (c : ascii) : ascii :=
  if is_upper c then ascii_of_nat (code c + 32) else c.

Definition upper (c : ascii) : ascii :=
  if is_lower c then ascii_of_nat (code c - 32) else c.

Definition all_chars : list ascii := map ascii_of_nat (seq 0 256).

(** A property of characters decided by running over the 256 of them. *)
Definition for_all (P : ascii -> bool) : bool := forallb P all_chars.

End Char.

(** ** The methods of [str] used by the package *)

Module Str.

Definition CR : ascii := ascii_of_nat 13.
Definition LF : ascii := ascii_of_nat 10.

Fixpoint to_list (s : string) : list ascii :=
  match s with
  | EmptyString => []
  | String c s' => c :: to_list s'
  end.

Fixpoint of_list (l : list ascii) : string :=
  match l with
  | [] => EmptyString
  | c :: l' => String c (of_list l')
  end.

(** [s.lstrip(chars)], [s.rstrip(chars)] with the set given as a predicate. *)
Fixpoint lstrip_by (p : ascii -> bool) (s : string) : string :=
  match s with
  | EmptyString => EmptyString
  | String c s' => if p c then lstrip_by p s' else s
  end.

Fixpoint rstrip_by (p : ascii -> bool) (s : string) : string :=
  match s with
  | EmptyString => EmptyString
  | String c s' =>
      match rstrip_by p s' with
      | EmptyString => if p c then EmptyString else String c EmptyString
      | r => String c r
      end
  end.

Definition lstrip : string -> string := lstrip_by Char.is_space.
Definition rstrip : string -> string := rstrip_by Char.is_space.

(** [s.strip()] *)
Definition strip (s : string) : string := rstrip (lstrip s).

(** [s.rstrip(":")] *)
Definition rstrip_colon : string -> string :=
  rstrip_by (fun c => Ascii.eqb c ":"%char).

(** [s.lower()] *)
Fixpoint lower (s : string) : string :=
  match s with
  | EmptyString => EmptyString
  | String c s' => String (Char.lower c) (lower s')
  end.

(** [s.title()]: a cased character that follows a cased one is lowered,
    any other is raised. *)
Fixpoint title_from (previous_is_cased : bool) (s : string) : string :=
  match s with
  | EmptyString => EmptyString
  | String c s' =>
      String (if previous_is_cased then Char.lower c else Char.upper c)
             (title_from (Char.is_cased c) s')
  end.

Definition title : string -> string := title_from false.

(** [s.splitlines()]: [cur] is the line being read.  A final line without
    boundary is kept when it is not empty. *)
Fixpoint splitlines_from (cur : string) (s : string) : list string :=
  match s with
  | EmptyString =>
      match cur with EmptyString => [] | _ => [cur] end
  | String c s' =>
      if Ascii.eqb c CR then
        match s' with
        | String c' s'' =>
            if Ascii.eqb c' LF then cur :: splitlines_from EmptyString s''
            else cur :: splitlines_from EmptyString s'
        | EmptyString => cur :: splitlines_from EmptyString s'
        end
      else if Char.is_linebreak c then cur :: splitlines_from EmptyString s'
      else splitlines_from (cur +:+ String c EmptyString) s'
  end.

Definition splitlines : string -> list string := splitlines_from EmptyString.

(** [sep.join(items)] *)
Fixpoint join (sep : string) (items : list string) : string :=
  match items with
  | [] => EmptyString
  | [x] => x
  | x :: rest => x +:+ sep +:+ join sep rest
  end.

(** [x in s] for a one-character [x]. *)
Fixpoint contains_char (x : ascii) (s : string) : bool :=
  match s with
  | EmptyString => false
  | String c s' => Ascii.eqb c x || contains_char x s'
  end.

(** [x in items] for strings. *)
Definition mem (x : string) (items : list string) : bool :=
  existsb (String.eqb x) items.

(** Truth value of a string: the empty one is false. *)
Definition truthy (s : string) : bool :=
  match s with EmptyString => false | _ => true end.

End Str.

(** ** Python values, exceptions and results *)

(** A float is carried as its 64-bit pattern and a [datetime.datetime] as a
    number of microseconds: the package only looks at their type.  A dict
    has string keys, as [json.loads] and keyword arguments have, and keeps
    insertion order. *)
Inductive pyval : Type :=
| VNone
| VBool (b : bool)
| VInt (z : Z)
| VFloat (bits : Z)
| VStr (s : string)
| VDatetime (t : Z)
| VTuple (items : list pyval)
| VList (items : list pyval)
| VDict (entries : list (string * pyval))
| VObject (cls : string).

Inductive pytype : Type :=
| TNoneType | TBool | TInt | TFloat | TStr | TDatetime
| TTuple | TList | TDict | TOther (cls : string).

Definition type_of (v : pyval) : pytype :=
  match v with
  | VNone => TNoneType
  | VBool _ => TBool
  | VInt _ => TInt
  | VFloat _ => TFloat
  | VStr _ => TStr
  | VDatetime _ => TDatetime
  | VTuple _ => TTuple
  | VList _ => TList
  | VDict _ => TDict
  | VObject c => TOther c
  end.

(** [type(v).__name__] *)
Definition type_name (t : pytype) : string :=
  match t with
  | TNoneType => "NoneType"
  | TBool => "bool"
  | TInt => "int"
  | TFloat => "float"
  | TStr => "str"
  | TDatetime => "datetime"
  | TTuple => "tuple"
  | TList => "list"
  | TDict => "dict"
  | TOther c => c
  end.

Definition pytype_eqb (a b : pytype) : bool :=
  match a, b with
  | TNoneType, TNoneType | TBool, TBool | TInt, TInt | TFloat, TFloat
  | TStr, TStr | TDatetime, TDatetime | TTuple, TTuple | TList, TList
  | TDict, TDict => true
  | TOther x, TOther y => String.eqb x y
  | _, _ => false
  end.

(** [issubclass]: every type is its own subclass and [bool] derives from
    [int]. *)
Definition issubclass (a b : pytype) : bool :=
  pytype_eqb a b ||
  match a, b with TBool, TInt => true | _, _ => false end.

Definition isinstance (v : pyval) (t : pytype) : bool :=
  issubclass (type_of v) t.

(** Truth value of an object, as [if x] and [x or y] test it. *)
Definition truthy (v : pyval) : bool :=
  match v with
  | VNone => false
  | VBool b => b
  | VInt z => negb (Z.eqb z 0)
  | VFloat bits => negb (Z.eqb bits 0 || Z.eqb bits (2 ^ 63))
  | VStr s => Str.truthy s
  | VDatetime _ => true
  | VTuple l | VList l => match l with [] => false | _ => true end
  | VDict d => match d with [] => false | _ => true end
  | VObject _ => true
  end.

(** [name == x] for a string [name]: only an equal string is equal. *)
Definition str_eq_val (name : string) (x : pyval) : bool :=
  match x with
  | VStr s => String.eqb name s
  | _ => false
  end.

(** [name in items] for a string [name] and a list of objects. *)
Definition str_in_list (name : string) (items : list pyval) : bool :=
  existsb (str_eq_val name) items.

(** [x in items] for an object [x] and a list of strings. *)
Definition val_in_strs (x : pyval) (items : list string) : bool :=
  match x with
  | VStr s => Str.mem s items
  | _ => false
  end.

Inductive exc_class : Type :=
| ValueError | TypeError | IndexError | KeyError | AttributeError
| OverflowError | OSError | ArgumentError
| SystemExit | KeyboardInterrupt | GeneratorExit
| UserError (name : string) (derives_Exception : bool).

(** [issubclass(cls, Exception)]: what [except Exception] catches. *)
Definition is_Exception (cls : exc_class) : bool :=
  match cls with
  | SystemExit | KeyboardInterrupt | GeneratorExit => false
  | UserError _ d => d
  | _ => true
  end.

(** [cls.__name__] *)
Definition exc_name (cls : exc_class) : string :=
  match cls with
  | ValueError => "ValueError"
  | TypeError => "TypeError"
  | IndexError => "IndexError"
  | KeyError => "KeyError"
  | AttributeError => "AttributeError"
  | OverflowError => "OverflowError"
  | OSError => "OSError"
  | ArgumentError => "ArgumentError"
  | SystemExit => "SystemExit"
  | KeyboardInterrupt => "KeyboardInterrupt"
  | GeneratorExit => "GeneratorExit"
  | UserError n _ => n
  end.

(** An exception instance: its class and its argument, a message or, for
    [SystemExit], an exit code.  [Unworded] stands for the text of an
    exception that the interpreter or a library words itself and that the
    model does not spell out: the [TypeError] of a call whose arguments do
    not fit the signature, the errors of the logging library. *)
Inductive exc_arg : Type := Msg (text : string) | Code (n : Z) | Unworded.

Record exn : Type := Exn { exc_type : exc_class; exc_value : exc_arg }.

(** The outcome of running a piece of the program.  [Unmodelled] marks a
    run that leaves the fragment of [argparse] covered below. *)
Inductive result (A : Type) : Type :=
| Ok (a : A)
| Raise (e : exn)
| Unmodelled.

Arguments Ok {A} a.
Arguments Raise {A} e.
Arguments Unmodelled {A}.

Definition bind {A B : Type} (r : result A) (k : A -> result B) : result B :=
  match r with
  | Ok a => k a
  | Raise e => Raise e
  | Unmodelled => Unmodelled
  end.

Declare Scope result_scope.
Delimit Scope result_scope with result.
Notation "x <- r ;; k" := (bind r (fun x => k))
  (at level 61, r at next level, right associativity) : result_scope.
Notation "' p <- r ;; k" := (bind r (fun p => k))
  (at level 61, p pattern, r at next level, right associativity)
  : result_scope.

Definition raise {A : Type} (cls : exc_class) (msg : string) : result A :=
  Raise (Exn cls (Msg msg)).

(** The exception of class [cls] whose text is left to the interpreter. *)
Definition raise_unworded {A : Type} (cls : exc_class) : result A :=
  Raise (Exn cls Unworded).

(** The [TypeError] of a call whose arguments do not fit the signature. *)
Definition binding_error {A : Type} : result A := raise_unworded TypeError.

(** What the package takes from its platform and from other libraries:
    the platform, which fixes the line separator, the converters [int],
    [float], [dateutil.parser.parse] and [json.loads], and the file system,
    as far as [logging.FileHandler] asks it to open a file under a name in
    a mode.  A converter or the file system reports an exception under the
    nearest class of [exc_class]. *)
Inductive platform : Type := posix | nt.

(** [os.linesep] *)
Definition linesep (p : platform) : string :=
  match p with
  | posix => String Str.LF EmptyString
  | nt => String Str.CR (String Str.LF EmptyString)
  end.

Class Runtime : Type := {
  os_name : platform;
  py_int : string -> result pyval;
  py_float : string -> result pyval;
  to_date : string -> result pyval;
  json_loads : string -> result pyval;
  open_log : string -> string -> result unit
}.

Definition os_linesep {rt : Runtime} : string := linesep os_name.

(** A runtime whose [json.loads] is known on one text. *)
Definition answering (rt : Runtime) (text : string) (value : pyval)
    : Runtime := {|
  os_name := os_name;
  py_int := py_int;
  py_float := py_float;
  to_date := to_date;
  json_loads := fun s => if String.eqb s text then Ok value else json_loads s;
  open_log := open_log
|}.

(** ** Ordered dictionaries *)

Module OD.

Definition t (V : Type) : Type := list (string * V).

Fixpoint get {V : Type} (k : string) (d : t V) : option V :=
  match d with
  | [] => None
  | (k', v) :: d' => if String.eqb k k' then Some v else get k d'
  end.

Definition contains {V : Type} (k : string) (d : t V) : bool :=
  match get k d with Some _ => true | None => false end.

(** [d[k] = v]: a key that is present keeps its place. *)
Fixpoint set {V : Type} (k : string) (v : V) (d : t V) : t V :=
  match d with
  | [] => [(k, v)]
  | (k', v') :: d' =>
      if String.eqb k k' then (k, v) :: d' else (k', v') :: set k v d'
  end.

(** [d.update(other)] *)
Definition update {V : Type} (d other : t V) : t V :=
  fold_left (fun acc kv => set (fst kv) (snd kv) acc) other d.

Definition keys {V : Type} (d : t V) : list string := map fst d.

End OD.

(** ** [_to_bool] *)

Definition _to_bool (text : string) : result bool :=
  if Str.mem (Str.title text) ["True"; "1"] then Ok true
  else if Str.mem (Str.title text) ["False"; "0"] then Ok false
  else raise ValueError
         ("Expected 'True', 'False', '1', '0'; got '" +:+ text +:+ "'").

(** ** [_parse_docargs] *)

(** The longest prefix of word characters, and what follows it. *)
Fixpoint span_word (s : string) : string * string :=
  match s with
  | EmptyString => (EmptyString, EmptyString)
  | String c s' =>
      if Char.is_word c then
        let (w, rest) := span_word s' in (String c w, rest)
      else (EmptyString, s)
  end.

(** The longest prefix without line feed, and what follows it. *)
Fixpoint span_dot (s : string) : string * string :=
  match s with
  | EmptyString => (EmptyString, EmptyString)
  | String c s' =>
      if Ascii.eqb c Str.LF then (EmptyString, s)
      else let (d, rest) := span_dot s' in (String c d, rest)
  end.

(** [re.match(r"^(\w+):(.+)$", line)]: the two groups of a match.  The
    word run is followed by a colon, so it is the longest one; [.+] runs
    to the end of the line, where [$] allows one last line feed. *)
Definition match_pair (line : string) : option (string * string) :=
  match span_word line with
  | (String w0 w, String ":" rest) =>
      match span_dot rest with
      | (String d0 d, EmptyString) => Some (String w0 w, String d0 d)
      | (String d0 d, String _ EmptyString) => Some (String w0 w, String d0 d)
      | _ => None
      end
  | _ => None
  end.

(** The loop of [_parse_docargs] over the lines that are left, with the
    dictionary built so far and the name of the entry last started. *)
Fixpoint docargs_loop (lines : list string) (acc : OD.t string)
    (name : option string) : result (OD.t string) :=
  match lines with
  | [] => Ok acc
  | line :: rest =>
      match match_pair line with
      | Some (n, d) => docargs_loop rest (OD.set n (Str.strip d) acc) (Some n)
      | None =>
          match name with
          | Some n =>
              if Str.truthy n then
                match OD.get n acc with
                | Some old =>
                    docargs_loop rest
                      (OD.set n (old +:+ " " +:+ Str.strip line) acc) name
                | None => raise KeyError n
                end
              else raise ValueError
                     ("Expected name: value pair; got '" +:+ line +:+ "'")
          | None => raise ValueError
                      ("Expected name: value pair; got '" +:+ line +:+ "'")
          end
      end
  end.

Definition _parse_docargs (text : string) : result (OD.t string) :=
  docargs_loop (Str.splitlines text) [] None.

(** ** [parse_docstr] *)

Record DocInfo : Type := mkDocInfo {
  summary : option string;
  description : option string;
  args : option string;
  returns : option string;
  yields : option string;
  raises : option string
}.

(** [DocInfo._fields] *)
Definition sections : list string :=
  ["summary"; "description"; "args"; "returns"; "yields"; "raises"].

(** The lambda [test] of [parse_docstr]: true on a line that is no section
    break. *)
Definition test (line : string) : bool :=
  negb (Str.mem (Str.rstrip_colon (Str.lower line)) sections).

(** [itertools.takewhile] *)
Fixpoint takewhile {A : Type} (p : A -> bool) (l : list A) : list A :=
  match l with
  | [] => []
  | x :: l' => if p x then x :: takewhile p l' else []
  end.

(** The header line of a section: [section.title() + ":"]. *)
Definition header (section : string) : string := Str.title section +:+ ":".

(** The branch of one section: the lines it matches and the lines that are
    left once a header has been deleted.  On an empty list the test
    [lines[1] == ""] of the summary is out of range. *)
Definition collect (section : string) (lines : list string)
    : result (list string * list string) :=
  if String.eqb section "summary" then
    match lines with
    | [] => raise IndexError "list index out of range"
    | [_] => Ok (firstn 1 lines, lines)
    | _ :: l1 :: _ =>
        if String.eqb l1 "" then Ok (firstn 1 lines, lines) else Ok ([], lines)
    end
  else if String.eqb section "description" then
    Ok (takewhile test lines, lines)
  else
    match lines with
    | l0 :: rest =>
        if String.eqb l0 (header section) then Ok (takewhile test rest, rest)
        else Ok ([], lines)
    | [] => Ok ([], lines)
    end.

Section DocStr.

Context {rt : Runtime}.

(** One turn of the loop over the sections: the value stored in [scratch]
    and the lines left for the next section. *)
Definition parse_section (section : string) (lines : list string)
    : result (option string * list string) :=
  ('(matches, lines) <- collect section lines ;;
   match matches with
   | [] => Ok (None, lines)
   | _ :: _ =>
       Ok (Some (Str.strip (Str.join os_linesep matches)),
           skipn (List.length matches) lines)
   end)%result.

(** The loop over a list of sections, from a list of lines. *)
Fixpoint parse_sections (todo : list string) (lines : list string)
    : result (OD.t (option string) * list string) :=
  match todo with
  | [] => Ok ([], lines)
  | section :: todo' =>
      ('(value, lines) <- parse_section section lines ;;
       '(scratch, lines) <- parse_sections todo' lines ;;
       Ok ((section, value) :: scratch, lines))%result
  end.

(** [DocInfo( **scratch )] *)
Definition DocInfo_of (scratch : OD.t (option string)) : DocInfo :=
  let field name :=
    match OD.get name scratch with Some v => v | None => None end in
  mkDocInfo (field "summary") (field "description") (field "args")
            (field "returns") (field "yields") (field "raises").

(** The stripped lines that [parse_docstr] starts from. *)
Definition doc_lines (text : string) : list string :=
  map Str.strip (Str.splitlines (Str.strip text)).

Definition parse_docstr (text : string) : result DocInfo :=
  ('(scratch, _) <- parse_sections sections (doc_lines text) ;;
   Ok (DocInfo_of scratch))%result.

End DocStr.

(** ** The world: clock, process arguments, logging and output *)

Inductive handler_kind : Type :=
| StreamHandler
| FileHandler (path : pyval) (mode : string).

Record handler : Type := mkHandler {
  h_kind : handler_kind;
  h_format : string;
  h_level : pyval
}.

(** An argument of a logging call, kept unformatted. *)
Inductive log_arg : Type :=
| LText (s : string)
| LTime (t : Z)            (* [t.strftime(datefmt)] *)
| LElapsed (micros : Z)    (* [str(end - start)[:-4]] *)
| LValue (e : exn)         (* the exception, through [%s] *)
| LTrace (e : exn).        (* [format_exc()] *)

Inductive event : Type :=
| EvLog (level : Z) (fmt : string) (fmt_args : list log_arg)
| EvPrintHelp
| EvPrint (text : string)
| EvShutdown.

Record world : Type := mkWorld {
  now : Z;                   (* [datetime.datetime.now()] *)
  argv : list string;        (* [sys.argv[1:]] *)
  handlers : list handler;   (* the handlers of the root logger *)
  root_level : Z;
  events : list event
}.

Definition NOTSET : Z := 0.
Definition DEBUG : Z := 10.
Definition INFO : Z := 20.
Definition ERROR : Z := 40.

Definition emit (ev : event) (w : world) : world :=
  mkWorld (now w) (argv w) (handlers w) (root_level w) (events w ++ [ev]).

Definition set_handlers (hs : list handler) (w : world) : world :=
  mkWorld (now w) (argv w) hs (root_level w) (events w).

Definition set_root_level (l : Z) (w : world) : world :=
  mkWorld (now w) (argv w) (handlers w) l (events w).

(** [logging.info], [logging.error], [logging.debug]: a root logger
    without handler gets the one of [basicConfig] first; the call is then
    recorded.  What the handlers write is the logging library's. *)
Definition log_call (level : Z) (fmt : string) (fmt_args : list log_arg)
    (w : world) : world :=
  let w :=
    match handlers w with
    | [] => set_handlers [mkHandler StreamHandler "%(levelname)s:%(name)s:%(message)s" (VInt NOTSET)] w
    | _ :: _ => w
    end in
  emit (EvLog level fmt fmt_args) w.

(** ** Callables and their signatures *)

(** A callable: the parameters it declares, its cleaned docstring
    ([inspect.getdoc]) and its body, run on the bound parameters.  For a
    bound method the receiver heads the declared names. *)
Record pyfunc : Type := mkFunc {
  fn_required : list string;
  fn_optional : list (string * pyval);
  fn_varargs : option string;
  fn_varkw : option string;
  fn_bound : bool;
  fn_doc : option string;
  fn_body : OD.t pyval -> world -> result pyval * world
}.

(** The first four fields of [inspect.getfullargspec(func)]. *)
Record argspec : Type := mkArgspec {
  spec_args : list string;
  spec_varargs : option string;
  spec_varkw : option string;
  spec_defaults : option (list pyval)
}.

Definition getfullargspec (func : pyfunc) : argspec :=
  mkArgspec (fn_required func ++ map fst (fn_optional func))
            (fn_varargs func) (fn_varkw func)
            (match fn_optional func with
             | [] => None
             | l => Some (map snd l)
             end).

(** [name] as a condition, for a name that may be [None]. *)
Definition name_truthy (name : option string) : option string :=
  match name with
  | Some n => if Str.truthy n then Some n else None
  | None => None
  end.

(** The call [func( *args, **kwargs )]: Python's binding of arguments to
    parameters, then the body.  Arguments that do not fit the signature
    (too many positionals, a keyword that is not declared or that names a
    parameter bound already, the receiver of a bound method among them, a
    parameter left without value) end the call in the interpreter's
    [TypeError] before the body is entered. *)
Fixpoint bind_positional (names : list string) (args : list pyval)
    : OD.t pyval * list pyval :=
  match names, args with
  | n :: names', a :: args' =>
      let (env, extra) := bind_positional names' args' in ((n, a) :: env, extra)
  | _, _ => ([], args)
  end.

Fixpoint bind_keywords (names : list string) (has_varkw : bool)
    (kwargs : OD.t pyval) (env extra : OD.t pyval)
    : result (OD.t pyval * OD.t pyval) :=
  match kwargs with
  | [] => Ok (env, extra)
  | (k, v) :: kwargs' =>
      if Str.mem k names then
        if OD.contains k env then
          binding_error   (* got multiple values for argument k *)
        else bind_keywords names has_varkw kwargs' (env ++ [(k, v)])%list extra
      else if has_varkw then
        bind_keywords names has_varkw kwargs' env (extra ++ [(k, v)])%list
      else binding_error    (* got an unexpected keyword argument k *)
  end.

Fixpoint bind_defaults (names : list string) (defaults : OD.t pyval)
    (env : OD.t pyval) : result (OD.t pyval) :=
  match names with
  | [] => Ok []
  | n :: names' =>
      (v <- match OD.get n env, OD.get n defaults with
            | Some v, _ => Ok v
            | None, Some d => Ok d
            | None, None => binding_error   (* missing argument n *)
            end ;;
       rest <- bind_defaults names' defaults env ;;
       Ok ((n, v) :: rest))%result
  end.

Definition bind_arguments (func : pyfunc) (args : list pyval)
    (kwargs : OD.t pyval) : result (OD.t pyval) :=
  let declared := fn_required func ++ map fst (fn_optional func) in
  let names := if fn_bound func then tl declared else declared in
  let (env, extra) := bind_positional names args in
  (_ <- match extra, fn_varargs func with
        | _ :: _, None => binding_error   (* too many positional arguments *)
        | _, _ => Ok tt
        end ;;
   _ <- match fn_bound func, declared with
        | true, receiver :: _ =>
            (* the receiver is bound already *)
            if OD.contains receiver kwargs then binding_error else Ok tt
        | _, _ => Ok tt
        end ;;
   '(env, extra_kw) <-
      bind_keywords names
        (match fn_varkw func with Some _ => true | None => false end)
        kwargs env [] ;;
   env <- bind_defaults names (fn_optional func) env ;;
   Ok (env
       ++ match fn_varargs func with
          | Some n => [(n, VTuple extra)]
          | None => []
          end
       ++ match fn_varkw func with
          | Some n => [(n, VDict extra_kw)]
          | None => []
          end)%list)%result.

Definition call (func : pyfunc) (args : list pyval) (kwargs : OD.t pyval)
    (w : world) : result pyval * world :=
  match bind_arguments func args kwargs with
  | Ok env => fn_body func env w
  | Raise e => (Raise e, w)
  | Unmodelled => (Unmodelled, w)
  end.

(** [inspect.getdoc(func)] handed to [parse_docstr]: without docstring,
    [text.strip()] is looked up on [None]. *)
Definition parse_doc_of {rt : Runtime} (doc : option string) : result DocInfo :=
  match doc with
  | Some text => parse_docstr text
  | None =>
      raise AttributeError "'NoneType' object has no attribute 'strip'"
  end.

(** ** The fragment of [argparse] the package drives

    The model follows [argparse.py] of CPython 3.8 for parsers made of
    positionals with [nargs] absent, ["?"] or ["*"], of options that store
    one value, and of the help option; [prefix_chars] is ["-"] and
    [fromfile_prefix_chars] is ["@"].  Four situations are left out and
    give [Unmodelled]: a token that starts with ["@"] (arguments read from
    a file), the token ["--"], a one-dash cluster that continues after a
    flag without argument, and a help message that the [%] operator has to
    expand.  A usage error is the [SystemExit] of status 2 and the help
    option, once the message is formatted, the one of status 0; what
    [argparse] prints on them is not recorded. *)

(** The values of [type=] that the package passes. *)
Inductive converter : Type :=
| conv_to_bool          (* [_to_bool] *)
| conv_int              (* [int] *)
| conv_float            (* [float] *)
| conv_to_date          (* [dateutil.parser.parse] *)
| conv_json_loads.      (* [json.loads] *)

Module Argparse.

Inductive nargs : Type :=
| NargsNone             (* one value *)
| NargsOptional         (* ["?"] *)
| NargsZeroOrMore       (* ["*"] *)
| NargsZero.            (* the help flag *)

Inductive action_kind : Type := StoreAction | HelpAction.

(** An action; [dest] and [default] are [None] where [argparse] has
    [SUPPRESS]. *)
Record action : Type := mkAction {
  kind : action_kind;
  option_strings : list string;
  dest : option string;
  act_nargs : nargs;
  default : option pyval;
  type_ : option converter;
  choices : option (list string);
  required : bool;
  help : option string;
  group : option string
}.

Record ArgumentParser : Type := mkParser {
  parser_description : option string;
  parser_epilog : option string;
  actions : list action;
  has_negative_number_optionals : bool
}.

(** The keyword arguments of [add_argument] that the package uses;
    [kw_default] is [None] when [default=] is not passed. *)
Record add_kwargs : Type := mkKwargs {
  kw_default : option pyval;
  kw_help : option string;
  kw_type : option converter;
  kw_nargs : nargs;
  kw_choices : option (list string)
}.

Definition no_kwargs : add_kwargs := mkKwargs None None None NargsNone None.

Definition dash : ascii := "-"%char.

Definition exit {A : Type} (status : Z) : result A :=
  Raise (Exn SystemExit (Code status)).

Fixpoint all_digits (s : string) : bool :=
  match s with
  | EmptyString => true
  | String c s' => Char.is_digit c && all_digits s'
  end.

Fixpoint span_digits (s : string) : string :=
  match s with
  | EmptyString => EmptyString
  | String c s' => if Char.is_digit c then span_digits s' else s
  end.

(** [$]: the end of the string, or its last line feed. *)
Definition at_end (s : string) : bool :=
  match s with
  | EmptyString => true
  | String c EmptyString => Ascii.eqb c Str.LF
  | _ => false
  end.

(** [_negative_number_matcher]: ['^-\d+$|^-\d*\.\d+$']. *)
Definition negative_number (s : string) : bool :=
  match s with
  | String c s' =>
      Ascii.eqb c dash &&
      ((negb (String.eqb (span_digits s') s') && at_end (span_digits s'))
       || match span_digits s' with
          | String "." frac =>
              negb (String.eqb (span_digits frac) frac)
              && at_end (span_digits frac)
          | _ => false
          end)
  | EmptyString => false
  end.

(** [s.split("=", 1)] when ["="] occurs in [s]. *)
Fixpoint split_eq (s : string) : option (string * string) :=
  match s with
  | EmptyString => None
  | String c s' =>
      if Ascii.eqb c "="%char then Some (EmptyString, s')
      else match split_eq s' with
           | Some (a, b) => Some (String c a, b)
           | None => None
           end
  end.

(** [s.replace("-", "_")] *)
Fixpoint dash_to_underscore (s : string) : string :=
  match s with
  | EmptyString => EmptyString
  | String c s' =>
      String (if Ascii.eqb c dash then "_"%char else c) (dash_to_underscore s')
  end.

(** [_option_string_actions]: each option string with the index of its
    action, in the order of registration. *)
Fixpoint option_table_from (i : nat) (acts : list action)
    : list (string * nat) :=
  match acts with
  | [] => []
  | a :: acts' =>
      map (fun o => (o, i)) (option_strings a) ++ option_table_from (S i) acts'
  end.

Definition option_table (p : ArgumentParser) : list (string * nat) :=
  option_table_from 0 (actions p).

Definition find_option (p : ArgumentParser) (o : string) : option nat :=
  OD.get o (option_table p).

(** [ArgumentParser(description=..., epilog=..., add_help=...)] *)
Definition help_action : action :=
  mkAction HelpAction ["-h"; "--help"] None NargsZero None None None false
           (Some "show this help message and exit") None.

Definition new (description epilog : option string) (add_help : bool)
    : ArgumentParser :=
  mkParser description epilog (if add_help then [help_action] else []) false.

(** [container.add_argument(name_or_flag, **kwargs)] with one name or
    flag; [grp] is the title of the argument group when the container is
    one.  A group shares the actions and option strings of its parser. *)
Definition add_argument (p : ArgumentParser) (grp : option string)
    (name_or_flag : string) (kw : add_kwargs) : result ArgumentParser :=
  match name_or_flag with
  | EmptyString => raise IndexError "string index out of range"
  | String c0 rest =>
      (a <-
         (if negb (Ascii.eqb c0 dash) then
            (* _get_positional_kwargs *)
            let req :=
              match kw_nargs kw with
              | NargsOptional => false
              | NargsZeroOrMore =>
                  match kw_default kw with None => true | Some _ => false end
              | _ => true
              end in
            Ok (mkAction StoreAction [] (Some name_or_flag) (kw_nargs kw)
                  (Some match kw_default kw with Some d => d | None => VNone end)
                  (kw_type kw) (kw_choices kw) req (kw_help kw) grp)
          else
            (* _get_optional_kwargs *)
            let d := Str.lstrip_by (Ascii.eqb dash) name_or_flag in
            match d with
            | EmptyString =>
                raise ValueError
                  ("dest= is required for options like '" +:+ name_or_flag +:+ "'")
            | _ =>
                Ok (mkAction StoreAction [name_or_flag]
                      (Some (dash_to_underscore d)) (kw_nargs kw)
                      (Some match kw_default kw with Some d => d | None => VNone end)
                      (kw_type kw) (kw_choices kw) false (kw_help kw) grp)
            end) ;;
       (* _add_action: _check_conflict, then registration *)
       if existsb (fun o => OD.contains o (option_table p)) (option_strings a)
       then raise ArgumentError
              ("argument " +:+ name_or_flag
               +:+ ": conflicting option string: " +:+ name_or_flag)
       else
         Ok (mkParser (parser_description p) (parser_epilog p)
               (actions p ++ [a])
               (has_negative_number_optionals p
                || existsb negative_number (option_strings a))))%result
  end.

(** [_get_option_tuples]: the readings of a token as an abbreviated long
    option or as a short option with its value attached. *)
Definition get_option_tuples (p : ArgumentParser) (arg : string)
    : list (nat * string * option string) :=
  match arg with
  | String c0 (String c1 rest) =>
      if Ascii.eqb c0 dash && Ascii.eqb c1 dash then
        let (option_prefix, explicit_arg) :=
          match split_eq arg with
          | Some (a, b) => (a, Some b)
          | None => (arg, None)
          end in
        flat_map (fun '(o, i) =>
                    if String.prefix option_prefix o
                    then [(i, o, explicit_arg)] else [])
                 (option_table p)
      else if Ascii.eqb c0 dash then
        let short_option_prefix := String c0 (String c1 EmptyString) in
        flat_map (fun '(o, i) =>
                    if String.eqb o short_option_prefix
                    then [(i, o, Some rest)]
                    else if String.prefix arg o then [(i, o, None)]
                    else [])
                 (option_table p)
      else []
  | _ => []
  end.

(** [_parse_optional]: [None] for a token read as a positional value,
    else the action (if the option is known), the option string and the
    value attached to it. *)
Definition parse_optional (p : ArgumentParser) (arg : string)
    : result (option (option nat * string * option string)) :=
  match arg with
  | EmptyString => Ok None
  | String c0 _ =>
      if negb (Ascii.eqb c0 dash) then Ok None
      else
        match find_option p arg with
        | Some i => Ok (Some (Some i, arg, None))
        | None =>
            if (String.length arg =? 1)%nat then Ok None
            else
              match
                match split_eq arg with
                | Some (o, e) =>
                    match find_option p o with
                    | Some i => Some (i, o, e)
                    | None => None
                    end
                | None => None
                end
              with
              | Some (i, o, e) => Ok (Some (Some i, o, Some e))
              | None =>
                  match get_option_tuples p arg with
                  | _ :: _ :: _ => exit 2
                  | [(i, o, e)] => Ok (Some (Some i, o, e))
                  | [] =>
                      if negative_number arg
                         && negb (has_negative_number_optionals p)
                      then Ok None
                      else if Str.contains_char " "%char arg then Ok None
                      else Ok (Some (None, arg, None))
                  end
              end
        end
  end.

Fixpoint classify (p : ArgumentParser) (arg_strings : list string)
    : result (list (option (option nat * string * option string))) :=
  match arg_strings with
  | [] => Ok []
  | a :: rest =>
      (t <- parse_optional p a ;;
       ts <- classify p rest ;;
       Ok (t :: ts))%result
  end.

(** The number of values that begin the pattern: its leading run of
    ['A']. *)
Fixpoint leading_values {T : Type} (pattern : list (option T)) : nat :=
  match pattern with
  | None :: rest => S (leading_values rest)
  | _ => 0
  end.

(** The match of the concatenated [_get_nargs_pattern]s against a run of
    [avail] values, greedy with backtracking as [re.match] is: the number
    of values each group takes. *)
Fixpoint match_nargs (ns : list nargs) (avail : nat) : option (list nat) :=
  match ns with
  | [] => Some []
  | n :: ns' =>
      let take k :=
        match match_nargs ns' (avail - k) with
        | Some counts => Some (k :: counts)
        | None => None
        end in
      match n with
      | NargsZero => take 0
      | NargsNone => if (1 <=? avail)%nat then take 1 else None
      | NargsOptional =>
          match (if (1 <=? avail)%nat then take 1 else None) with
          | Some r => Some r
          | None => take 0
          end
      | NargsZeroOrMore =>
          (fix down (k : nat) : option (list nat) :=
             match take k with
             | Some r => Some r
             | None => match k with 0 => None | S k' => down k' end
             end) avail
      end
  end.

(** [_match_arguments_partial]: the longest prefix of the positionals
    that matches. *)
Fixpoint match_partial (ns : list nargs) (i : nat) (avail : nat) : list nat :=
  match i with
  | 0 => []
  | S i' =>
      match match_nargs (firstn i ns) avail with
      | Some counts => counts
      | None => match_partial ns i' avail
      end
  end.

(** A text that the [%] operator gives back as it is. *)
Definition percent_free (s : string) : bool :=
  negb (Str.contains_char "%"%char s).

(** ['%(prog)' in text] *)
Fixpoint mentions_prog (s : string) : bool :=
  String.prefix "%(prog)" s
  || match s with
     | String _ s' => mentions_prog s'
     | EmptyString => false
     end.

(** [parser.print_help()], as the help option calls it.  The formatter
    expands the help text of every action with [%], and the description
    and the epilog when they hold [%(prog)]; a text without [%] is printed
    as it is.  What [%] makes of another text, a [ValueError] or
    [TypeError] among other things, is left out. *)
Definition print_help (p : ArgumentParser) : result unit :=
  let plain (text : option string) :=
    match text with Some t => negb (mentions_prog t) | None => true end in
  if forallb (fun a => match help a with
                       | Some h => percent_free h
                       | None => true
                       end) (actions p)
     && plain (parser_description p) && plain (parser_epilog p)
  then Ok tt
  else Unmodelled.

Section Parsing.

Context {rt : Runtime}.

(** The parser, which the functions nested in [_parse_known_args] see. *)
Variable p : ArgumentParser.

(** The call of the [type=] function; without one the string is kept. *)
Definition convert (c : option converter) (s : string) : result pyval :=
  match c with
  | None => Ok (VStr s)
  | Some conv_to_bool => (b <- _to_bool s ;; Ok (VBool b))%result
  | Some conv_int => py_int s
  | Some conv_float => py_float s
  | Some conv_to_date => to_date s
  | Some conv_json_loads => json_loads s
  end.

(** [_get_value]: a [TypeError] or [ValueError] of the converter is a
    usage error, any other exception goes through. *)
Definition get_value (a : action) (s : string) : result pyval :=
  match convert (type_ a) s with
  | Raise e =>
      match exc_type e with
      | ValueError | TypeError => exit 2
      | _ => Raise e
      end
  | r => r
  end.

(** [_check_value]: [value not in action.choices]. *)
Definition check_value (a : action) (v : pyval) : result unit :=
  match choices a with
  | None => Ok tt
  | Some cs => if val_in_strs v cs then Ok tt else exit 2
  end.

Fixpoint get_value_each (a : action) (arg_strings : list string)
    : result (list pyval) :=
  match arg_strings with
  | [] => Ok []
  | s :: rest =>
      (v <- get_value a s ;;
       vs <- get_value_each a rest ;;
       Ok (v :: vs))%result
  end.

Fixpoint check_value_each (a : action) (vs : list pyval) : result unit :=
  match vs with
  | [] => Ok tt
  | v :: rest => (_ <- check_value a v ;; check_value_each a rest)%result
  end.

Definition default_value (a : action) : pyval :=
  match default a with Some d => d | None => VNone end.

(** [_get_values] *)
Definition get_values (a : action) (arg_strings : list string)
    : result pyval :=
  match arg_strings, act_nargs a, option_strings a with
  | [], NargsOptional, _ =>
      (* the const of an option is None *)
      let value := match option_strings a with
                   | [] => default_value a
                   | _ :: _ => VNone
                   end in
      match value with
      | VStr s =>
          (v <- get_value a s ;; _ <- check_value a v ;; Ok v)%result
      | _ => Ok value
      end
  | [], NargsZeroOrMore, [] =>
      let value := match default_value a with
                   | VNone => VList []
                   | d => d
                   end in
      (_ <- check_value a value ;; Ok value)%result
  | [s], (NargsNone | NargsOptional), _ =>
      (v <- get_value a s ;; _ <- check_value a v ;; Ok v)%result
  | _, _, _ =>
      (vs <- get_value_each a arg_strings ;;
       _ <- check_value_each a vs ;;
       Ok (VList vs))%result
  end.

(** The state of [_parse_known_args]: the namespace, the indices of the
    actions seen, the positionals not yet consumed and the extras. *)
Record pstate : Type := mkState {
  namespace : OD.t pyval;
  seen_actions : list nat;
  positionals : list (nat * action);
  extras : list string
}.

(** [take_action]: the values are computed, then the action is called;
    the help action prints the help of the parser and exits. *)
Definition take_action (i : nat) (a : action) (arg_strings : list string)
    (st : pstate) : result pstate :=
  (values <- get_values a arg_strings ;;
   match kind a with
   | HelpAction => (_ <- print_help p ;; exit 0)
   | StoreAction =>
       Ok (mkState
             (match dest a with
              | Some d => OD.set d values (namespace st)
              | None => namespace st
              end)
             (i :: seen_actions st) (positionals st) (extras st))
   end)%result.

Definition slice {A : Type} (l : list A) (start count : nat) : list A :=
  firstn count (skipn start l).

Section Run.

Variable arg_strings : list string.
Variable pattern : list (option (option nat * string * option string)).

Fixpoint take_positionals (todo : list ((nat * action) * nat))
    (start : nat) (st : pstate) : result (pstate * nat) :=
  match todo with
  | [] => Ok (st, start)
  | ((i, a), count) :: todo' =>
      (st <- take_action i a (slice arg_strings start count) st ;;
       take_positionals todo' (start + count) st)%result
  end.

(** [consume_positionals] *)
Definition consume_positionals (start : nat) (st : pstate)
    : result (pstate * nat) :=
  let ns := map (fun ia => act_nargs (snd ia)) (positionals st) in
  let counts :=
    match_partial ns (List.length ns) (leading_values (skipn start pattern)) in
  ('(st, stop) <- take_positionals (combine (positionals st) counts) start st ;;
   Ok (mkState (namespace st) (seen_actions st)
         (skipn (List.length counts) (positionals st)) (extras st),
       stop))%result.

Definition add_extras (more : list string) (st : pstate) : pstate :=
  mkState (namespace st) (seen_actions st) (positionals st) (extras st ++ more).

(** [consume_optional] *)
Definition consume_optional (start : nat) (st : pstate)
    : result (pstate * nat) :=
  match nth_error pattern start with
  | Some (Some (None, _, _)) =>
      Ok (add_extras (slice arg_strings start 1) st, S start)
  | Some (Some (Some i, option_string, explicit_arg)) =>
      match nth_error (actions p) i with
      | None => Unmodelled
      | Some a =>
          match explicit_arg with
          | Some e =>
              match match_nargs [act_nargs a] 1 with
              | Some [0] =>
                  match option_string with
                  | String _ (String c1 _) =>
                      if Ascii.eqb c1 dash then exit 2 else Unmodelled
                  | _ => Unmodelled
                  end
              | Some [1] =>
                  (st <- take_action i a [e] st ;; Ok (st, S start))%result
              | _ => exit 2
              end
          | None =>
              match match_nargs [act_nargs a]
                      (leading_values (skipn (S start) pattern)) with
              | Some [count] =>
                  (st <- take_action i a (slice arg_strings (S start) count) st ;;
                   Ok (st, S start + count))%result
              | _ => exit 2
              end
          end
      end
  | _ => Unmodelled
  end.

(** The index of the first option at or after [start]. *)
Fixpoint next_option (start : nat) (fuel : nat) : option nat :=
  match fuel with
  | 0 => None
  | S fuel' =>
      match nth_error pattern start with
      | Some (Some _) => Some start
      | Some None => next_option (S start) fuel'
      | None => None
      end
  end.

(** The main loop: it runs while an option lies at or after
    [start_index].  Every turn moves [start_index] forward, so
    [fuel] above the number of tokens is enough. *)
Fixpoint main_loop (fuel : nat) (start_index : nat) (st : pstate)
    : result (pstate * nat) :=
  match fuel with
  | 0 => Unmodelled
  | S fuel' =>
      match next_option start_index (S (List.length pattern)) with
      | None => Ok (st, start_index)
      | Some next_option_string_index =>
          let after_positionals (st : pstate) (start_index : nat) :=
            let '(st, start_index) :=
              match nth_error pattern start_index with
              | Some (Some _) => (st, start_index)
              | _ =>
                  (add_extras
                     (slice arg_strings start_index
                        (next_option_string_index - start_index)) st,
                   next_option_string_index)
              end in
            ('(st, start_index) <- consume_optional start_index st ;;
             main_loop fuel' start_index st)%result in
          if (start_index =? next_option_string_index)%nat
          then after_positionals st start_index
          else
            ('(st, positionals_end_index) <- consume_positionals start_index st ;;
             if (start_index <? positionals_end_index)%nat
             then main_loop fuel' positionals_end_index st
             else after_positionals st positionals_end_index)%result
      end
  end.

End Run.

Fixpoint indexed_from {A : Type} (i : nat) (l : list A) : list (nat * A) :=
  match l with
  | [] => []
  | x :: l' => (i, x) :: indexed_from (S i) l'
  end.

(** The namespace before parsing: the default of the first action of each
    destination. *)
Fixpoint initial_namespace (acts : list action) (ns : OD.t pyval)
    : OD.t pyval :=
  match acts with
  | [] => ns
  | a :: acts' =>
      initial_namespace acts'
        match dest a, default a with
        | Some d, Some v => if OD.contains d ns then ns else OD.set d v ns
        | _, _ => ns
        end
  end.

(** The end of [_parse_known_args]: an action that was not seen is an
    error when it is required; otherwise its default, when it is a string
    still in the namespace, goes through the converter. *)
Fixpoint finish (acts : list (nat * action)) (seen : list nat)
    (ns : OD.t pyval) : result (OD.t pyval) :=
  match acts with
  | [] => Ok ns
  | (i, a) :: acts' =>
      if existsb (Nat.eqb i) seen then finish acts' seen ns
      else if required a then exit 2
      else
        match default a, dest a with
        | Some (VStr s), Some d =>
            match OD.get d ns with
            | Some (VStr s') =>
                if String.eqb s s' then
                  (v <- get_value a s ;; finish acts' seen (OD.set d v ns))%result
                else finish acts' seen ns
            | _ => finish acts' seen ns
            end
        | _, _ => finish acts' seen ns
        end
  end.

Definition from_file (arg : string) : bool :=
  match arg with
  | String c _ => Ascii.eqb c "@"%char
  | EmptyString => false
  end.

(** [parser.parse_known_args(args)] for a sequence [args]: the namespace
    as a dictionary, and the tokens that were not recognised. *)
Definition parse_known_args (arg_strings : list string)
    : result (OD.t pyval * list string) :=
  if existsb from_file arg_strings || existsb (String.eqb "--") arg_strings
  then Unmodelled
  else
    (pattern <- classify p arg_strings ;;
     let st0 :=
       mkState (initial_namespace (actions p) []) []
         (filter (fun ia => match option_strings (snd ia) with
                            | [] => true
                            | _ :: _ => false
                            end)
                 (indexed_from 0 (actions p)))
         [] in
     '(st, start_index) <-
        main_loop arg_strings pattern (S (List.length arg_strings)) 0 st0 ;;
     '(st, stop_index) <- consume_positionals arg_strings pattern start_index st ;;
     let st := add_extras (skipn stop_index arg_strings) st in
     ns <- finish (indexed_from 0 (actions p)) (seen_actions st) (namespace st) ;;
     Ok (ns, extras st))%result.

(** [vars(parser.parse_args(args))] *)
Definition parse_args (arg_strings : list string)
    : result (OD.t pyval) :=
  ('(ns, argv) <- parse_known_args arg_strings ;;
   match argv with
   | [] => Ok ns
   | _ :: _ => exit 2
   end)%result.

End Parsing.

End Argparse.

(** ** [_config_parser] *)

(** The converter chosen from the default of an optional parameter. *)
Definition converter_of (default : pyval) : option converter :=
  if isinstance default TBool then Some conv_to_bool
  else if isinstance default TInt then Some conv_int
  else if isinstance default TFloat then Some conv_float
  else if isinstance default TDatetime then Some conv_to_date
  else None.

(** ["-" + name if len(name) == 1 else "--" + name] *)
Definition argname (name : string) : string :=
  if (String.length name =? 1)%nat then "-" +:+ name else "--" +:+ name.

(** [func_help.get(name, None)] after [func_help = func_help or {}] *)
Definition help_for (func_help : option (OD.t string)) (name : string)
    : option string :=
  match func_help with
  | Some d => OD.get name d
  | None => None
  end.

Definition required_of (spec : argspec) : list string :=
  let defaults := match spec_defaults spec with Some d => d | None => [] end in
  firstn (List.length (spec_args spec) - List.length defaults) (spec_args spec).

Definition optional_of (spec : argspec) : list (string * pyval) :=
  let defaults := match spec_defaults spec with Some d => d | None => [] end in
  combine
    (skipn (List.length (spec_args spec) - List.length defaults) (spec_args spec))
    defaults.

Section ConfigParser.

Variable grp : option string.
Variable func_help : option (OD.t string).

Fixpoint add_required (parser : Argparse.ArgumentParser)
    (required : list string) : result Argparse.ArgumentParser :=
  match required with
  | [] => Ok parser
  | arg :: rest =>
      if String.eqb arg "self" then add_required parser rest
      else
        (parser <-
           Argparse.add_argument parser grp arg
             (Argparse.mkKwargs None (help_for func_help arg) None
                Argparse.NargsNone None) ;;
         add_required parser rest)%result
  end.

Fixpoint add_optional (parser : Argparse.ArgumentParser)
    (optional : list (string * pyval)) : result Argparse.ArgumentParser :=
  match optional with
  | [] => Ok parser
  | (name, default) :: rest =>
      (parser <-
         Argparse.add_argument parser grp (argname name)
           (Argparse.mkKwargs (Some default) (help_for func_help name)
              (converter_of default) Argparse.NargsNone None) ;;
       add_optional parser rest)%result
  end.

(** The body of [_config_parser]. *)
Definition config_parser_body (parser : Argparse.ArgumentParser)
    (func : pyfunc) : result Argparse.ArgumentParser :=
  let spec := getfullargspec func in
  (parser <- add_required parser (required_of spec) ;;
   parser <- add_optional parser (optional_of spec) ;;
   parser <-
     match name_truthy (spec_varargs spec) with
     | Some varargs =>
         Argparse.add_argument parser grp varargs
           (Argparse.mkKwargs None (help_for func_help varargs) None
              Argparse.NargsZeroOrMore None)
     | None => Ok parser
     end ;;
   match name_truthy (spec_varkw spec) with
   | Some keywords =>
       Argparse.add_argument parser grp (argname keywords)
         (Argparse.mkKwargs None (help_for func_help keywords)
            (Some conv_json_loads) Argparse.NargsNone None)
   | None => Ok parser
   end)%result.

End ConfigParser.

(** [_config_parser(parser, func, func_help)]; [grp] is the title of the
    argument group when [parser] is one, as in the second call of
    [CLITool.parser]. *)
Definition _config_parser (parser : Argparse.ArgumentParser) (func : pyfunc)
    (func_help : option (OD.t string)) (grp : option string)
    : result Argparse.ArgumentParser :=
  config_parser_body grp func_help parser func.

(** ** [_getcallargs] *)

(** [items[index]] on a list: the index is an integer, counted from the
    end when negative. *)
Definition list_getitem (items : list pyval) (index : pyval) : result pyval :=
  let at_ (z : Z) :=
    let n := Z.of_nat (List.length items) in
    let i := if (z <? 0)%Z then (z + n)%Z else z in
    if ((0 <=? i) && (i <? n))%Z then
      match nth_error items (Z.to_nat i) with
      | Some v => Ok v
      | None => raise IndexError "list index out of range"
      end
    else raise IndexError "list index out of range" in
  match index with
  | VInt z => at_ z
  | VBool b => at_ (if b then 1%Z else 0%Z)
  | v =>
      raise TypeError
        ("list indices must be integers or slices, not "
         +:+ type_name (type_of v))
  end.

Section GetCallArgs.

Variable kwargs : OD.t pyval.

(** [optional]: the list of [(name, default)] tuples. *)
Variable optional : list pyval.

(** The loop over [names], with [funcargs] so far. *)
Fixpoint collect_named (names : list string) (funcargs : list pyval)
    : result (list pyval) :=
  match names with
  | [] => Ok funcargs
  | name :: rest =>
      if String.eqb name "self" then collect_named rest funcargs
      else
        match OD.get name kwargs with
        | Some v => collect_named rest (funcargs ++ [v])
        | None =>
            if str_in_list name optional then
              (v <- list_getitem optional (VStr name) ;;
               collect_named rest (funcargs ++ [v]))%result
            else
              raise ValueError ("No value available for '" +:+ name +:+ "'")
        end
  end.

End GetCallArgs.

(** The call [_getcallargs(func, **kwargs)] for a mapping [kwargs]: a key
    [func] collides with the positional parameter and the call itself
    raises the [TypeError] of a parameter given twice; the body then runs on
    the other mappings. *)
Definition _getcallargs (func : pyfunc) (kwargs : OD.t pyval)
    : result (list pyval * OD.t pyval) :=
  if OD.contains "func" kwargs then binding_error else
  let spec := getfullargspec func in
  let names := spec_args spec in
  let optional :=
    map (fun nd => VTuple [VStr (fst nd); snd nd]) (optional_of spec) in
  (funcargs <- collect_named kwargs optional names [] ;;
   funcargs <-
     match name_truthy (spec_varargs spec) with
     | Some varargs =>
         match OD.get varargs kwargs with
         | Some items =>
             match items with
             | VTuple l | VList l => Ok (funcargs ++ l)
             | _ =>
                 raise TypeError
                   ("Expected sequence; got " +:+ type_name (type_of items))
             end
         | None => Ok funcargs
         end
     | None => Ok funcargs
     end ;;
   funckwargs <-
     match name_truthy (spec_varkw spec) with
     | Some keywords =>
         match OD.get keywords kwargs with
         | Some mapping =>
             match mapping with
             | VNone => Ok []
             | VDict d => Ok (OD.update [] d)
             | _ =>
                 raise TypeError
                   ("Expected dict; got " +:+ type_name (type_of mapping))
             end
         | None => Ok []
         end
     | None => Ok []
     end ;;
   Ok (funcargs, funckwargs))%result.

(** ** [config_logging] *)

Definition stream_format : string := "[%(levelname)s] %(message)s".
Definition file_format : string := "[%(asctime)s][%(levelname)s] %(message)s".

Definition arg_of (env : OD.t pyval) (name : string) : pyval :=
  match OD.get name env with Some v => v | None => VNone end.

(** [logging._nameToLevel] *)
Definition level_names : OD.t Z :=
  [("CRITICAL", 50%Z); ("FATAL", 50%Z); ("ERROR", 40%Z); ("WARN", 30%Z);
   ("WARNING", 30%Z); ("INFO", 20%Z); ("DEBUG", 10%Z); ("NOTSET", 0%Z)].

(** [logging._checkLevel(level)], through which [handler.setLevel] takes
    its argument: an integer is kept, the name of a level gives its value,
    a string that names none is a [ValueError] and any other object a
    [TypeError].  An object of a class of its own may derive from [int] or
    [str]; the model does not say. *)
Definition check_level (level : pyval) : result pyval :=
  match level with
  | VInt _ | VBool _ => Ok level
  | VStr name =>
      match OD.get name level_names with
      | Some z => Ok (VInt z)
      | None => raise_unworded ValueError
      end
  | VObject _ => Unmodelled
  | _ => raise_unworded TypeError
  end.

(** [logger.addHandler(handler)] *)
Definition add_handler (h : handler) (w : world) : world :=
  set_handlers (handlers w ++ [h]) w.

(** [logging.FileHandler(filename, mode)]: [os.fspath] takes the name,
    then the file is opened.  An object of a class of its own may be a
    path; the model does not say. *)
Definition file_handler {rt : Runtime} (filename : pyval) (mode : string)
    : result handler_kind :=
  match filename with
  | VStr path => (_ <- open_log path mode ;; Ok (FileHandler filename mode))%result
  | VObject _ => Unmodelled
  | _ => raise_unworded TypeError
  end.

(** One of the two blocks that add a file handler: [if name:], then the
    handler is made, given the level and added. *)
Definition attach_file {rt : Runtime} (filename : pyval) (mode : string)
    (level : pyval) (w : world) : result unit * world :=
  if truthy filename then
    match file_handler filename mode with
    | Ok k => (Ok tt, add_handler (mkHandler k file_format level) w)
    | Raise e => (Raise e, w)
    | Unmodelled => (Unmodelled, w)
    end
  else (Ok tt, w).

(** The body of [config_logging].  An exception leaves the handlers that
    were added before it on the root logger. *)
Definition config_logging_body {rt : Runtime} (env : OD.t pyval) (w : world)
    : result pyval * world :=
  let logfile := arg_of env "logfile" in
  let logwrite := arg_of env "logwrite" in
  let loglevel := arg_of env "loglevel" in
  let w := set_root_level NOTSET w in
  match handlers w with
  | [] =>
      match check_level loglevel with
      | Ok level =>
          let w := add_handler (mkHandler StreamHandler stream_format level) w in
          match attach_file logfile "a" level w with
          | (Ok _, w) =>
              match attach_file logwrite "w" level w with
              | (Ok _, w) => (Ok VNone, w)
              | (Raise e, w) => (Raise e, w)
              | (Unmodelled, w) => (Unmodelled, w)
              end
          | (Raise e, w) => (Raise e, w)
          | (Unmodelled, w) => (Unmodelled, w)
          end
      | Raise e => (Raise e, w)
      | Unmodelled => (Unmodelled, w)
      end
  | _ :: _ => (Ok VNone, w)
  end.

Definition config_logging_doc : string :=
  "Configure logging to emit messages to the console and optional log files.

Args:
    logfile: log file name; file is opened in append mode.
    logwrite: log file name; file is opened in write mode.
    loglevel: logging level; default is 20 (logging.INFO).".

Definition config_logging {rt : Runtime} : pyfunc :=
  mkFunc [] [("logfile", VNone); ("logwrite", VNone); ("loglevel", VInt 20)]
         None None false (Some config_logging_doc) config_logging_body.

(** ** [CLITool] *)

Inductive traceback : Type := Traceback.

(** [sys.exc_info()]: the class, the exception and its traceback. *)
Definition exc_info : Type := (exc_class * exn * traceback)%type.

Record Result : Type := mkResult {
  status : pyval;
  output : pyval;
  error : option exc_info
}.

Record CLITool : Type := mkCLITool {
  func : pyfunc;
  label : option string;
  tool_description : option string;
  func_help : option (OD.t string);
  parse_doc : bool;
  logmngr : pyfunc;
  _parser : option Argparse.ArgumentParser
}.

(** [a or b] for two strings that may be [None]. *)
Definition str_or (a b : option string) : option string :=
  match a with
  | Some s => if Str.truthy s then a else b
  | None => b
  end.

(** [CLITool(func, label, description, func_help, parse_doc, logmngr)] *)
Definition CLITool_init {rt : Runtime} (func : pyfunc)
    (label description : option string)
    (func_help : option (OD.t string)) (parse_doc : bool)
    (logmngr : option pyfunc) : CLITool :=
  mkCLITool func label (str_or description label) func_help parse_doc
            (match logmngr with Some f => f | None => config_logging end)
            None.

Definition set_parser (self : CLITool) (p : Argparse.ArgumentParser)
    : CLITool :=
  mkCLITool (func self) (label self) (tool_description self) (func_help self)
            (parse_doc self) (logmngr self) (Some p).

Section Tool.

Context {rt : Runtime}.

(** [_parse_docargs(parsed.args)] when [parsed.args] is not empty. *)
Definition docargs_of (parsed : DocInfo) : result (option (OD.t string)) :=
  match name_truthy (args parsed) with
  | Some text => (d <- _parse_docargs text ;; Ok (Some d))%result
  | None => Ok None
  end.

(** The property [CLITool.parser]: the parser, built on first access, and
    the tool that now holds it. *)
Definition CLITool_parser (self : CLITool)
    : result (Argparse.ArgumentParser * CLITool) :=
  match _parser self with
  | Some p => Ok (p, self)
  | None =>
      ('(label_, description_, func_help_) <-
         (if parse_doc self then
            parsed <- parse_doc_of (fn_doc (func self)) ;;
            func_help_ <-
              match func_help self with
              | Some (_ :: _) => Ok (func_help self)
              | _ =>
                  match name_truthy (args parsed) with
                  | Some text => d <- _parse_docargs text ;; Ok (Some d)
                  | None => Ok (func_help self)
                  end
              end ;;
            Ok (str_or (label self) (summary parsed),
                str_or (tool_description self) (description parsed),
                func_help_)
          else Ok (label self, tool_description self, func_help self)) ;;
       let parser := Argparse.new label_ description_ true in
       parser <- _config_parser parser (func self) func_help_ None ;;
       parsed <- parse_doc_of (fn_doc (logmngr self)) ;;
       func_help_ <- docargs_of parsed ;;
       parser <- _config_parser parser (logmngr self) func_help_
                   (Some "logging arguments") ;;
       Ok (parser, set_parser self parser))%result
  end.

(** The start messages of [execute]. *)
Definition log_start (self : CLITool) (w : world) : world :=
  let start := now w in
  let w :=
    match name_truthy (label self) with
    | Some l => log_call INFO l [] w
    | None => w
    end in
  log_call INFO "Start Time: %s" [LTime start] w.

(** The [finally] clause of [execute]. *)
Definition log_closing (start : Z) (status : Z) (w : world) : world :=
  let end_ := now w in
  log_call INFO
    ((if (status =? 0)%Z then "SUCCEEDED" else "FAILED")
     +:+ " at %s (Elapsed Time: %s)" +:+ String Str.LF EmptyString)
    [LTime end_; LElapsed (end_ - start)] w.

(** The call [tool.execute( *args, **kwargs )].  A keyword [self] collides
    with the receiver: the call raises the [TypeError] of a parameter given
    twice before the body is entered, and nothing is logged.  In the body,
    [except Exception] catches the exceptions that derive from [Exception];
    any other leaves through the [finally] clause, with [status] still 0. *)
Definition execute (self : CLITool) (args : list pyval) (kwargs : OD.t pyval)
    (w : world) : result Result * world :=
  if OD.contains "self" kwargs then (binding_error, w) else
  let start := now w in
  match call (func self) args kwargs (log_start self w) with
  | (Ok out, w) => (Ok (mkResult (VInt 0) out None), log_closing start 0 w)
  | (Raise e, w) =>
      if is_Exception (exc_type e) then
        let w :=
          log_call ERROR "%s: %s"
            [LText (exc_name (exc_type e)); LValue e] w in
        let w := log_call DEBUG "%s" [LTrace e] w in
        (Ok (mkResult (VInt 1) VNone (Some (exc_type e, e, Traceback))),
         log_closing start 1 w)
      else (Raise e, log_closing start 0 w)
  | (Unmodelled, w) => (Unmodelled, w)
  end.

(** [CLITool.__call__( *args )]: the result, the tool with its parser
    cached, and the world. *)
Definition CLITool_call (self : CLITool) (args : list string) (w : world)
    : result Result * CLITool * world :=
  let args := match args with [] => argv w | _ :: _ => args end in
  match CLITool_parser self with
  | Raise e => (Raise e, self, w)
  | Unmodelled => (Unmodelled, self, w)
  | Ok (parser, self) =>
      match
        (params <- Argparse.parse_args parser args ;;
         logcall <- _getcallargs (logmngr self) params ;;
         execcall <- _getcallargs (func self) params ;;
         Ok (logcall, execcall))%result
      with
      | Raise e => (Raise e, self, w)
      | Unmodelled => (Unmodelled, self, w)
      | Ok ((logargs, logkwargs), (execargs, execkwargs)) =>
          match call (logmngr self) logargs logkwargs w with
          | (Raise e, w) => (Raise e, self, w)
          | (Unmodelled, w) => (Unmodelled, self, w)
          | (Ok _, w) =>
              match execute self execargs execkwargs w with
              | (Ok result, w) => (Ok result, self, emit EvShutdown w)
              | (r, w) => (r, self, w)
              end
          end
      end
  end.

End Tool.

(** ** [clitoolbox.py] *)

(** What a command returns: a [Result], or any other object, taken as a
    status code. *)
Inductive cmd_return : Type :=
| RetResult (r : Result)
| RetValue (v : pyval).

(** A command: a [CLITool] object, or another callable that takes the
    command-line tokens. *)
Inductive command : Type :=
| ToolCommand (tool : CLITool)
| FuncCommand (doc : option string)
              (run : list string -> world -> result cmd_return * world).

(** The docstring of the class [CLITool], which [inspect.getdoc] gives for
    its instances. *)
Definition CLITool_doc : string :=
  "Create CLI interface for the supplied function or callable object.

The default implementation adds logging capability and options as configured
by the logging manager function. The logging behavior can be modified by
setting the logmngr argument to an alternative function.

Attributes:
    func: Target function
    label: Text to include in the help message and start log message.
    description: Additional text to include in the help message.
    func_help: Dictionary mapping parameter names to descriptions.
    parse_doc: If True, parse Google style docstring for label,
        description, and func_help.
    logmngr: Logging manager function.
    parser: ArgumentParser object".

(** [inspect.getdoc(func)] *)
Definition getdoc (c : command) : option string :=
  match c with
  | ToolCommand _ => Some CLITool_doc
  | FuncCommand doc _ => doc
  end.

Fixpoint spaces (n : nat) : string :=
  match n with
  | 0 => EmptyString
  | S n' => String " "%char (spaces n')
  end.

(** ["%-16s" % name] *)
Definition ljust16 (name : string) : string :=
  name +:+ spaces (16 - String.length name).

(** The field [description] of a [DocInfo], under a name that the
    attribute [description] of the toolbox does not hide. *)
Definition doc_description (d : DocInfo) : option string := description d.

Module Toolbox.

Definition entry : Type := (command * string * option string)%type.

Definition entry_func (e : entry) : command := fst (fst e).
Definition entry_name (e : entry) : string := snd (fst e).
Definition entry_description (e : entry) : option string := snd e.

Record t : Type := mk {
  description : option string;
  _parser : option Argparse.ArgumentParser;
  _commands : list entry
}.

(** [CLIToolbox(description)] *)
Definition init (description : option string) : t := mk description None [].

(** The lines of one command in the listing. *)
Fixpoint epilog_lines (name : string) (first : bool) (items : list string)
    : list string :=
  match items with
  | [] => []
  | item :: rest =>
      (if first then "  " +:+ ljust16 name +:+ Str.strip item
       else spaces 18 +:+ Str.strip item)
      :: epilog_lines name false rest
  end.

(** [_format_epilog(commands)] *)
Definition _format_epilog (commands : list entry) : string :=
  Str.join (String Str.CR (String Str.LF EmptyString))
    ("Commands:"
     :: flat_map
          (fun e =>
             let desc := match name_truthy (entry_description e) with
                         | Some d => d
                         | None => " "
                         end in
             epilog_lines (entry_name e) true (Str.splitlines desc))
          commands).

(** The property [CLIToolbox.parser] *)
Definition parser (self : t) : result (Argparse.ArgumentParser * t) :=
  match _parser self with
  | Some p => Ok (p, self)
  | None =>
      let parser := Argparse.new (description self) None false in
      let choices := map entry_name (_commands self) in
      (parser <-
         Argparse.add_argument parser None "subcommand"
           (Argparse.mkKwargs None None None Argparse.NargsOptional
              (Some choices)) ;;
       Ok (parser, mk (description self) (Some parser) (_commands self)))%result
  end.

(** [a or b] on objects. *)
Definition opt_or (a b : option string) : option string := str_or a b.

Section Commands.

Context {rt : Runtime}.

(** [CLIToolbox.add_command(func, name, description, parse_doc)]: what the
    call returns or raises, and the toolbox after it. *)
Definition add_command (self : t) (func : command) (name : string)
    (description_ : option string) (parse_doc : bool) : result unit * t :=
  if Str.contains_char " "%char name then
    (raise ValueError ("name cannot contain spaces; got '" +:+ name +:+ "'"),
     self)
  else
    match
      match parse_doc, name_truthy description_ with
      | true, None =>
          (parsed <- parse_doc_of (getdoc func) ;;
           Ok (opt_or (summary parsed) (doc_description parsed)))%result
      | _, _ => Ok description_
      end
    with
    | Ok description_ =>
        (Ok tt,
         mk (description self) None
            (_commands self ++ [(func, name, description_)]))
    | Raise e => (Raise e, self)
    | Unmodelled => (Unmodelled, self)
    end.

(** [next((item[0] for item in self._commands if item[1] == subcommand),
    None)] *)
Fixpoint find_command (commands : list entry) (subcommand : pyval)
    : option command :=
  match commands with
  | [] => None
  | item :: rest =>
      if str_eq_val (entry_name item) subcommand then Some (entry_func item)
      else find_command rest subcommand
  end.

(** The entry that [find_command] selects gets the state its tool is left
    in by the call. *)
Fixpoint store_command (commands : list entry) (subcommand : pyval)
    (c : command) : list entry :=
  match commands with
  | [] => []
  | item :: rest =>
      if str_eq_val (entry_name item) subcommand
      then (c, entry_name item, entry_description item) :: rest
      else item :: store_command rest subcommand c
  end.

(** [subparser( *tokens )]: the value returned, and the command after the
    call. *)
Definition invoke (c : command) (tokens : list string) (w : world)
    : result cmd_return * command * world :=
  match c with
  | ToolCommand tool =>
      match CLITool_call tool tokens w with
      | (Ok r, tool, w) => (Ok (RetResult r), ToolCommand tool, w)
      | (Raise e, tool, w) => (Raise e, ToolCommand tool, w)
      | (Unmodelled, tool, w) => (Unmodelled, ToolCommand tool, w)
      end
  | FuncCommand doc run =>
      let (r, w) := run tokens w in (r, c, w)
  end.

(** [result if isinstance(result, Result) else Result(result, None, None)] *)
Definition as_result (r : cmd_return) : Result :=
  match r with
  | RetResult r => r
  | RetValue v => mkResult v VNone None
  end.

(** The dispatch of [__call__], from the parsed subcommand and the tokens
    that are left. *)
Definition dispatch (self : t) (subcommand : pyval) (extra : list string)
    (w : world) : result Result * t * world :=
  if negb (truthy subcommand) then
    let w := emit EvPrintHelp w in
    let w := emit (EvPrint "") w in
    let w := emit (EvPrint (_format_epilog (_commands self))) w in
    (Argparse.exit 0, self, w)
  else
    match find_command (_commands self) subcommand with
    | None =>
        (raise TypeError "'NoneType' object is not callable", self, w)
    | Some subparser =>
        let tokens := match extra with [] => ["-h"] | _ :: _ => extra end in
        let '(r, c, w) := invoke subparser tokens w in
        let self :=
          mk (description self) (_parser self)
             (store_command (_commands self) subcommand c) in
        match r with
        | Ok v => (Ok (as_result v), self, w)
        | Raise e => (Raise e, self, w)
        | Unmodelled => (Unmodelled, self, w)
        end
    end.

(** [CLIToolbox.__call__( *args )] *)
Definition call (self : t) (args : list string) (w : world)
    : result Result * t * world :=
  match parser self with
  | Raise e => (Raise e, self, w)
  | Unmodelled => (Unmodelled, self, w)
  | Ok (p, self) =>
      match Argparse.parse_known_args p args with
      | Raise e => (Raise e, self, w)
      | Unmodelled => (Unmodelled, self, w)
      | Ok (this, extra) =>
          dispatch self (arg_of this "subcommand") extra w
      end
  end.

End Commands.

End Toolbox.

(** ** The args block, in the words of its specification

    Each line that matches starts an entry; the lines that follow it
    without matching continue its description, each trimmed and joined by
    one space. *)

Module DocArgsSpec.

(** What the lines at the head of [lines] that do not match add to the
    description of the entry they continue. *)
Fixpoint continuation (lines : list string) : string :=
  match lines with
  | [] => EmptyString
  | line :: rest =>
      match match_pair line with
      | None => " " +:+ Str.strip line +:+ continuation rest
      | Some _ => EmptyString
      end
  end.

(** The entries of a block, in the order they start. *)
Fixpoint entries (lines : list string) : list (string * string) :=
  match lines with
  | [] => []
  | line :: rest =>
      match match_pair line with
      | Some (n, d) => (n, Str.strip d +:+ continuation rest) :: entries rest
      | None => entries rest
      end
  end.

(** The names of a list without repetition, each at its first place. *)
Fixpoint first_seen (seen names : list string) : list string :=
  match names with
  | [] => []
  | n :: rest =>
      if Str.mem n seen then first_seen seen rest
      else n :: first_seen (seen ++ [n]) rest
  end.

(** The description of the last entry named [k]. *)
Definition last_description (k : string) (es : list (string * string))
    : option string :=
  fold_left (fun r e => if String.eqb k (fst e) then Some (snd e) else r)
            es None.

(** The mapping of a list of entries. *)
Definition mapping (es : list (string * string)) : OD.t string :=
  fold_left (fun acc e => OD.set (fst e) (snd e) acc) es [].

(** A line that does not match comes before any entry has started. *)
Definition stray (lines : list string) (line : string) : Prop :=
  exists before after,
    lines = before ++ line :: after
    /\ match_pair line = None
    /\ Forall (fun l => match_pair l = None) before.

End DocArgsSpec.

(** ** Sections of a docstring, for the statements *)

(** The field of a [DocInfo] by the name of its section. *)
Definition DocInfo_get (d : DocInfo) (section : string) : option string :=
  if String.eqb section "summary" then summary d
  else if String.eqb section "description" then description d
  else if String.eqb section "args" then args d
  else if String.eqb section "returns" then returns d
  else if String.eqb section "yields" then yields d
  else if String.eqb section "raises" then raises d
  else None.

(** The lines in front of the loop when it reaches a section and finds it
    there: its header, but for the description, which has none, then
    [lines]. *)
Definition opened (section : string) (lines : list string) : list string :=
  if String.eqb section "description" then lines
  else header section :: lines.

(** The value a section gets from the lines of its body. *)
Definition section_value {rt : Runtime} (body : list string) : option string :=
  match body with
  | [] => None
  | _ :: _ => Some (Str.strip (Str.join os_linesep body))
  end.

(** ** A runtime for the examples

    POSIX, with [int] on signed decimal numerals and [json.loads] on flat
    objects of such numbers; the rest of the converters stays outside the
    model. *)

Module Example.

Fixpoint digits_value (s : string) (acc : Z) : option Z :=
  match s with
  | EmptyString => Some acc
  | String c s' =>
      if Char.is_digit c
      then digits_value s' (acc * 10 + Z.of_nat (Char.code c - 48))%Z
      else None
  end.

Definition numeral (s : string) : option Z :=
  match s with
  | String "-" (String c r) =>
      option_map Z.opp (digits_value (String c r) 0%Z)
  | String "+" (String c r) => digits_value (String c r) 0%Z
  | String c r => digits_value (String c r) 0%Z
  | EmptyString => None
  end.

Definition int_of (s : string) : result pyval :=
  if Str.contains_char "_"%char s then Unmodelled
  else
    match numeral (Str.strip s) with
    | Some z => Ok (VInt z)
    | None =>
        raise ValueError
          ("invalid literal for int() with base 10: '" +:+ s +:+ "'")
    end.

Definition quote : ascii := ascii_of_nat 34.

(** The characters up to the first [stop], and what follows it. *)
Fixpoint until (stop : ascii -> bool) (s : string) : string * string :=
  match s with
  | EmptyString => (EmptyString, EmptyString)
  | String c s' =>
      if stop c then (EmptyString, s)
      else let (a, b) := until stop s' in (String c a, b)
  end.

(** The members of a flat object, after its opening brace. *)
Fixpoint members (fuel : nat) (s : string) (acc : OD.t pyval)
    : result (OD.t pyval) :=
  match fuel with
  | 0 => Unmodelled
  | S fuel' =>
      match Str.lstrip s with
      | String c key_on =>
          if Ascii.eqb c quote then
            let (key, r) := until (fun x => Ascii.eqb x quote) key_on in
            if Str.contains_char (ascii_of_nat 92) key then Unmodelled
            else
              match r with
              | String _ r =>
                  match Str.lstrip r with
                  | String ":" r =>
                      let (num, r) :=
                        until (fun x => Ascii.eqb x ","%char
                                        || Ascii.eqb x "}"%char) r in
                      match numeral (Str.strip num), r with
                      | Some z, String "," r =>
                          members fuel' r (OD.set key (VInt z) acc)
                      | Some z, String "}" r =>
                          match Str.strip r with
                          | EmptyString => Ok (OD.set key (VInt z) acc)
                          | _ => raise ValueError "Extra data"
                          end
                      | _, _ => Unmodelled
                      end
                  | _ => Unmodelled
                  end
              | EmptyString => Unmodelled
              end
          else Unmodelled
      | EmptyString => Unmodelled
      end
  end.

Definition loads (s : string) : result pyval :=
  match Str.lstrip s with
  | String "{" r =>
      (d <- members (String.length r) r [] ;; Ok (VDict d))%result
  | _ => Unmodelled
  end.

#[export] Instance runtime : Runtime := {
  os_name := posix;
  py_int := int_of;
  py_float := fun _ => Unmodelled;
  to_date := fun _ => Unmodelled;
  json_loads := loads;
  open_log := fun _ _ => Ok tt
}.

Definition LF : string := String Str.LF EmptyString.

(** The world at the start of a process without arguments. *)
Definition world0 : world := mkWorld 0 [] [] 30 [].

End Example.

(** ** The functions and tokens of the test suite *)

Module Tests.

Definition _test1_doc : string :=
  "Sample function for TestCase.

Returns the supplied values.

Args:
    param1: parameter 1
    param2: parameter 2
    args: var-positional
    kwargs: JSON-encoded string

Returns:
    tuple: (param1, param2, args, kwargs".

(** [def _test1(param1, param2, *args, **kwargs)] with a body: the
    signature of scenario A. *)
Definition with_signature_1 (doc : option string)
    (body : OD.t pyval -> world -> result pyval * world) : pyfunc :=
  mkFunc ["param1"; "param2"] [] (Some "args") (Some "kwargs") false doc body.

(** [return (param1, param2, args, kwargs)] *)
Definition _test1 : pyfunc :=
  with_signature_1 (Some _test1_doc)
    (fun env w =>
       (Ok (VTuple [arg_of env "param1"; arg_of env "param2";
                    arg_of env "args"; arg_of env "kwargs"]), w)).

(** The text [{"E": 5}]. *)
Definition E5 : string :=
  "{" +:+ String Example.quote "E" +:+ String Example.quote ": 5}".

Definition tokens_A : list string := ["A"; "B"; "C"; "D"; "--kwargs=" +:+ E5].

(** The namespace that the tokens of scenario A parse to. *)
Definition params_A : OD.t pyval :=
  [("param1", VStr "A"); ("param2", VStr "B");
   ("args", VList [VStr "C"; VStr "D"]); ("kwargs", VDict [("E", VInt 5)]);
   ("logfile", VNone); ("logwrite", VNone); ("loglevel", VInt 20)].

(** The parser that [CLITool(_test1)] builds, with the logging arguments
    of [config_logging]. *)
Definition parser_A : Argparse.ArgumentParser :=
  Eval vm_compute in
    match CLITool_parser (rt := Example.runtime)
            (CLITool_init (rt := Example.runtime) _test1 None None None false None) with
    | Ok (p, _) => p
    | _ => Argparse.new None None true
    end.

End Tests.

(** ** The life of a toolbox, for the statements *)

(** The parser that the property [CLIToolbox.parser] builds: one optional
    positional, [subcommand], with the names of the commands for choices. *)
Definition subcommand_parser (description : option string)
    (choices : list string) : Argparse.ArgumentParser :=
  Argparse.mkParser description None
    [Argparse.mkAction Argparse.StoreAction [] (Some "subcommand")
       Argparse.NargsOptional (Some VNone) None (Some choices) false None None]
    false.

(** The choices that a parser accepts for its subcommand. *)
Definition subcommand_choices (p : Argparse.ArgumentParser)
    : option (list string) :=
  match Argparse.actions p with
  | [a] => Argparse.choices a
  | _ => None
  end.

(** The names of the registered commands, in the order of registration. *)
Definition command_names (self : Toolbox.t) : list string :=
  map Toolbox.entry_name (Toolbox._commands self).

(** A cached parser is the one that would be built now. *)
Definition in_sync (self : Toolbox.t) : Prop :=
  forall p,
    Toolbox._parser self = Some p ->
    p = subcommand_parser (Toolbox.description self) (command_names self).

(** The toolboxes that a program reaches: a new one, then any sequence of
    registrations, accesses to the parser and invocations. *)
Inductive reachable {rt : Runtime} : Toolbox.t -> Prop :=
| reach_init (description : option string) :
    reachable (Toolbox.init description)
| reach_add_command (self : Toolbox.t) (func : command) (name : string)
    (description : option string) (parse_doc : bool) :
    reachable self ->
    reachable (snd (Toolbox.add_command self func name description parse_doc))
| reach_parser (self self' : Toolbox.t) (p : Argparse.ArgumentParser) :
    reachable self ->
    Toolbox.parser self = Ok (p, self') ->
    reachable self'
| reach_call (self : Toolbox.t) (args : list string) (w : world) :
    reachable self ->
    reachable (snd (fst (Toolbox.call self args w))).

(** A token that [argparse] reads as a value: it starts neither an option
    nor a file of arguments. *)
Definition plain (token : string) : bool :=
  match token with
  | String c _ => negb (Ascii.eqb c "-"%char) && negb (Ascii.eqb c "@"%char)
  | EmptyString => true
  end.

(** What [__call__] makes of the outcome of the command it invokes. *)
Definition dispatched (r : result cmd_return) : result Result :=
  match r with
  | Ok v => Ok (Toolbox.as_result v)
  | Raise e => Raise e
  | Unmodelled => Unmodelled
  end.

(** The tokens handed to the command: a lone ["-h"] when none is left. *)
Definition forwarded (extra : list string) : list string :=
  match extra with
  | [] => ["-h"]
  | _ :: _ => extra
  end.

(** ** Statements about [_getcallargs] *)

(** [kwargs[name]], for a name that is a key of the mapping. *)
Definition value_of (kwargs : OD.t pyval) (name : string) : pyval :=
  match OD.get name kwargs with Some v => v | None => VNone end.

(** The sequence stored under the var-positional parameter: a tuple or a
    list, or nothing when the function has no such parameter or the mapping
    has no such key. *)
Definition spread_items (func : pyfunc) (kwargs : OD.t pyval)
    : option (list pyval) :=
  match name_truthy (fn_varargs func) with
  | Some varargs =>
      match OD.get varargs kwargs with
      | Some (VTuple l) | Some (VList l) => Some l
      | Some _ => None
      | None => Some []
      end
  | None => Some []
  end.

(** The dict stored under the var-keyword parameter, [None] counting as the
    empty one. *)
Definition spread_mapping (func : pyfunc) (kwargs : OD.t pyval)
    : option (OD.t pyval) :=
  match name_truthy (fn_varkw func) with
  | Some keywords =>
      match OD.get keywords kwargs with
      | Some VNone => Some []
      | Some (VDict d) => Some d
      | Some _ => None
      | None => Some []
      end
  | None => Some []
  end.

(** ** Statements about a tool of required parameters *)

(** A name that [add_argument] takes for a positional: it is not empty and
    does not start with a dash.  Every identifier is one. *)
Definition plain_name (n : string) : bool :=
  match n with
  | String c _ => negb (Ascii.eqb c "-"%char)
  | EmptyString => false
  end.

(** The positional that [_config_parser] registers for a required
    parameter. *)
Definition positional_for (func_help : option (OD.t string)) (name : string)
    : Argparse.action :=
  Argparse.mkAction Argparse.StoreAction [] (Some name) Argparse.NargsNone
    (Some VNone) None None true (help_for func_help name) None.

(** The option that [_config_parser] registers for a parameter of
    [config_logging], in the group of the logging arguments. *)
Definition logging_option (name : string) (default : pyval)
    (help : option string) : Argparse.action :=
  Argparse.mkAction Argparse.StoreAction ["--" +:+ name] (Some name)
    Argparse.NargsNone (Some default) (converter_of default) None false help
    (Some "logging arguments").

(** The parameters of [config_logging] at their defaults. *)
Definition logging_defaults : OD.t pyval :=
  [("logfile", VNone); ("logwrite", VNone); ("loglevel", VInt 20)].

(** [args or sys.argv[1:]] *)
Definition effective_tokens (tokens : list string) (w : world)
    : list string :=
  match tokens with
  | [] => argv w
  | _ :: _ => tokens
  end.

(** The default that the namespace starts with under [k]: the one of the
    first action of that destination. *)
Fixpoint find_default (k : string) (acts : list Argparse.action)
    : option pyval :=
  match acts with
  | [] => None
  | a :: rest =>
      match Argparse.dest a, Argparse.default a with
      | Some d, Some v => if String.eqb k d then Some v else find_default k rest
      | _, _ => find_default k rest
      end
  end.

(** ** Statements about the namespace of a tool *)

(** A name without dash, as every identifier is: the destination that
    [argparse] derives from its flag is the name itself. *)
Definition dash_free (n : string) : bool :=
  negb (Str.contains_char "-"%char n).

(** The parser has an action that stores under [k] and has a default. *)
Definition has_dest (p : Argparse.ArgumentParser) (k : string) : Prop :=
  exists a v,
    In a (Argparse.actions p)
    /\ Argparse.dest a = Some k /\ Argparse.default a = Some v.

(** Every key of [ns] is a key of [ns']. *)
Definition keeps (ns ns' : OD.t pyval) : Prop :=
  forall k, OD.contains k ns = true -> OD.contains k ns' = true.

(** The positional that [_config_parser] registers for the var-positional
    parameter. *)
Definition variadic_for (func_help : option (OD.t string)) (name : string)
    : Argparse.action :=
  Argparse.mkAction Argparse.StoreAction [] (Some name)
    Argparse.NargsZeroOrMore (Some VNone) None None true
    (help_for func_help name) None.

(** A word made of lower-case letters. *)
Fixpoint all_lower (w : string) : bool :=
  match w with
  | EmptyString => true
  | String c w' => Char.is_lower c && all_lower w'
  end.

(** * Properties *)

(** ** Characters and strings *)

Lemma in_all_chars (c : ascii) : In c Char.all_chars.
Proof.
  unfold Char.all_chars.
  rewrite <- (ascii_nat_embedding c).
  apply in_map, in_seq.
  pose proof (nat_ascii_bounded c). lia.
Qed.

Lemma for_all_chars (P : ascii -> bool) :
  Char.for_all P = true -> forall c, P c = true.
Proof.
  unfold Char.for_all. rewrite forallb_forall.
  intros H c. apply H, in_all_chars.
Qed.

(** A fact about every character, checked on the 256 of them. *)
Ltac by_all_chars c :=
  revert c;
  match goal with
  | |- forall c, @?P c = true =>
      apply (for_all_chars P); vm_compute; reflexivity
  end.

Lemma lower_is_lower (c : ascii) :
  Bool.eqb (Char.is_lower (Char.lower c)) (Char.is_cased c) = true.
Proof. by_all_chars c. Qed.

Lemma upper_digit (c : ascii) :
  implb (Char.is_digit (Char.upper c)) (Ascii.eqb (Char.upper c) c) = true.
Proof. by_all_chars c. Qed.

Lemma upper_of_lower (c : ascii) :
  implb (Char.is_lower (Char.lower c))
        (Ascii.eqb (Char.lower (Char.upper c)) (Char.lower c)
         && Char.is_upper (Char.upper c)) = true.
Proof. by_all_chars c. Qed.

Lemma lower_of_upper (c : ascii) :
  implb (Char.is_upper (Char.upper c))
        (Ascii.eqb (Char.upper (Char.lower c)) (Char.upper c)
         && Char.is_lower (Char.lower c)) = true.
Proof. by_all_chars c. Qed.

Lemma ascii_eqb_true (a b : ascii) : Ascii.eqb a b = true <-> a = b.
Proof. apply Ascii.eqb_eq. Qed.

(** After a cased character, [title] and [lower] agree on a lower-case
    word. *)
Lemma title_from_cased_word (t w : string) :
  all_lower w = true ->
  (Str.title_from true t = w <-> Str.lower t = w).
Proof.
  revert w. induction t as [|c t IH]; intros w Hw.
  - simpl. reflexivity.
  - destruct w as [|x w]; simpl.
    + split; discriminate.
    + simpl in Hw. apply andb_true_iff in Hw as [Hx Hw].
      split; intros H; injection H as Hc Ht; subst x.
      * f_equal. apply (IH w Hw).
        pose proof (lower_is_lower c) as F. rewrite Hx in F.
        destruct (Char.is_cased c); [assumption | discriminate].
      * f_equal.
        pose proof (lower_is_lower c) as F. rewrite Hx in F.
        destruct (Char.is_cased c); [| discriminate].
        apply (IH w Hw). assumption.
Qed.

Lemma upper_T (c : ascii) :
  Bool.eqb (Ascii.eqb (Char.upper c) "T") (Ascii.eqb (Char.lower c) "t")
  && implb (Ascii.eqb (Char.upper c) "T") (Char.is_cased c) = true.
Proof. by_all_chars c. Qed.

Lemma upper_F (c : ascii) :
  Bool.eqb (Ascii.eqb (Char.upper c) "F") (Ascii.eqb (Char.lower c) "f")
  && implb (Ascii.eqb (Char.upper c) "F") (Char.is_cased c) = true.
Proof. by_all_chars c. Qed.

Lemma upper_1 (c : ascii) :
  Bool.eqb (Ascii.eqb (Char.upper c) "1") (Ascii.eqb c "1") = true.
Proof. by_all_chars c. Qed.

Lemma upper_0 (c : ascii) :
  Bool.eqb (Ascii.eqb (Char.upper c) "0") (Ascii.eqb c "0") = true.
Proof. by_all_chars c. Qed.

(** [title] gives a capitalised word exactly on the strings that [lower]
    sends to the word in lower case. *)
Lemma title_capitalised (X x : ascii) (w t : string) :
  (forall c,
     Bool.eqb (Ascii.eqb (Char.upper c) X) (Ascii.eqb (Char.lower c) x)
     && implb (Ascii.eqb (Char.upper c) X) (Char.is_cased c) = true) ->
  all_lower w = true ->
  (Str.title t = String X w <-> Str.lower t = String x w).
Proof.
  intros HX Hw. destruct t as [|c t]; simpl.
  - split; discriminate.
  - unfold Str.title. simpl.
    specialize (HX c). apply andb_true_iff in HX as [H1 H2].
    apply eqb_prop in H1.
    split; intros H; injection H as Hc Ht.
    + apply ascii_eqb_true in Hc as Hc'. rewrite Hc' in H1, H2. simpl in H2.
      symmetry in H1. apply ascii_eqb_true in H1. rewrite H1. f_equal.
      rewrite H2 in Ht. apply (title_from_cased_word t w Hw). assumption.
    + apply ascii_eqb_true in Hc as Hc'. rewrite Hc' in H1.
      rewrite H1 in H2. simpl in H2. apply ascii_eqb_true in H1.
      rewrite H1, H2. f_equal.
      apply (title_from_cased_word t w Hw). assumption.
Qed.

Lemma title_True (t : string) : Str.title t = "True" <-> Str.lower t = "true".
Proof. apply title_capitalised; [exact upper_T | reflexivity]. Qed.

Lemma title_False (t : string) :
  Str.title t = "False" <-> Str.lower t = "false".
Proof. apply title_capitalised; [exact upper_F | reflexivity]. Qed.

(** [title] leaves a digit alone. *)
Lemma title_digit (X : ascii) (t : string) :
  (forall c, Bool.eqb (Ascii.eqb (Char.upper c) X) (Ascii.eqb c X) = true) ->
  (Str.title t = String X EmptyString <-> t = String X EmptyString).
Proof.
  intros HX. destruct t as [|c t]; simpl.
  - split; discriminate.
  - unfold Str.title. simpl. specialize (HX c). apply eqb_prop in HX.
    split; intros H; injection H as Hc Ht.
    + destruct t; [| discriminate].
      apply ascii_eqb_true in Hc. rewrite Hc in HX. symmetry in HX.
      apply ascii_eqb_true in HX. now subst.
    + subst. rewrite Ascii.eqb_refl in HX. apply ascii_eqb_true in HX.
      now rewrite HX.
Qed.

Lemma title_1 (t : string) : Str.title t = "1" <-> t = "1".
Proof. apply title_digit. exact upper_1. Qed.

Lemma title_0 (t : string) : Str.title t = "0" <-> t = "0".
Proof. apply title_digit. exact upper_0. Qed.

Lemma string_eqb_true (a b : string) : String.eqb a b = true <-> a = b.
Proof. apply String.eqb_eq. Qed.

Lemma string_eqb_false (a b : string) : String.eqb a b = false <-> a <> b.
Proof. apply String.eqb_neq. Qed.

(** ** [_to_bool] *)

(** C7, the claim refuted: the claim has [_to_bool] true on ["True"] and
    ["1"] exactly, yet ["true"] is neither and converts to true. *)
Lemma to_bool_accepts_lower_case :
  _to_bool "true" = Ok true /\ "true" <> "True" /\ "true" <> "1"
  /\ _to_bool "FALSE" = Ok false /\ "FALSE" <> "False" /\ "FALSE" <> "0".
Proof. repeat split; (reflexivity || discriminate). Qed.

(** C7, as amended: [_to_bool] compares the title-cased text, so it is true
    exactly on the spellings of ["true"] in any mix of cases and on ["1"],
    false exactly on the spellings of ["false"] and on ["0"], and raises the
    [ValueError] that names the four literals on every other string. *)
Theorem to_bool_ignores_case (t : string) :
  (_to_bool t = Ok true <-> Str.lower t = "true" \/ t = "1")
  /\ (_to_bool t = Ok false <-> Str.lower t = "false" \/ t = "0")
  /\ (_to_bool t
        = raise ValueError
            ("Expected 'True', 'False', '1', '0'; got '" +:+ t +:+ "'")
      <-> ~ (Str.lower t = "true" \/ t = "1"
             \/ Str.lower t = "false" \/ t = "0")).
Proof.
  unfold _to_bool, Str.mem, raise. simpl existsb.
  pose proof (title_True t) as HT. pose proof (title_1 t) as H1.
  pose proof (title_False t) as HF. pose proof (title_0 t) as H0.
  destruct (String.eqb (Str.title t) "True") eqn:ET;
    [apply string_eqb_true in ET | apply string_eqb_false in ET];
  (destruct (String.eqb (Str.title t) "1") eqn:E1;
    [apply string_eqb_true in E1 | apply string_eqb_false in E1]);
  (destruct (String.eqb (Str.title t) "False") eqn:EF;
    [apply string_eqb_true in EF | apply string_eqb_false in EF]);
  (destruct (String.eqb (Str.title t) "0") eqn:E0;
    [apply string_eqb_true in E0 | apply string_eqb_false in E0]);
  simpl; try congruence;
  repeat split; intros; try discriminate; try tauto;
  try (exfalso; intuition congruence).
Qed.

(** ** Ordered dictionaries *)

Section ODFacts.

Context {V : Type}.

Lemma od_get_set_same (k : string) (v : V) (d : OD.t V) :
  OD.get k (OD.set k v d) = Some v.
Proof.
  induction d as [|[k' v'] d IH]; simpl.
  - now rewrite String.eqb_refl.
  - destruct (String.eqb k k') eqn:E; simpl; rewrite ?E, ?String.eqb_refl;
      auto.
Qed.

Lemma od_get_set_other (k k' : string) (v : V) (d : OD.t V) :
  k <> k' -> OD.get k (OD.set k' v d) = OD.get k d.
Proof.
  intros N. induction d as [|[k0 v0] d IH]; simpl.
  - apply string_eqb_false in N. now rewrite N.
  - destruct (String.eqb k' k0) eqn:E; simpl.
    + apply string_eqb_true in E. subst k0.
      apply string_eqb_false in N. now rewrite N.
    + destruct (String.eqb k k0); auto.
Qed.

Lemma od_set_set (k : string) (v v' : V) (d : OD.t V) :
  OD.set k v (OD.set k v' d) = OD.set k v d.
Proof.
  induction d as [|[k0 v0] d IH]; simpl.
  - now rewrite String.eqb_refl.
  - destruct (String.eqb k k0) eqn:E; simpl; rewrite ?E, ?String.eqb_refl;
      [reflexivity | now rewrite IH].
Qed.

Lemma od_set_get (k : string) (v : V) (d : OD.t V) :
  OD.get k d = Some v -> OD.set k v d = d.
Proof.
  induction d as [|[k0 v0] d IH]; simpl; [discriminate |].
  destruct (String.eqb k k0) eqn:E; intros H.
  - apply string_eqb_true in E. congruence.
  - now rewrite IH.
Qed.

(** Setting a key keeps the order of the keys; a new key goes last. *)
Lemma od_keys_set (k : string) (v : V) (d : OD.t V) :
  OD.keys (OD.set k v d)
  = if Str.mem k (OD.keys d) then OD.keys d else OD.keys d ++ [k].
Proof.
  unfold OD.keys, Str.mem. induction d as [|[k0 v0] d IH]; simpl; auto.
  destruct (String.eqb k k0) eqn:E; simpl.
  - apply string_eqb_true in E. now subst.
  - rewrite IH. now destruct (existsb (String.eqb k) (map fst d)).
Qed.

End ODFacts.

(** ** [_parse_docargs] *)

Lemma match_pair_name (line n d : string) :
  match_pair line = Some (n, d) -> Str.truthy n = true.
Proof.
  unfold match_pair.
  destruct (span_word line) as [[|w0 w] [|c rest]]; try discriminate.
  destruct c as [[] [] [] [] [] [] [] []]; try discriminate.
  destruct (span_dot rest) as [[|d0 d'] [|c' [|c'' r]]]; try discriminate;
    intros H; injection H as <- _; reflexivity.
Qed.

Lemma append_empty_r (s : string) : s +:+ EmptyString = s.
Proof. induction s; simpl; congruence. Qed.

Lemma append_assoc (a b c : string) : (a +:+ b) +:+ c = a +:+ b +:+ c.
Proof. induction a; simpl; congruence. Qed.

(** The loop, once an entry [n] has started: the lines that do not match
    continue it, the others start the entries of the specification. *)
Lemma docargs_loop_started (lines : list string) :
  forall (acc : OD.t string) (n v : string),
    Str.truthy n = true ->
    OD.get n acc = Some v ->
    docargs_loop lines acc (Some n)
    = Ok (fold_left (fun a e => OD.set (fst e) (snd e) a)
            (DocArgsSpec.entries lines)
            (OD.set n (v +:+ DocArgsSpec.continuation lines) acc)).
Proof.
  induction lines as [|line rest IH]; intros acc n v Hn Hget; simpl.
  - now rewrite append_empty_r, (od_set_get n v acc Hget).
  - destruct (match_pair line) as [[n' d]|] eqn:M.
    + rewrite (IH _ n' (Str.strip d) (match_pair_name _ _ _ M)
                 (od_get_set_same _ _ _)).
      simpl. now rewrite append_empty_r, (od_set_get n v acc Hget), od_set_set.
    + rewrite Hn, Hget.
      rewrite (IH _ n (v +:+ " " +:+ Str.strip line) Hn
                 (od_get_set_same _ _ _)).
      now rewrite od_set_set, !append_assoc.
Qed.

Lemma mapping_keys (es : list (string * string)) :
  forall acc : OD.t string,
    OD.keys (fold_left (fun a e => OD.set (fst e) (snd e) a) es acc)
    = OD.keys acc ++ DocArgsSpec.first_seen (OD.keys acc) (map fst es).
Proof.
  induction es as [|[k v] es IH]; intros acc; simpl.
  - now rewrite app_nil_r.
  - rewrite IH, od_keys_set.
    destruct (Str.mem k (OD.keys acc)); [reflexivity |].
    now rewrite <- app_assoc.
Qed.

Lemma mapping_get (k : string) (es : list (string * string)) :
  forall acc : OD.t string,
    OD.get k (fold_left (fun a e => OD.set (fst e) (snd e) a) es acc)
    = fold_left (fun r e => if String.eqb k (fst e) then Some (snd e) else r)
        es (OD.get k acc).
Proof.
  induction es as [|[k' v] es IH]; intros acc; simpl; [reflexivity |].
  rewrite IH. f_equal.
  destruct (String.eqb k k') eqn:E.
  - apply string_eqb_true in E. subst. apply od_get_set_same.
  - apply string_eqb_false in E. now apply od_get_set_other.
Qed.

Lemma stray_head (lines : list string) :
  (exists line, DocArgsSpec.stray lines line)
  <-> exists l rest, lines = l :: rest /\ match_pair l = None.
Proof.
  split.
  - intros (line & before & after & -> & M & B).
    destruct before as [|b before]; simpl; eauto.
    inversion B; subst. eauto.
  - intros (l & rest & -> & M). exists l, [], rest. simpl. auto.
Qed.

(** C8: the dictionary of [_parse_docargs] is the one of the entries of the
    block, each matching line starting one and the lines after it
    continuing its description with one space and the trimmed line; its
    keys stand in first-seen order and a name that comes again keeps the
    description started last; the call raises, with the [ValueError]
    "Expected name: value pair" on the first line, exactly when a line that
    does not match comes before any entry. *)
Theorem parse_docargs_entries (text : string) :
  let lines := Str.splitlines text in
  let es := DocArgsSpec.entries lines in
  ((exists e, _parse_docargs text = Raise e)
   <-> exists line, DocArgsSpec.stray lines line)
  /\ _parse_docargs text
     = match lines with
       | l :: _ =>
           match match_pair l with
           | Some _ => Ok (DocArgsSpec.mapping es)
           | None =>
               raise ValueError
                 ("Expected name: value pair; got '" +:+ l +:+ "'")
           end
       | [] => Ok (DocArgsSpec.mapping es)
       end
  /\ OD.keys (DocArgsSpec.mapping es) = DocArgsSpec.first_seen [] (map fst es)
  /\ forall k,
       OD.get k (DocArgsSpec.mapping es) = DocArgsSpec.last_description k es.
Proof.
  intros lines es.
  assert (E : _parse_docargs text
              = match lines with
                | l :: _ =>
                    match match_pair l with
                    | Some _ => Ok (DocArgsSpec.mapping es)
                    | None =>
                        raise ValueError
                          ("Expected name: value pair; got '" +:+ l +:+ "'")
                    end
                | [] => Ok (DocArgsSpec.mapping es)
                end).
  { unfold _parse_docargs, es, DocArgsSpec.mapping. fold lines.
    destruct lines as [|l rest]; [reflexivity |].
    cbn [docargs_loop DocArgsSpec.entries].
    destruct (match_pair l) as [[n d]|] eqn:M; [| reflexivity].
    rewrite (docargs_loop_started rest (OD.set n (Str.strip d) []) n
               (Str.strip d) (match_pair_name _ _ _ M)
               (od_get_set_same _ _ _)).
    now rewrite od_set_set. }
  repeat split.
  - intros [e He]. apply stray_head. rewrite E in He.
    destruct lines as [|l rest]; [discriminate |].
    destruct (match_pair l) eqn:M; [discriminate | eauto].
  - intros H. apply stray_head in H as (l & rest & Hl & M).
    rewrite E, Hl, M. unfold raise. eauto.
  - exact E.
  - apply (mapping_keys es []).
  - intros k. apply (mapping_get k es []).
Qed.

(** ** [parse_docstr] *)

Section DocStrFacts.

Context {rt : Runtime}.

Lemma takewhile_stops {A : Type} (p : A -> bool) (body : list A) (h : A)
    (rest : list A) :
  forallb p body = true -> p h = false ->
  takewhile p (body ++ h :: rest) = body.
Proof.
  intros Hb Hh. induction body as [|x body IH]; simpl in *.
  - now rewrite Hh.
  - apply andb_true_iff in Hb as [Hx Hb]. rewrite Hx. f_equal. auto.
Qed.

Lemma skipn_body {A : Type} (body tail : list A) :
  skipn (List.length body) (body ++ tail) = tail.
Proof. induction body; simpl; auto. Qed.

(** A section that is found open takes its body up to the first section
    break and leaves the break in front. *)
Lemma parse_section_opened (section : string) (body : list string)
    (h : string) (rest : list string) :
  section <> "summary" ->
  forallb test body = true -> test h = false ->
  parse_section section (opened section (body ++ h :: rest))
  = Ok (section_value body, h :: rest).
Proof.
  intros Hs Hb Hh. unfold parse_section, collect, opened.
  apply string_eqb_false in Hs. rewrite Hs.
  destruct (String.eqb section "description") eqn:Ed.
  - rewrite (takewhile_stops test body h rest Hb Hh). simpl.
    destruct body as [|b body]; simpl; [reflexivity |].
    now rewrite skipn_body.
  - rewrite String.eqb_refl, (takewhile_stops test body h rest Hb Hh). simpl.
    destruct body as [|b body]; simpl; [reflexivity |].
    now rewrite skipn_body.
Qed.

(** A section whose header is not the line in front finds nothing and
    leaves the lines as they are. *)
Lemma parse_section_closed (section h : string) (rest : list string) :
  section <> "summary" -> section <> "description" ->
  h <> header section ->
  parse_section section (h :: rest) = Ok (None, h :: rest).
Proof.
  intros Hs Hd Hh. unfold parse_section, collect.
  apply string_eqb_false in Hs, Hd, Hh. now rewrite Hs, Hd, Hh.
Qed.

Lemma parse_sections_closed (later : list string) (h : string)
    (rest : list string) :
  ~ In "summary" later -> ~ In "description" later ->
  ~ In h (map header later) ->
  parse_sections later (h :: rest)
  = Ok (map (fun s => (s, None)) later, h :: rest).
Proof.
  induction later as [|s later IH]; intros Hs Hd Hh; simpl in *;
    [reflexivity |].
  rewrite parse_section_closed by intuition congruence.
  simpl. rewrite IH by tauto. reflexivity.
Qed.

Lemma parse_sections_app (before later : list string) :
  forall lines : list string,
    parse_sections (before ++ later) lines
    = ('(s1, lines) <- parse_sections before lines ;;
       '(s2, lines) <- parse_sections later lines ;;
       Ok (s1 ++ s2, lines))%result.
Proof.
  induction before as [|s before IH]; intros lines; simpl.
  - destruct (parse_sections later lines) as [[s2 l2]| |]; reflexivity.
  - destruct (parse_section s lines) as [[v l1]| |]; simpl; try reflexivity.
    rewrite IH.
    destruct (parse_sections before l1) as [[s1 l2]| |]; simpl;
      try reflexivity.
    destruct (parse_sections later l2) as [[s2 l3]| |]; reflexivity.
Qed.

Lemma parse_sections_keys (todo : list string) :
  forall lines scratch left,
    parse_sections todo lines = Ok (scratch, left) ->
    map fst scratch = todo.
Proof.
  induction todo as [|s todo IH]; intros lines scratch left; simpl.
  - intros H. injection H as <- _. reflexivity.
  - destruct (parse_section s lines) as [[v l1]| |]; simpl; try discriminate.
    destruct (parse_sections todo l1) as [[s1 l2]| |] eqn:E; simpl;
      try discriminate.
    intros H. injection H as <- _. simpl. f_equal. eauto.
Qed.

End DocStrFacts.

(** A scratch dictionary whose keys are known is a list of as many
    entries. *)
Ltac known_keys H :=
  repeat match type of H with
         | map fst ?s = _ :: _ =>
             let k := fresh "k" in
             let v := fresh "v" in
             destruct s as [|[k v] s]; simpl in H; [discriminate |];
             injection H as -> H
         | map fst ?s = [] =>
             destruct s; simpl in H; [clear H | discriminate]
         end.

(** C4, the claim refuted: an [Args:] line under [Returns:] is no part of
    the body of [returns], which is ["foo"] alone; the claim has the body
    keep the line, as in the second text. *)
Lemma misordered_header_is_dropped :
  let text :=
    "Summary" +:+ Example.LF +:+ Example.LF
    +:+ "Returns:" +:+ Example.LF +:+ "    foo" +:+ Example.LF
    +:+ "Args:" +:+ Example.LF +:+ "    x: y" in
  parse_docstr (rt := Example.runtime) text
  = Ok (mkDocInfo (Some "Summary") (Some "") None (Some "foo") None None)
  /\ Some "foo"
     <> Some ("foo" +:+ Example.LF +:+ "Args:" +:+ Example.LF +:+ "x: y").
Proof. split; [vm_compute; reflexivity | discriminate]. Qed.

(** C4, as amended: when the loop of [parse_docstr] has a section open
    (its header in front, for the description nothing) and the body of
    that section is followed by a section break [h] that is not the header
    of a later section, the section gets the body up to [h] and no more,
    every later section is absent, and [h] with all the lines after it is
    left unread: a misordered header ends the section and starts none. *)
Theorem misordered_header_ends_section {rt : Runtime}
    (text : string) (before : list string) (section : string)
    (later : list string) (scratch : OD.t (option string))
    (body : list string) (h : string) (rest : list string) :
  sections = before ++ section :: later ->
  section <> "summary" ->
  parse_sections before (doc_lines text)
    = Ok (scratch, opened section (body ++ h :: rest)) ->
  forallb test body = true ->
  test h = false ->
  ~ In h (map header later) ->
  exists d,
    parse_docstr text = Ok d
    /\ DocInfo_get d section = section_value body
    /\ (forall s, In s later -> DocInfo_get d s = None)
    /\ parse_sections sections (doc_lines text)
       = Ok (scratch ++ (section, section_value body)
                        :: map (fun s => (s, None)) later,
             h :: rest).
Proof.
  intros Hsec Hs Hbefore Hb Hh Hlater.
  pose proof (parse_sections_keys _ _ _ _ Hbefore) as Hkeys.
  assert (Hclosed : ~ In "summary" later /\ ~ In "description" later).
  { unfold sections in Hsec.
    destruct before as [|b0 [|b1 [|b2 [|b3 [|b4 [|b5 before]]]]]];
      simpl in Hsec; injection Hsec; intros; subst;
      try congruence; simpl; try (intuition discriminate).
    destruct before; discriminate. }
  assert (Hrun : parse_sections sections (doc_lines text)
                 = Ok (scratch ++ (section, section_value body)
                                  :: map (fun s => (s, None)) later,
                       h :: rest)).
  { rewrite Hsec, parse_sections_app, Hbefore. simpl bind.
    cbn [parse_sections].
    rewrite (parse_section_opened section body h rest Hs Hb Hh). simpl bind.
    rewrite (parse_sections_closed later h rest) by tauto.
    reflexivity. }
  exists (DocInfo_of (scratch ++ (section, section_value body)
                              :: map (fun s => (s, None)) later)).
  split; [unfold parse_docstr; now rewrite Hrun |].
  split; [| split; [| exact Hrun]].
  - unfold sections in Hsec.
    destruct before as [|b0 [|b1 [|b2 [|b3 [|b4 [|b5 before]]]]]];
      simpl in Hsec; injection Hsec; intros; subst; try congruence;
      try (known_keys Hkeys; reflexivity).
    destruct before; discriminate.
  - intros s Hin. unfold sections in Hsec.
    destruct before as [|b0 [|b1 [|b2 [|b3 [|b4 [|b5 before]]]]]];
      simpl in Hsec; injection Hsec; intros; subst; try congruence;
      try (known_keys Hkeys; simpl in Hin;
           repeat (destruct Hin as [<- | Hin]; [reflexivity |]);
           contradiction).
    destruct before; discriminate.
Qed.

(** The amended C4 on the text of the counterexample: [returns] is open
    with ["foo"] for body when [Args:] comes. *)
Lemma misordered_header_ends_section_witness :
  let text :=
    "Summary" +:+ Example.LF +:+ Example.LF
    +:+ "Returns:" +:+ Example.LF +:+ "    foo" +:+ Example.LF
    +:+ "Args:" +:+ Example.LF +:+ "    x: y" in
  exists d,
    parse_docstr (rt := Example.runtime) text = Ok d
    /\ DocInfo_get d "returns" = section_value (rt := Example.runtime) ["foo"]
    /\ (forall s, In s ["yields"; "raises"] -> DocInfo_get d s = None)
    /\ parse_sections (rt := Example.runtime) sections
         (doc_lines text)
       = Ok ([("summary", Some "Summary"); ("description", Some "");
              ("args", None)]
             ++ ("returns", section_value (rt := Example.runtime) ["foo"])
                :: map (fun s => (s, None)) ["yields"; "raises"],
             "Args:" :: ["x: y"]).
Proof.
  intros text.
  apply (misordered_header_ends_section (rt := Example.runtime) text
           ["summary"; "description"; "args"] "returns" ["yields"; "raises"]
           [("summary", Some "Summary"); ("description", Some "");
            ("args", None)]
           ["foo"] "Args:" ["x: y"]).
  - reflexivity.
  - discriminate.
  - vm_compute. reflexivity.
  - reflexivity.
  - reflexivity.
  - simpl. intros [H | [H | []]]; discriminate H.
Defined.

(** ** Signatures *)

Lemma combine_fst_snd {A B : Type} (l : list (A * B)) :
  combine (map fst l) (map snd l) = l.
Proof. induction l as [|[a b] l IH]; simpl; congruence. Qed.

Lemma defaults_length (func : pyfunc) :
  List.length (match spec_defaults (getfullargspec func) with
               | Some d => d
               | None => []
               end)
  = List.length (fn_optional func).
Proof.
  unfold getfullargspec. simpl.
  destruct (fn_optional func); simpl; [reflexivity |].
  now rewrite length_map.
Qed.

Lemma split_point (func : pyfunc) :
  List.length (spec_args (getfullargspec func))
  - List.length (match spec_defaults (getfullargspec func) with
                 | Some d => d
                 | None => []
                 end)
  = List.length (fn_required func).
Proof.
  rewrite defaults_length. unfold getfullargspec. simpl.
  rewrite length_app, length_map. lia.
Qed.

(** The slices of [_config_parser] and [_getcallargs] recover the declared
    parameters. *)
Lemma required_of_spec (func : pyfunc) :
  required_of (getfullargspec func) = fn_required func.
Proof.
  unfold required_of. rewrite split_point. unfold getfullargspec. simpl.
  rewrite firstn_app, Nat.sub_diag, firstn_all. simpl. apply app_nil_r.
Qed.

Lemma optional_of_spec (func : pyfunc) :
  optional_of (getfullargspec func) = fn_optional func.
Proof.
  unfold optional_of. rewrite split_point. unfold getfullargspec. simpl.
  rewrite skipn_app, Nat.sub_diag, skipn_all. simpl.
  destruct (fn_optional func) as [|x l]; [reflexivity |].
  apply (combine_fst_snd (x :: l)).
Qed.

(** ** [_config_parser] *)

Lemma add_argument_appends (p p' : Argparse.ArgumentParser)
    (grp : option string) (name_or_flag : string) (kw : Argparse.add_kwargs) :
  Argparse.add_argument p grp name_or_flag kw = Ok p' ->
  exists a,
    Argparse.actions p' = Argparse.actions p ++ [a]
    /\ Argparse.type_ a = Argparse.kw_type kw
    /\ Argparse.act_nargs a = Argparse.kw_nargs kw
    /\ Argparse.choices a = Argparse.kw_choices kw
    /\ Argparse.default a
       = Some match Argparse.kw_default kw with Some d => d | None => VNone end
    /\ Argparse.option_strings a
       = match name_or_flag with
         | String c _ =>
             if Ascii.eqb c Argparse.dash then [name_or_flag] else []
         | EmptyString => []
         end.
Proof.
  unfold Argparse.add_argument.
  destruct name_or_flag as [|c0 rest]; [discriminate |].
  destruct (Ascii.eqb c0 Argparse.dash) eqn:E; cbn [negb].
  - destruct (Str.lstrip_by (Ascii.eqb Argparse.dash) (String c0 rest));
      [discriminate |].
    cbn [bind].
    match goal with |- context [if ?b then _ else _] => destruct b end;
      [discriminate |].
    intros H. injection H as <-. eexists. repeat split.
  - cbn [bind].
    match goal with |- context [if ?b then _ else _] => destruct b end;
      [discriminate |].
    intros H. injection H as <-. eexists. repeat split.
Qed.

Lemma add_required_keeps (grp : option string)
    (func_help : option (OD.t string)) (required : list string) :
  forall p p',
    add_required grp func_help p required = Ok p' ->
    incl (Argparse.actions p) (Argparse.actions p').
Proof.
  induction required as [|arg rest IH]; intros p p'; simpl.
  - intros H. injection H as <-. apply incl_refl.
  - destruct (String.eqb arg "self"); [apply IH |].
    destruct (Argparse.add_argument p grp arg _) as [p1| |] eqn:E; simpl;
      try discriminate.
    intros H. apply add_argument_appends in E as (a & Ea & _).
    apply IH in H. eapply incl_tran; [| exact H].
    rewrite Ea. apply incl_appl, incl_refl.
Qed.

(** Each optional parameter gets the action of its flag, with its default
    and the converter chosen from it. *)
Lemma add_optional_registers (grp : option string)
    (func_help : option (OD.t string)) (optional : list (string * pyval)) :
  forall p p',
    add_optional grp func_help p optional = Ok p' ->
    incl (Argparse.actions p) (Argparse.actions p')
    /\ forall name default,
         In (name, default) optional ->
         exists a,
           In a (Argparse.actions p')
           /\ Argparse.option_strings a = [argname name]
           /\ Argparse.type_ a = converter_of default
           /\ Argparse.default a = Some default.
Proof.
  induction optional as [|[n d] rest IH]; intros p p'; simpl.
  - intros H. injection H as <-. split; [apply incl_refl | contradiction].
  - destruct (Argparse.add_argument p grp (argname n) _) as [p1| |] eqn:E;
      simpl; try discriminate.
    intros H. apply add_argument_appends in E as (a & Ea & Et & _ & _ & Ed & Eo).
    apply IH in H as [Hincl Hrest]. split.
    + eapply incl_tran; [| exact Hincl]. rewrite Ea. apply incl_appl, incl_refl.
    + intros name default [Heq | Hin]; [| auto].
      injection Heq as -> ->. exists a. repeat split; auto.
      * apply Hincl. rewrite Ea. apply in_or_app. right. now left.
      * rewrite Eo. unfold argname.
        destruct (String.length name =? 1)%nat; reflexivity.
Qed.


(** ** [_getcallargs] *)

(** [name in optional] compares a string with tuples: it never holds. *)
Lemma name_never_in_optional (name : string) (optional : list (string * pyval)) :
  str_in_list name (map (fun nd => VTuple [VStr (fst nd); snd nd]) optional)
  = false.
Proof. induction optional as [|[n d] l IH]; simpl; auto. Qed.

Lemma collect_named_needs_all (kwargs : OD.t pyval)
    (optional : list (string * pyval)) (names : list string) :
  forall funcargs out,
    collect_named kwargs
      (map (fun nd => VTuple [VStr (fst nd); snd nd]) optional)
      names funcargs = Ok out ->
    forall name, In name names -> name <> "self" ->
                 OD.contains name kwargs = true.
Proof.
  induction names as [|n rest IH]; intros funcargs out H name Hin Hself.
  - contradiction.
  - simpl in H. destruct (String.eqb n "self") eqn:Es.
    + apply string_eqb_true in Es. destruct Hin as [-> | Hin];
        [contradiction | eauto].
    + destruct (OD.get n kwargs) as [v|] eqn:G.
      * destruct Hin as [<- | Hin]; [| eauto].
        unfold OD.contains. now rewrite G.
      * rewrite name_never_in_optional in H. discriminate.
Qed.

(** When [_getcallargs] returns, every declared parameter but [self] was
    in the mapping: no default is ever taken from the signature. *)
Lemma getcallargs_needs_all (func : pyfunc) (kwargs : OD.t pyval)
    (out : list pyval * OD.t pyval) :
  _getcallargs func kwargs = Ok out ->
  forall name,
    In name (fn_required func ++ map fst (fn_optional func)) ->
    name <> "self" -> OD.contains name kwargs = true.
Proof.
  unfold _getcallargs.
  destruct (OD.contains "func" kwargs); [discriminate |]. intros H.
  destruct (collect_named kwargs _ _ []) as [fa| |] eqn:E; try discriminate.
  intros name Hin Hself.
  exact (collect_named_needs_all _ _ _ _ _ E name Hin Hself).
Qed.

(** C1, the code at the failing input: for [def f(a, b=5)] and the mapping
    [{"a": 1}] the optional parameter [b] is absent, and [_getcallargs]
    raises "No value available for 'b'" where the claim has it append the
    declared default 5. *)
Theorem getcallargs_missing_optional_raises :
  let f := mkFunc ["a"] [("b", VInt 5)] None None false None
                  (fun _ w => (Ok VNone, w)) in
  _getcallargs f [("a", VInt 1)]
  = raise ValueError "No value available for 'b'"
  /\ _getcallargs f [("a", VInt 1); ("b", VInt 5)] = Ok ([VInt 1; VInt 5], []).
Proof. split; reflexivity. Qed.

(** ** [CLITool.execute] *)

(** C3, the claim refuted: a callable that raises [SystemExit], as
    [sys.exit(3)] does, is not caught by [except Exception]; [execute]
    raises it to its caller and returns no [Result]. *)
Lemma execute_lets_system_exit_through :
  let f := mkFunc [] [] None None false None
                  (fun _ w => (Raise (Exn SystemExit (Code 3)), w)) in
  let tool :=
    CLITool_init (rt := Example.runtime) f None None None false None in
  fst (execute tool [] [] Example.world0) = Raise (Exn SystemExit (Code 3))
  /\ is_Exception SystemExit = false.
Proof. split; reflexivity. Qed.

(** C3, as amended: called with keyword arguments of which none is named
    [self], [execute] returns [Result(0, v, None)] when the callable returns
    [v], and [Result(1, None, exc_info)] when the callable (or the binding
    of its arguments) raises an exception that derives from [Exception]; an
    exception outside [Exception] ([SystemExit], [KeyboardInterrupt],
    [GeneratorExit]) is raised to the caller.  A keyword named [self]
    collides with the receiver of [execute]: the call raises [TypeError] to
    its caller before the [try] statement is entered, and returns no
    [Result]. *)
Theorem execute_catches_Exception (self : CLITool) (args : list pyval)
    (kwargs : OD.t pyval) (w : world) :
  if OD.contains "self" kwargs then
    execute self args kwargs w = (Raise (Exn TypeError Unworded), w)
  else
    match fst (call (func self) args kwargs (log_start self w)) with
    | Ok v => fst (execute self args kwargs w) = Ok (mkResult (VInt 0) v None)
    | Raise e =>
        if is_Exception (exc_type e)
        then fst (execute self args kwargs w)
             = Ok (mkResult (VInt 1) VNone (Some (exc_type e, e, Traceback)))
        else fst (execute self args kwargs w) = Raise e
    | Unmodelled => fst (execute self args kwargs w) = Unmodelled
    end.
Proof.
  unfold execute. destruct (OD.contains "self" kwargs); [reflexivity |].
  destruct (call (func self) args kwargs (log_start self w)) as [[v|e|] w'];
    simpl; [reflexivity | | reflexivity].
  destruct (is_Exception (exc_type e)); reflexivity.
Qed.

(** ** [CLIToolbox.add_command] *)



(** ** [argparse] and the converters *)

(** The parse takes the converters through [convert] alone: two runtimes
    whose converters agree on every string parse alike. *)
Section ConvertersAgree.

Variables rt1 rt2 : Runtime.

Hypothesis agree :
  forall c s, Argparse.convert (rt := rt1) c s = Argparse.convert (rt := rt2) c s.

Lemma get_value_agree (a : Argparse.action) (s : string) :
  Argparse.get_value (rt := rt1) a s = Argparse.get_value (rt := rt2) a s.
Proof. unfold Argparse.get_value. now rewrite agree. Qed.

Lemma get_value_each_agree (a : Argparse.action) (l : list string) :
  Argparse.get_value_each (rt := rt1) a l
  = Argparse.get_value_each (rt := rt2) a l.
Proof.
  induction l as [|s l IH]; simpl; [reflexivity |].
  now rewrite get_value_agree, IH.
Qed.

Lemma get_values_agree (a : Argparse.action) (l : list string) :
  Argparse.get_values (rt := rt1) a l = Argparse.get_values (rt := rt2) a l.
Proof.
  unfold Argparse.get_values.
  destruct l as [|s [|s' l]]; destruct (Argparse.act_nargs a);
    destruct (Argparse.option_strings a);
    rewrite ?get_value_each_agree, ?get_value_agree; try reflexivity;
    destruct (Argparse.default_value a);
    rewrite ?get_value_agree; reflexivity.
Qed.

Lemma take_action_agree (p : Argparse.ArgumentParser) (i : nat)
    (a : Argparse.action) (l : list string) (st : Argparse.pstate) :
  Argparse.take_action (rt := rt1) p i a l st
  = Argparse.take_action (rt := rt2) p i a l st.
Proof. unfold Argparse.take_action. now rewrite get_values_agree. Qed.

Lemma take_positionals_agree (p : Argparse.ArgumentParser)
    (arg_strings : list string)
    (todo : list ((nat * Argparse.action) * nat)) :
  forall start st,
    Argparse.take_positionals (rt := rt1) p arg_strings todo start st
    = Argparse.take_positionals (rt := rt2) p arg_strings todo start st.
Proof.
  induction todo as [|[[i a] n] todo IH]; intros start st;
    cbn [Argparse.take_positionals]; [reflexivity |].
  rewrite take_action_agree.
  destruct (Argparse.take_action p i a _ st); cbn [bind]; auto.
Qed.

Lemma consume_positionals_agree p arg_strings pattern start st :
  Argparse.consume_positionals (rt := rt1) p arg_strings pattern start st
  = Argparse.consume_positionals (rt := rt2) p arg_strings pattern start st.
Proof.
  unfold Argparse.consume_positionals. now rewrite take_positionals_agree.
Qed.

Lemma consume_optional_agree p arg_strings pattern start st :
  Argparse.consume_optional (rt := rt1) p arg_strings pattern start st
  = Argparse.consume_optional (rt := rt2) p arg_strings pattern start st.
Proof.
  unfold Argparse.consume_optional.
  destruct (nth_error pattern start) as [[[[[i|] o] e]|]|]; try reflexivity.
  destruct (nth_error (Argparse.actions p) i) as [a|]; [| reflexivity].
  destruct e as [e|].
  - destruct (Argparse.match_nargs [Argparse.act_nargs a] 1)
      as [[|[|[|n]] [|m l]]|]; try reflexivity.
    now rewrite take_action_agree.
  - destruct (Argparse.match_nargs _ _) as [[|n [|m l]]|]; try reflexivity.
    now rewrite take_action_agree.
Qed.

Lemma main_loop_agree p arg_strings pattern (fuel : nat) :
  forall start st,
    Argparse.main_loop (rt := rt1) p arg_strings pattern fuel start st
    = Argparse.main_loop (rt := rt2) p arg_strings pattern fuel start st.
Proof.
  induction fuel as [|fuel IH]; intros start st; [reflexivity |].
  cbn [Argparse.main_loop].
  destruct (Argparse.next_option pattern start (S (List.length pattern)))
    as [next|]; [| reflexivity].
  assert (Hafter : forall st0 s0,
            ('(st1, s1) <-
               Argparse.consume_optional (rt := rt1) p arg_strings pattern s0 st0 ;;
             Argparse.main_loop (rt := rt1) p arg_strings pattern fuel s1 st1)%result
            = ('(st1, s1) <-
                 Argparse.consume_optional (rt := rt2) p arg_strings pattern s0 st0 ;;
               Argparse.main_loop (rt := rt2) p arg_strings pattern fuel s1 st1)%result).
  { intros st0 s0. rewrite consume_optional_agree.
    destruct (Argparse.consume_optional p arg_strings pattern s0 st0)
      as [[st1 s1]| |]; simpl; auto. }
  destruct (start =? next)%nat.
  - destruct (nth_error pattern start) as [[t|]|]; apply Hafter.
  - rewrite consume_positionals_agree.
    destruct (Argparse.consume_positionals p arg_strings pattern start st)
      as [[st1 e1]| |]; simpl; try reflexivity.
    destruct (start <? e1)%nat; [apply IH |].
    destruct (nth_error pattern e1) as [[t|]|]; apply Hafter.
Qed.

Lemma finish_agree (acts : list (nat * Argparse.action)) (seen : list nat) :
  forall ns,
    Argparse.finish (rt := rt1) acts seen ns
    = Argparse.finish (rt := rt2) acts seen ns.
Proof.
  induction acts as [|[i a] acts IH]; intros ns; simpl; [reflexivity |].
  destruct (existsb (Nat.eqb i) seen); [apply IH |].
  destruct (Argparse.required a); [reflexivity |].
  destruct (Argparse.default a) as [[]|]; try apply IH.
  destruct (Argparse.dest a) as [d|]; try apply IH.
  destruct (OD.get d ns) as [[]|]; try apply IH.
  destruct (String.eqb s s0); [| apply IH].
  rewrite get_value_agree.
  destruct (Argparse.get_value a s); simpl; auto.
Qed.

Lemma parse_known_args_agree p arg_strings :
  Argparse.parse_known_args (rt := rt1) p arg_strings
  = Argparse.parse_known_args (rt := rt2) p arg_strings.
Proof.
  unfold Argparse.parse_known_args.
  destruct (_ || _); [reflexivity |].
  destruct (Argparse.classify p arg_strings) as [pattern| |]; cbn [bind];
    try reflexivity.
  rewrite main_loop_agree.
  destruct (Argparse.main_loop p arg_strings pattern _ 0 _)
    as [[st s]| |]; cbn [bind]; try reflexivity.
  rewrite consume_positionals_agree.
  destruct (Argparse.consume_positionals p arg_strings pattern s st)
    as [[st1 s1]| |]; cbn [bind]; try reflexivity.
  now rewrite finish_agree.
Qed.

Lemma parse_args_agree p arg_strings :
  Argparse.parse_args (rt := rt1) p arg_strings
  = Argparse.parse_args (rt := rt2) p arg_strings.
Proof. unfold Argparse.parse_args. now rewrite parse_known_args_agree. Qed.

End ConvertersAgree.

(** ** [CLITool.__call__] on scenario A *)

Section ScenarioA.

Context {rt : Runtime}.

Hypothesis loads_E5 : json_loads Tests.E5 = Ok (VDict [("E", VInt 5)]).

Lemma scenario_A_parser (doc : option string)
    (body : OD.t pyval -> world -> result pyval * world) :
  let tool :=
    CLITool_init (Tests.with_signature_1 doc body) None None None false None in
  CLITool_parser tool = Ok (Tests.parser_A, set_parser tool Tests.parser_A).
Proof.
  destruct rt as [plat pint pfloat pdate ploads].
  destruct plat; vm_compute; reflexivity.
Qed.

Lemma scenario_A_namespace :
  Argparse.parse_args Tests.parser_A Tests.tokens_A = Ok Tests.params_A.
Proof.
  rewrite (parse_args_agree rt
             (answering rt Tests.E5 (VDict [("E", VInt 5)]))).
  - destruct rt as [plat pint pfloat pdate ploads]. vm_compute. reflexivity.
  - intros [[]|] s; try reflexivity. simpl.
    destruct (String.eqb s Tests.E5) eqn:E; [| reflexivity].
    apply string_eqb_true in E. subst s. exact loads_E5.
Qed.

Lemma scenario_A_callargs (doc : option string)
    (body : OD.t pyval -> world -> result pyval * world) :
  _getcallargs (Tests.with_signature_1 doc body) Tests.params_A
  = Ok ([VStr "A"; VStr "B"; VStr "C"; VStr "D"], [("E", VInt 5)])
  /\ _getcallargs config_logging Tests.params_A
     = Ok ([VNone; VNone; VInt 20], []).
Proof. split; reflexivity. Qed.

Lemma execute_ignores_parser (self : CLITool) (p : Argparse.ArgumentParser) :
  execute (set_parser self p) = execute self.
Proof. reflexivity. Qed.

(** C2: for every callable [f(param1, param2, *args, **kwargs)], on a
    runtime where [json.loads] reads [{"E": 5}] as that object, the tool
    invoked with ("A", "B", "C", "D", '--kwargs={"E": 5}') parses the
    tokens into the namespace of scenario A, rebuilds the call
    [f("A", "B", "C", "D", E=5)] and returns what [execute] makes of that
    call once logging is configured; for [_test1], which returns its
    parameters, that is Result(0, ("A", "B", ("C", "D"), {"E": 5}), None). *)
Theorem scenario_A_round_trip (doc : option string)
    (body : OD.t pyval -> world -> result pyval * world) (w : world) :
  let f := Tests.with_signature_1 doc body in
  let tool := CLITool_init f None None None false None in
  let w1 := snd (call config_logging [VNone; VNone; VInt 20] [] w) in
  (exists p,
     CLITool_parser tool = Ok (p, set_parser tool p)
     /\ Argparse.parse_args p Tests.tokens_A = Ok Tests.params_A)
  /\ _getcallargs f Tests.params_A
     = Ok ([VStr "A"; VStr "B"; VStr "C"; VStr "D"], [("E", VInt 5)])
  /\ fst (fst (CLITool_call tool Tests.tokens_A w))
     = fst (execute tool [VStr "A"; VStr "B"; VStr "C"; VStr "D"]
              [("E", VInt 5)] w1)
  /\ fst (fst (CLITool_call
                 (CLITool_init Tests._test1 None None None false None)
                 Tests.tokens_A w))
     = Ok (mkResult (VInt 0)
             (VTuple [VStr "A"; VStr "B"; VTuple [VStr "C"; VStr "D"];
                      VDict [("E", VInt 5)]])
             None).
Proof.
  intros f tool w1.
  assert (Hcall : forall doc' body',
            let tool' :=
              CLITool_init (Tests.with_signature_1 doc' body')
                None None None false None in
            fst (fst (CLITool_call tool' Tests.tokens_A w))
            = fst (execute tool' [VStr "A"; VStr "B"; VStr "C"; VStr "D"]
                     [("E", VInt 5)] w1)).
  { intros doc' body' tool'. unfold CLITool_call.
    change (match Tests.tokens_A with
            | [] => argv w
            | _ :: _ => Tests.tokens_A
            end) with Tests.tokens_A.
    pose proof (scenario_A_parser doc' body') as Hp. cbv zeta in Hp.
    fold tool' in Hp. rewrite Hp.
    change (logmngr (set_parser tool' Tests.parser_A)) with config_logging.
    change (func (set_parser tool' Tests.parser_A))
      with (Tests.with_signature_1 doc' body').
    rewrite scenario_A_namespace. cbn [bind].
    destruct (scenario_A_callargs doc' body') as [-> ->]. cbn [bind].
    rewrite execute_ignores_parser. subst w1.
    destruct (call config_logging [VNone; VNone; VInt 20] [] w)
      as [r w'] eqn:Ec.
    assert (r = Ok VNone) as ->.
    { revert Ec. unfold call. cbn. unfold config_logging_body.
      destruct (handlers (set_root_level NOTSET w)); intros H;
        injection H as <- _; reflexivity. }
    cbn [snd].
    destruct (execute tool' _ _ w') as [[res| |] w2]; reflexivity. }
  split; [exists Tests.parser_A; split;
          [apply scenario_A_parser | apply scenario_A_namespace] |].
  split; [apply scenario_A_callargs |].
  split; [apply Hcall |].
  unfold Tests._test1. rewrite Hcall. reflexivity.
Qed.

End ScenarioA.

(** C2 on the runtime of the examples, whose [json.loads] reads the text of
    the scenario, for [_test1] in the world of a fresh process. *)
Lemma scenario_A_round_trip_witness :
  json_loads (Runtime := Example.runtime) Tests.E5 = Ok (VDict [("E", VInt 5)])
  /\ fst (fst (CLITool_call (rt := Example.runtime)
                 (CLITool_init (rt := Example.runtime) Tests._test1 None None None false None)
                 Tests.tokens_A Example.world0))
     = Ok (mkResult (VInt 0)
             (VTuple [VStr "A"; VStr "B"; VTuple [VStr "C"; VStr "D"];
                      VDict [("E", VInt 5)]])
             None).
Proof.
  assert (H : json_loads (Runtime := Example.runtime) Tests.E5
              = Ok (VDict [("E", VInt 5)])) by (vm_compute; reflexivity).
  split; [exact H |].
  exact (proj2 (proj2 (proj2
           (scenario_A_round_trip (rt := Example.runtime) H None
              (fun _ w => (Ok VNone, w)) Example.world0)))).
Defined.

(** ** [CLIToolbox]: parser and dispatch *)

Section ToolboxFacts.

Context {rt : Runtime}.

Lemma parser_built (self : Toolbox.t) :
  Toolbox._parser self = None ->
  Toolbox.parser self
  = Ok (subcommand_parser (Toolbox.description self) (command_names self),
        Toolbox.mk (Toolbox.description self)
          (Some (subcommand_parser (Toolbox.description self)
                   (command_names self)))
          (Toolbox._commands self)).
Proof. unfold Toolbox.parser. intros ->. reflexivity. Qed.

Lemma parser_cached (self : Toolbox.t) (p : Argparse.ArgumentParser) :
  Toolbox._parser self = Some p -> Toolbox.parser self = Ok (p, self).
Proof. unfold Toolbox.parser. intros ->. reflexivity. Qed.

Lemma store_command_names (cmds : list Toolbox.entry) (sub : pyval)
    (c : command) :
  map Toolbox.entry_name (Toolbox.store_command cmds sub c)
  = map Toolbox.entry_name cmds.
Proof.
  induction cmds as [|e cmds IH]; simpl; [reflexivity |].
  destruct (str_eq_val (Toolbox.entry_name e) sub); simpl;
    [reflexivity | now rewrite IH].
Qed.

(** The dispatch changes neither the cached parser nor the names. *)
Lemma dispatch_keeps (self : Toolbox.t) (sub : pyval) (extra : list string)
    (w : world) :
  let self' := snd (fst (Toolbox.dispatch self sub extra w)) in
  Toolbox._parser self' = Toolbox._parser self
  /\ Toolbox.description self' = Toolbox.description self
  /\ command_names self' = command_names self.
Proof.
  unfold Toolbox.dispatch, command_names.
  destruct (negb (truthy sub)); [simpl; auto |].
  destruct (Toolbox.find_command (Toolbox._commands self) sub) as [c|];
    [| simpl; auto].
  destruct (Toolbox.invoke c _ w) as [[r c'] w'].
  destruct r; simpl; rewrite store_command_names; auto.
Qed.

Lemma in_sync_parser (self self' : Toolbox.t) (p : Argparse.ArgumentParser) :
  in_sync self ->
  Toolbox.parser self = Ok (p, self') ->
  p = subcommand_parser (Toolbox.description self) (command_names self)
  /\ Toolbox._parser self' = Some p
  /\ Toolbox.description self' = Toolbox.description self
  /\ Toolbox._commands self' = Toolbox._commands self.
Proof.
  intros Hs. destruct (Toolbox._parser self) as [q|] eqn:E.
  - rewrite (parser_cached self q E). intros H. injection H as <- <-.
    rewrite (Hs q E). rewrite <- (Hs q E). auto.
  - rewrite (parser_built self E). intros H. injection H as <- <-. auto.
Qed.

(** Every toolbox that a program reaches has its cached parser, if any, in
    step with its registry. *)
Lemma reachable_in_sync (self : Toolbox.t) : reachable self -> in_sync self.
Proof.
  induction 1 as [d | self func name d pd _ IH | self self' p _ IH Hp
                  | self args w _ IH].
  - intros p H. discriminate H.
  - unfold Toolbox.add_command.
    destruct (Str.contains_char " "%char name); [exact IH |].
    destruct (match pd, name_truthy d with
              | true, None => _
              | _, _ => _
              end) as [d'| |]; simpl; try exact IH.
    intros p H. discriminate H.
  - destruct (in_sync_parser self self' p IH Hp) as (-> & Hc & Hd & Hn).
    intros q Hq. rewrite Hc in Hq. injection Hq as <-.
    unfold command_names. now rewrite Hd, Hn.
  - unfold Toolbox.call.
    destruct (Toolbox.parser self) as [[p self1]| |] eqn:Hp; try exact IH.
    destruct (in_sync_parser self self1 p IH Hp) as (-> & Hc & Hd & Hn).
    assert (Hs1 : in_sync self1).
    { intros q Hq. rewrite Hc in Hq. injection Hq as <-.
      unfold command_names. now rewrite Hd, Hn. }
    destruct (Argparse.parse_known_args _ args) as [[this extra]| |];
      try exact Hs1.
    destruct (dispatch_keeps self1 (arg_of this "subcommand") extra w)
      as (Kp & Kd & Kn).
    intros q Hq. rewrite Kp in Hq. rewrite Kd, Kn. exact (Hs1 q Hq).
Qed.

End ToolboxFacts.

(** ** Plain tokens *)

Section PlainTokens.

Context {rt : Runtime}.

Lemma plain_is_value (p : Argparse.ArgumentParser) (token : string) :
  plain token = true -> Argparse.parse_optional p token = Ok None.
Proof.
  unfold plain, Argparse.parse_optional, Argparse.dash.
  destruct token as [|c t]; [reflexivity |].
  destruct (Ascii.eqb c "-"); [discriminate | reflexivity].
Qed.

Lemma classify_plain (p : Argparse.ArgumentParser) (tokens : list string) :
  forallb plain tokens = true ->
  Argparse.classify p tokens = Ok (map (fun _ => None) tokens).
Proof.
  induction tokens as [|t tokens IH]; simpl; [reflexivity |].
  intros H. apply andb_true_iff in H as [Ht Hrest].
  now rewrite (plain_is_value p t Ht), (IH Hrest).
Qed.

Lemma plain_not_special (tokens : list string) :
  forallb plain tokens = true ->
  existsb Argparse.from_file tokens || existsb (String.eqb "--") tokens
  = false.
Proof.
  induction tokens as [|t tokens IH]; [reflexivity |].
  cbn [forallb existsb].
  intros H. apply andb_true_iff in H as [Ht Hrest].
  apply IH in Hrest. apply orb_false_iff in Hrest as [-> ->].
  rewrite !orb_false_r.
  unfold plain in Ht. destruct t as [|c t]; [reflexivity |].
  apply andb_true_iff in Ht as [Hd Ha].
  apply negb_true_iff in Hd, Ha. cbn [Argparse.from_file]. rewrite Ha.
  cbn [String.eqb orb].
  destruct (Ascii.eqb "-" c) eqn:E; [| reflexivity].
  rewrite Ascii.eqb_sym in E. congruence.
Qed.

Lemma next_option_values (n : nat) (fuel : nat) :
  forall start,
    Argparse.next_option (repeat None n) start fuel = None.
Proof.
  induction fuel as [|fuel IH]; intros start; simpl; [reflexivity |].
  destruct (nth_error (repeat None n) start) as [[t|]|] eqn:E; auto.
  apply nth_error_In, repeat_spec in E. discriminate E.
Qed.

Lemma leading_values_repeat {T : Type} (n : nat) :
  Argparse.leading_values (repeat (@None T) n) = n.
Proof. induction n; simpl; congruence. Qed.

Lemma map_none_repeat {A T : Type} (l : list A) :
  map (fun _ => @None T) l = repeat None (List.length l).
Proof. induction l; simpl; congruence. Qed.

(** On plain tokens the parser of a toolbox takes the first one for the
    subcommand, when it is a registered name, and leaves the others. *)
Lemma parse_plain_subcommand (description : option string)
    (names : list string) (name : string) (extra : list string) :
  forallb plain (name :: extra) = true ->
  Argparse.parse_known_args (subcommand_parser description names)
    (name :: extra)
  = if Str.mem name names then Ok ([("subcommand", VStr name)], extra)
    else Argparse.exit 2.
Proof.
  intros Hp. unfold Argparse.parse_known_args.
  rewrite (plain_not_special _ Hp), (classify_plain _ _ Hp), map_none_repeat.
  cbn [bind]. cbn [Argparse.main_loop].
  rewrite next_option_values. cbn [bind].
  unfold Argparse.consume_positionals.
  cbn [subcommand_parser Argparse.actions Argparse.indexed_from filter
       Argparse.option_strings snd Argparse.positionals map
       Argparse.act_nargs List.length skipn].
  rewrite leading_values_repeat.
  assert (Htake :
            Argparse.take_action (subcommand_parser description names) 0
              (Argparse.mkAction Argparse.StoreAction [] (Some "subcommand")
                 Argparse.NargsOptional (Some VNone) None (Some names) false
                 None None)
              [name]
              (Argparse.mkState [("subcommand", VNone)] []
                 [(0, Argparse.mkAction Argparse.StoreAction []
                        (Some "subcommand") Argparse.NargsOptional
                        (Some VNone) None (Some names) false None None)] [])
            = if Str.mem name names
              then Ok (Argparse.mkState [("subcommand", VStr name)] [0]
                         [(0, Argparse.mkAction Argparse.StoreAction []
                                (Some "subcommand") Argparse.NargsOptional
                                (Some VNone) None (Some names) false None
                                None)] [])
              else Argparse.exit 2).
  { unfold Argparse.take_action, Argparse.get_values, Argparse.get_value,
      Argparse.check_value, Argparse.convert, val_in_strs.
    cbn [Argparse.act_nargs Argparse.option_strings Argparse.type_
         Argparse.choices bind].
    destruct (Str.mem name names); reflexivity. }
  change (Argparse.initial_namespace _ [])
    with [("subcommand", VNone)].
  change (Argparse.match_partial [Argparse.NargsOptional] 1
            (S (List.length extra))) with [1].
  cbn [combine Argparse.take_positionals Argparse.slice skipn firstn
       List.length].
  rewrite Htake.
  destruct (Str.mem name names); reflexivity.
Qed.

End PlainTokens.

(** ** [CLIToolbox.__call__] *)

Section Dispatch.

Context {rt : Runtime}.

Lemma parser_keeps_commands (self self' : Toolbox.t)
    (p : Argparse.ArgumentParser) :
  Toolbox.parser self = Ok (p, self') ->
  Toolbox._commands self' = Toolbox._commands self
  /\ Toolbox.description self' = Toolbox.description self
  /\ Toolbox._parser self' = Some p.
Proof.
  destruct (Toolbox._parser self) as [q|] eqn:E.
  - rewrite (parser_cached self q E). intros H. injection H as <- <-. auto.
  - rewrite (parser_built self E). intros H. injection H as <- <-. auto.
Qed.

(** The lookup of [__call__] stops at the first entry of the name. *)
Lemma find_command_first (before after : list Toolbox.entry) (f : command)
    (name : string) (d : option string) :
  (forall e, In e before -> Toolbox.entry_name e <> name) ->
  Toolbox.find_command (before ++ (f, name, d) :: after) (VStr name) = Some f
  /\ forall c,
       Toolbox.store_command (before ++ (f, name, d) :: after) (VStr name) c
       = before ++ (c, name, d) :: after.
Proof.
  induction before as [|e before IH]; intros H; simpl.
  - unfold Toolbox.entry_name. simpl. rewrite String.eqb_refl. auto.
  - assert (He : String.eqb (Toolbox.entry_name e) name = false).
    { apply string_eqb_false. apply H. now left. }
    rewrite He. destruct IH as [IH1 IH2]; [intros; apply H; now right |].
    split; [exact IH1 |]. intros c. now rewrite IH2.
Qed.

(** C9: when the parser of the toolbox reads [name] as the subcommand (a
    name that is not empty), [__call__] invokes the callable of the first
    entry registered under [name], with the tokens that are left or a lone
    ["-h"]; whatever is registered after it, under the same name or not,
    plays no part: it is neither looked up nor touched. *)
Theorem duplicate_name_dispatches_to_first (self self1 : Toolbox.t)
    (before after : list Toolbox.entry) (f : command) (name : string)
    (d : option string) (args extra : list string) (this : OD.t pyval)
    (p : Argparse.ArgumentParser) (w : world) :
  Toolbox._commands self = before ++ (f, name, d) :: after ->
  (forall e, In e before -> Toolbox.entry_name e <> name) ->
  Toolbox.parser self = Ok (p, self1) ->
  Argparse.parse_known_args p args = Ok (this, extra) ->
  arg_of this "subcommand" = VStr name ->
  name <> "" ->
  let run := Toolbox.invoke f (forwarded extra) w in
  Toolbox.find_command (Toolbox._commands self) (VStr name) = Some f
  /\ fst (fst (Toolbox.call self args w)) = dispatched (fst (fst run))
  /\ snd (Toolbox.call self args w) = snd run
  /\ Toolbox._commands (snd (fst (Toolbox.call self args w)))
     = before ++ (snd (fst run), name, d) :: after.
Proof.
  intros Hcmds Hfirst Hparser Hparse Hsub Hname run.
  destruct (find_command_first before after f name d Hfirst) as [Hfind Hstore].
  destruct (parser_keeps_commands _ _ _ Hparser) as (Hc1 & _ & _).
  split; [now rewrite Hcmds |].
  unfold Toolbox.call. rewrite Hparser, Hparse. unfold Toolbox.dispatch.
  rewrite Hsub. cbn [truthy].
  assert (Ht : Str.truthy name = true)
    by (destruct name; [contradiction | reflexivity]).
  rewrite Ht. cbn [negb]. rewrite Hc1, Hcmds, Hfind.
  fold (forwarded extra). subst run.
  destruct (Toolbox.invoke f (forwarded extra) w) as [[r c] w'].
  rewrite Hstore. destruct r; simpl; auto.
Qed.

End Dispatch.

(** C9 on a toolbox with two commands named ["add"]: the first answers. *)
Lemma duplicate_name_dispatches_to_first_witness :
  let c1 := FuncCommand None (fun _ w => (Ok (RetValue (VInt 1)), w)) in
  let c2 := FuncCommand None (fun _ w => (Ok (RetValue (VInt 2)), w)) in
  let self := Toolbox.mk None None [(c1, "add", None); (c2, "add", None)] in
  fst (fst (Toolbox.call (rt := Example.runtime) self ["add"; "1"; "2"]
              Example.world0))
  = Ok (mkResult (VInt 1) VNone None).
Proof.
  intros c1 c2 self.
  pose (p := subcommand_parser None ["add"; "add"]).
  exact (proj1 (proj2
    (duplicate_name_dispatches_to_first (rt := Example.runtime)
       self (Toolbox.mk None (Some p) [(c1, "add", None); (c2, "add", None)])
       [] [(c2, "add", None)] c1 "add" None ["add"; "1"; "2"] ["1"; "2"]
       [("subcommand", VStr "add")] p Example.world0
       eq_refl (fun e (H : In e []) => match H with end)
       eq_refl eq_refl eq_refl
       (fun H : "add" = "" => eq_ind "add"
          (fun s => match s with EmptyString => False | _ => True end)
          I "" H)))).
Defined.

(** ** The cached parser of a toolbox *)

Section CachedParser.

Context {rt : Runtime}.

Lemma add_command_result (self : Toolbox.t) (func : command) (name : string)
    (d : option string) (pd : bool) :
  fst (Toolbox.add_command self func name d pd) = Ok tt ->
  exists d',
    snd (Toolbox.add_command self func name d pd)
    = Toolbox.mk (Toolbox.description self) None
        (Toolbox._commands self ++ [(func, name, d')]).
Proof.
  unfold Toolbox.add_command.
  destruct (Str.contains_char " "%char name); [discriminate |].
  destruct (match pd, name_truthy d with
            | true, None => _
            | _, _ => _
            end) as [d'| |]; simpl; try discriminate.
  eauto.
Qed.

(** C10: a call of [add_command] that returns leaves no cached parser, and
    every toolbox that a program reaches keeps its cached parser, if any,
    equal to the one built from the commands registered now; so the parser
    that an access returns accepts exactly their names.  In particular,
    after an invocation and the registration of a command under a new
    plain name, the next access gives a parser whose choices end with that
    name, and the invocation of the name with plain tokens runs the
    command. *)
Theorem add_command_clears_cached_parser (self : Toolbox.t)
    (args0 : list string) (w0 : world) (func : command) (name : string)
    (d : option string) (pd : bool) :
  reachable self ->
  let self1 := snd (fst (Toolbox.call self args0 w0)) in
  let self2 := snd (Toolbox.add_command self1 func name d pd) in
  fst (Toolbox.add_command self1 func name d pd) = Ok tt ->
  Toolbox._parser self2 = None
  /\ (forall s p s',
        reachable s -> Toolbox.parser s = Ok (p, s') ->
        subcommand_choices p = Some (command_names s))
  /\ (exists p self3,
        Toolbox.parser self2 = Ok (p, self3)
        /\ subcommand_choices p = Some (command_names self1 ++ [name]))
  /\ (name <> "" -> ~ In name (command_names self1) ->
      forall extra w,
        forallb plain (name :: extra) = true ->
        fst (fst (Toolbox.call self2 (name :: extra) w))
        = dispatched (fst (fst (Toolbox.invoke func (forwarded extra) w)))).
Proof.
  intros Hreach self1 self2 Hok.
  destruct (add_command_result self1 func name d pd Hok) as [d' Hself2].
  fold self2 in Hself2. clearbody self2. clearbody self1.
  assert (Hnames : command_names self2 = command_names self1 ++ [name]).
  { unfold command_names. rewrite Hself2. simpl. now rewrite map_app. }
  assert (Hbuilt : Toolbox.parser self2
                   = Ok (subcommand_parser (Toolbox.description self2)
                           (command_names self2),
                         Toolbox.mk (Toolbox.description self2)
                           (Some (subcommand_parser
                                    (Toolbox.description self2)
                                    (command_names self2)))
                           (Toolbox._commands self2))).
  { apply parser_built. now rewrite Hself2. }
  split; [now rewrite Hself2 |].
  split.
  { intros s p s' Hs Hp.
    destruct (in_sync_parser s s' p (reachable_in_sync s Hs) Hp) as [-> _].
    reflexivity. }
  split.
  { eexists. eexists. split; [exact Hbuilt |]. now rewrite Hnames. }
  intros Hname Hnew extra w Hplain.
  unfold Toolbox.call. rewrite Hbuilt.
  rewrite (parse_plain_subcommand _ _ name extra Hplain).
  assert (Hmem : Str.mem name (command_names self2) = true).
  { rewrite Hnames. unfold Str.mem. rewrite existsb_app. simpl.
    now rewrite String.eqb_refl, orb_true_r. }
  rewrite Hmem. unfold Toolbox.dispatch.
  change (arg_of [("subcommand", VStr name)] "subcommand") with (VStr name).
  cbn [truthy Toolbox._commands].
  assert (Ht : Str.truthy name = true)
    by (destruct name; [contradiction | reflexivity]).
  rewrite Ht. cbn [negb].
  assert (Hfirst : forall e,
            In e (Toolbox._commands self1) -> Toolbox.entry_name e <> name).
  { intros e He Heq. apply Hnew. unfold command_names. rewrite <- Heq.
    now apply in_map. }
  destruct (find_command_first (Toolbox._commands self1) [] func name d'
              Hfirst) as [Hfind _].
  assert (Hc2 : Toolbox._commands self2
                = Toolbox._commands self1 ++ [(func, name, d')])
    by now rewrite Hself2.
  rewrite Hc2.
  match goal with
  | |- context [Toolbox.find_command ?l ?v] =>
      replace (Toolbox.find_command l v) with (Some func)
        by (symmetry; exact Hfind)
  end.
  fold (forwarded extra).
  destruct (Toolbox.invoke func (forwarded extra) w) as [[r c] w'].
  destruct r; reflexivity.
Qed.

End CachedParser.

(** C10 on a toolbox with ["add"]: after the invocation of ["add"], a
    command registered as ["sub"] answers to its name. *)
Lemma add_command_clears_cached_parser_witness :
  let c1 := FuncCommand None (fun _ w => (Ok (RetValue (VInt 1)), w)) in
  let c2 := FuncCommand None (fun _ w => (Ok (RetValue (VInt 2)), w)) in
  let self :=
    snd (Toolbox.add_command (rt := Example.runtime) (Toolbox.init None)
           c1 "add" None false) in
  let self1 :=
    snd (fst (Toolbox.call (rt := Example.runtime) self ["add"; "1"]
                Example.world0)) in
  let self2 :=
    snd (Toolbox.add_command (rt := Example.runtime) self1 c2 "sub" None false) in
  Toolbox._parser self1
  = Some (subcommand_parser None ["add"])
  /\ Toolbox._parser self2 = None
  /\ fst (fst (Toolbox.call (rt := Example.runtime) self2 ["sub"; "5"]
                 Example.world0))
     = Ok (mkResult (VInt 2) VNone None).
Proof.
  intros c1 c2 self self1 self2.
  assert (Hreach : reachable (rt := Example.runtime) self)
    by exact (reach_add_command (Toolbox.init None) c1 "add" None false
                (reach_init None)).
  pose proof (add_command_clears_cached_parser (rt := Example.runtime)
                self ["add"; "1"] Example.world0 c2 "sub" None false
                Hreach eq_refl) as (Hnone & _ & _ & Hrun).
  split; [reflexivity |]. split; [exact Hnone |].
  apply (Hrun ltac:(discriminate)
              ltac:(simpl; intros [H | []]; discriminate H)
              ["5"] Example.world0 eq_refl).
Defined.

(** * Further properties of the code *)

(** ** [config_logging] *)

Section LoggingOnce.

Context {rt : Runtime}.

Lemma config_logging_idle (env : OD.t pyval) (w : world) :
  handlers w <> [] ->
  config_logging_body env w = (Ok VNone, set_root_level NOTSET w).
Proof.
  intros Hw. unfold config_logging_body.
  cbn [set_root_level handlers].
  destruct (handlers w); [contradiction | reflexivity].
Qed.

Lemma attach_file_keeps (filename : pyval) (mode : string) (level : pyval)
    (w : world) :
  let out := attach_file filename mode level w in
  root_level (snd out) = root_level w
  /\ events (snd out) = events w
  /\ now (snd out) = now w
  /\ argv (snd out) = argv w
  /\ (handlers w <> [] -> handlers (snd out) <> []).
Proof.
  unfold attach_file. destruct (truthy filename); [| cbn; auto].
  destruct (file_handler filename mode); cbn; repeat split; auto.
  intros _ H. apply app_eq_nil in H as [_ H]. discriminate.
Qed.

(** [config_logging] attaches handlers once.  Whatever it is given and
    however it ends, it sets the level of the root logger to [NOTSET] and
    logs nothing.  A call that returns, returns [None] and leaves a
    handler on the root logger, and the call that follows it attaches
    nothing, checks no level and opens no file: it returns [None] with the
    logger as it was.  So does a call made after a message was logged,
    which gave the root logger the handler of [basicConfig].  On a root
    logger without handler, a level that the logging library rejects ends
    the call in its exception before a handler is attached. *)
Theorem config_logging_attaches_once (env env' : OD.t pyval) (w : world)
    (level : Z) (fmt : string) (fmt_args : list log_arg) :
  let first := config_logging_body env w in
  let w1 := snd first in
  let logged := log_call level fmt fmt_args w in
  root_level w1 = NOTSET
  /\ events w1 = events w
  /\ (forall v,
        fst first = Ok v ->
        v = VNone
        /\ handlers w1 <> []
        /\ config_logging_body env' w1 = (Ok VNone, w1))
  /\ config_logging_body env' logged
     = (Ok VNone, set_root_level NOTSET logged)
  /\ (handlers w = [] ->
      forall e,
        check_level (arg_of env "loglevel") = Raise e ->
        first = (Raise e, set_root_level NOTSET w)).
Proof.
  intros first w1 logged.
  assert (Hlogged : handlers logged <> []).
  { unfold logged, log_call.
    destruct (handlers w) eqn:E; cbn; rewrite ?E; discriminate. }
  assert (Hshape :
            root_level w1 = NOTSET
            /\ events w1 = events w
            /\ now w1 = now w /\ argv w1 = argv w
            /\ forall v, fst first = Ok v -> v = VNone /\ handlers w1 <> []).
  { subst w1 first. unfold config_logging_body.
    cbn [set_root_level handlers].
    destruct (handlers w) as [|h hs] eqn:Ew.
    - destruct (check_level (arg_of env "loglevel")) as [lv| |];
        [| cbn; (split; [| split; [| split; [| split]]]);
           try reflexivity; intros v Hv; discriminate Hv ..].
      set (w0 := add_handler (mkHandler StreamHandler stream_format lv)
                   (set_root_level NOTSET w)).
      assert (H0 : handlers w0 <> []).
      { unfold w0. cbn. intros H. apply app_eq_nil in H as [_ H].
        discriminate. }
      pose proof (attach_file_keeps (arg_of env "logfile") "a" lv w0)
        as (Ha1 & Ha2 & Ha3 & Ha4 & Ha5).
      destruct (attach_file (arg_of env "logfile") "a" lv w0)
        as [[u| |] wa]; cbn [fst snd] in *;
        [| rewrite Ha1, Ha2, Ha3, Ha4;
           (split; [| split; [| split; [| split]]]);
           try reflexivity; intros v Hv; discriminate Hv ..].
      pose proof (attach_file_keeps (arg_of env "logwrite") "w" lv wa)
        as (Hb1 & Hb2 & Hb3 & Hb4 & Hb5).
      destruct (attach_file (arg_of env "logwrite") "w" lv wa)
        as [[u'| |] wb]; cbn [fst snd] in *;
        rewrite Hb1, Hb2, Hb3, Hb4, Ha1, Ha2, Ha3, Ha4;
        (split; [| split; [| split; [| split]]]);
        try reflexivity; intros v Hv; try discriminate Hv.
      injection Hv as <-. auto.
    - cbn. rewrite Ew. (split; [| split; [| split; [| split]]]);
        try reflexivity.
      intros v Hv. injection Hv as <-. split; [reflexivity | discriminate]. }
  destruct Hshape as (Hlevel & Hevents & Hnow & Hargv & Hret).
  split; [exact Hlevel |]. split; [exact Hevents |].
  split; [| split; [apply config_logging_idle; exact Hlogged |]].
  - intros v Hv. destruct (Hret v Hv) as [-> Hh].
    split; [reflexivity |]. split; [exact Hh |].
    rewrite config_logging_idle by exact Hh.
    f_equal. unfold set_root_level. rewrite <- Hlevel.
    now destruct w1.
  - intros Hw e He. subst first. unfold config_logging_body.
    cbn [set_root_level handlers]. rewrite Hw, He. reflexivity.
Qed.

End LoggingOnce.

(** The last part at work: [config_logging(loglevel="LOUD")] on a root
    logger without handler raises the [ValueError] of [setLevel] and
    attaches nothing. *)
Example config_logging_unknown_level :
  config_logging_body (rt := Example.runtime)
    [("logfile", VNone); ("logwrite", VNone); ("loglevel", VStr "LOUD")]
    Example.world0
  = (Raise (Exn ValueError Unworded), set_root_level NOTSET Example.world0)
  /\ handlers Example.world0 = [].
Proof. split; reflexivity. Qed.

(** ** [parse_docstr]: blank text and the summary *)

Lemma splitlines_from_started (s cur : string) :
  cur <> EmptyString -> Str.splitlines_from cur s <> [].
Proof.
  revert cur. induction s as [|c s IH]; intros cur Hcur; simpl.
  - destruct cur; [contradiction | discriminate].
  - destruct (Ascii.eqb c Str.CR).
    + destruct s as [|c' s']; [discriminate |].
      destruct (Ascii.eqb c' Str.LF); discriminate.
    + destruct (Char.is_linebreak c); [discriminate |].
      apply IH. destruct cur; discriminate.
Qed.

Lemma splitlines_empty (s : string) :
  Str.splitlines s = [] <-> s = EmptyString.
Proof.
  split; [| intros ->; reflexivity].
  unfold Str.splitlines. destruct s as [|c s]; [reflexivity |]. simpl.
  destruct (Ascii.eqb c Str.CR).
  - destruct s as [|c' s']; [discriminate |].
    destruct (Ascii.eqb c' Str.LF); discriminate.
  - destruct (Char.is_linebreak c); [discriminate |].
    intros H. exfalso. revert H. apply splitlines_from_started. discriminate.
Qed.

Section DocStrTotal.

Context {rt : Runtime}.

Lemma parse_sections_after_summary (todo : list string) :
  ~ In "summary" todo ->
  forall lines, exists scratch left,
    parse_sections todo lines = Ok (scratch, left).
Proof.
  induction todo as [|s todo IH]; intros Hs lines; simpl.
  - eauto.
  - assert (Es : String.eqb s "summary" = false).
    { apply string_eqb_false. intros ->. apply Hs. now left. }
    assert (Hsec : exists v l1, parse_section s lines = Ok (v, l1)).
    { unfold parse_section, collect. rewrite Es.
      destruct (String.eqb s "description").
      - simpl. destruct (takewhile test lines); eauto.
      - destruct lines as [|l0 rest]; [simpl; eauto |].
        destruct (String.eqb l0 (header s)); simpl;
          [destruct (takewhile test rest) |]; eauto. }
    destruct Hsec as (v & l1 & ->). simpl.
    destruct (IH (fun H => Hs (or_intror H)) l1) as (scr & left & ->).
    simpl. eauto.
Qed.

(** [parse_docstr] raises [IndexError] on a text that is empty once
    stripped, and on no other: on any other text it returns a [DocInfo],
    whose summary is the first line when that line stands alone or is
    followed by an empty line, and is absent otherwise. *)
Theorem parse_docstr_summary (text : string) :
  (Str.strip text = EmptyString <-> doc_lines text = [])
  /\ match doc_lines text with
     | [] => parse_docstr text = raise IndexError "list index out of range"
     | l0 :: rest =>
         exists d,
           parse_docstr text = Ok d
           /\ summary d
              = match rest with
                | [] => Some (Str.strip l0)
                | l1 :: _ =>
                    if String.eqb l1 "" then Some (Str.strip l0) else None
                end
     end.
Proof.
  split.
  { unfold doc_lines. rewrite <- splitlines_empty.
    destruct (Str.splitlines (Str.strip text)); simpl; split;
      (reflexivity || discriminate). }
  unfold parse_docstr, sections.
  destruct (doc_lines text) as [|l0 rest]; [reflexivity |].
  set (later := ["description"; "args"; "returns"; "yields"; "raises"]).
  assert (Hrest : forall lines,
            exists scratch left,
              parse_sections later lines = Ok (scratch, left)).
  { apply parse_sections_after_summary. simpl. intuition discriminate. }
  clearbody later. cbn [parse_sections].
  unfold parse_section at 1. unfold collect at 1.
  cbn [String.eqb Ascii.eqb Bool.eqb].
  destruct rest as [|l1 rest'].
  - cbn [firstn bind skipn List.length Str.join].
    destruct (Hrest []) as (scr & left & ->). cbn [bind].
    eexists. split; reflexivity.
  - destruct (String.eqb l1 "").
    + cbn [firstn bind skipn List.length Str.join].
      destruct (Hrest (l1 :: rest')) as (scr & left & ->). cbn [bind].
      eexists. split; reflexivity.
    + cbn [bind].
      destruct (Hrest (l0 :: l1 :: rest')) as (scr & left & ->). cbn [bind].
      eexists. split; reflexivity.
Qed.

End DocStrTotal.

(** ** [_getcallargs] and the call it prepares *)

Lemma mem_false_not_in (x : string) (items : list string) :
  ~ In x items -> Str.mem x items = false.
Proof.
  intros H. unfold Str.mem. destruct (existsb _ _) eqn:E; [| reflexivity].
  apply existsb_exists in E. destruct E as (y & Hy & Exy).
  apply string_eqb_true in Exy. subst y. contradiction.
Qed.

Lemma collect_named_all (kwargs : OD.t pyval) (optional : list pyval)
    (names : list string) :
  (forall n, In n names -> n <> "self" /\ OD.contains n kwargs = true) ->
  forall funcargs,
    collect_named kwargs optional names funcargs
    = Ok (funcargs ++ map (value_of kwargs) names).
Proof.
  induction names as [|n rest IH]; intros H funcargs; simpl.
  - now rewrite app_nil_r.
  - destruct (H n (or_introl eq_refl)) as [Hself Hn].
    rewrite (proj2 (string_eqb_false _ _) Hself).
    unfold OD.contains in Hn. unfold value_of at 1.
    destruct (OD.get n kwargs) as [v|]; [| discriminate].
    rewrite IH by (intros m Hm; apply H; now right).
    now rewrite <- app_assoc.
Qed.

Lemma bind_positional_exact (f : string -> pyval) (names : list string)
    (items : list pyval) :
  bind_positional names (map f names ++ items)
  = (map (fun n => (n, f n)) names, items).
Proof.
  induction names as [|n rest IH]; simpl.
  - destruct items; reflexivity.
  - now rewrite IH.
Qed.

Lemma bind_keywords_extra (names : list string) (kws : OD.t pyval) :
  (forall k, In k (OD.keys kws) -> ~ In k names) ->
  forall env extra,
    bind_keywords names true kws env extra = Ok (env, extra ++ kws).
Proof.
  induction kws as [|[k v] rest IH]; intros H env extra; simpl.
  - now rewrite app_nil_r.
  - rewrite (mem_false_not_in k names) by (apply H; now left).
    rewrite IH by (intros k' Hk'; apply H; now right).
    now rewrite <- app_assoc.
Qed.

Lemma od_get_tabulated (f : string -> pyval) (n : string)
    (names : list string) :
  In n names -> OD.get n (map (fun m => (m, f m)) names) = Some (f n).
Proof.
  induction names as [|m rest IH]; intros Hin; [contradiction |]. simpl.
  destruct (String.eqb n m) eqn:E.
  - apply string_eqb_true in E. now subst m.
  - apply IH. destruct Hin as [-> | Hin]; [| exact Hin].
    rewrite String.eqb_refl in E. discriminate.
Qed.

Lemma bind_defaults_bound (f : string -> pyval) (defaults : OD.t pyval)
    (all names : list string) :
  (forall n, In n names -> In n all) ->
  bind_defaults names defaults (map (fun m => (m, f m)) all)
  = Ok (map (fun m => (m, f m)) names).
Proof.
  induction names as [|n rest IH]; intros H; simpl; [reflexivity |].
  rewrite od_get_tabulated by (apply H; now left). simpl.
  rewrite IH by (intros m Hm; apply H; now right). reflexivity.
Qed.

Lemma od_keys_update (d acc : OD.t pyval) (k : string) :
  In k (OD.keys (OD.update acc d)) -> In k (OD.keys acc) \/ In k (OD.keys d).
Proof.
  revert acc. unfold OD.update.
  induction d as [|[k' v] rest IH]; intros acc H; simpl in *; [now left |].
  apply IH in H. destruct H as [H | H]; [| now right; right].
  rewrite od_keys_set in H.
  destruct (Str.mem k' (OD.keys acc)).
  - now left.
  - apply in_app_or in H. destruct H as [H | [H | []]]; [now left |].
    right. now left.
Qed.

(** What [_getcallargs] returns can be passed on as
    [func( *args, **kwargs )]: for a mapping without the key [func], which
    the call of [_getcallargs] itself would reject, and a plain function
    whose declared
    parameters are all keys of the mapping, with a tuple or list under the
    var-positional name and a dict (or [None]) under the var-keyword name
    whose keys are no declared parameters, [_getcallargs] returns, and the
    call then binds every declared parameter to its value in the mapping,
    the var-positional parameter to the items of the sequence and the
    var-keyword parameter to the entries of the dict. *)
Theorem getcallargs_call_binds (func : pyfunc) (kwargs : OD.t pyval)
    (items : list pyval) (d : OD.t pyval) :
  let declared := fn_required func ++ map fst (fn_optional func) in
  OD.contains "func" kwargs = false ->
  fn_bound func = false ->
  (forall n, In n declared -> n <> "self" /\ OD.contains n kwargs = true) ->
  spread_items func kwargs = Some items ->
  spread_mapping func kwargs = Some d ->
  (forall k, In k (OD.keys d) -> ~ In k declared) ->
  exists args kws,
    _getcallargs func kwargs = Ok (args, kws)
    /\ args = map (value_of kwargs) declared ++ items
    /\ kws = OD.update [] d
    /\ bind_arguments func args kws
       = Ok (map (fun n => (n, value_of kwargs n)) declared
             ++ match fn_varargs func with
                | Some n => [(n, VTuple items)]
                | None => []
                end
             ++ match fn_varkw func with
                | Some n => [(n, VDict (OD.update [] d))]
                | None => []
                end).
Proof.
  intros declared Hfunc Hbound Hall Hitems Hd Hfree.
  exists (map (value_of kwargs) declared ++ items), (OD.update [] d).
  split; [| split; [reflexivity | split; [reflexivity |]]].
  - unfold _getcallargs. rewrite Hfunc.
    cbn [getfullargspec spec_args spec_varargs spec_varkw].
    fold declared. rewrite collect_named_all by exact Hall.
    cbn [bind app].
    unfold spread_items in Hitems. unfold spread_mapping in Hd.
    destruct (name_truthy (fn_varargs func)) as [va|].
    + destruct (OD.get va kwargs) as [[]|]; try discriminate;
        injection Hitems as <-; cbn [bind]; rewrite ?app_nil_r;
        (destruct (name_truthy (fn_varkw func)) as [kw|];
         [destruct (OD.get kw kwargs) as [[]|]; try discriminate;
          injection Hd as <-; reflexivity
         | injection Hd as <-; reflexivity]).
    + injection Hitems as <-. cbn [bind]. rewrite ?app_nil_r.
      destruct (name_truthy (fn_varkw func)) as [kw|];
        [destruct (OD.get kw kwargs) as [[]|]; try discriminate;
         injection Hd as <-; reflexivity
        | injection Hd as <-; reflexivity].
  - unfold bind_arguments. rewrite Hbound. fold declared.
    rewrite bind_positional_exact.
    assert (Hextra : match items, fn_varargs func with
                     | _ :: _, None => @binding_error unit
                     | _, _ => Ok tt
                     end = Ok tt).
    { destruct items; [reflexivity |].
      destruct (fn_varargs func) eqn:E; [reflexivity |].
      unfold spread_items in Hitems. rewrite E in Hitems. discriminate. }
    rewrite Hextra. cbn [bind].
    assert (Hkw : bind_keywords declared
                    (match fn_varkw func with
                     | Some _ => true | None => false end)
                    (OD.update [] d)
                    (map (fun n => (n, value_of kwargs n)) declared) []
                  = Ok (map (fun n => (n, value_of kwargs n)) declared,
                        OD.update [] d)).
    { destruct (fn_varkw func) eqn:E.
      - rewrite bind_keywords_extra; [reflexivity |].
        intros k Hk. apply od_keys_update in Hk.
        destruct Hk as [[] | Hk]. now apply Hfree.
      - unfold spread_mapping in Hd. rewrite E in Hd.
        injection Hd as <-. reflexivity. }
    rewrite Hkw. cbn [bind].
    rewrite bind_defaults_bound by auto. reflexivity.
Qed.

(** The theorem at [def f(a, *rest, **opts)] and the mapping
    [{"a": "x", "rest": [1, 2], "opts": {"k": 3}}]. *)
Lemma getcallargs_call_binds_witness :
  let f := mkFunc ["a"] [] (Some "rest") (Some "opts") false None
                  (fun _ w => (Ok VNone, w)) in
  let kwargs := [("a", VStr "x"); ("rest", VList [VInt 1; VInt 2]);
                 ("opts", VDict [("k", VInt 3)])] in
  exists args kws,
    _getcallargs f kwargs = Ok (args, kws)
    /\ args = [VStr "x"; VInt 1; VInt 2]
    /\ kws = [("k", VInt 3)]
    /\ bind_arguments f args kws
       = Ok [("a", VStr "x"); ("rest", VTuple [VInt 1; VInt 2]);
             ("opts", VDict [("k", VInt 3)])].
Proof.
  intros f kwargs.
  apply (getcallargs_call_binds f kwargs [VInt 1; VInt 2] [("k", VInt 3)]).
  - reflexivity.
  - reflexivity.
  - simpl. intros n [<- | []]. split; [discriminate | reflexivity].
  - reflexivity.
  - reflexivity.
  - simpl. intros k [<- | []] [H | []]. discriminate.
Defined.

Lemma collect_named_skips (kwargs : OD.t pyval) (optional : list pyval)
    (before rest : list string) :
  (forall n, In n before -> n = "self" \/ OD.contains n kwargs = true) ->
  forall funcargs, exists funcargs',
    collect_named kwargs optional (before ++ rest) funcargs
    = collect_named kwargs optional rest funcargs'.
Proof.
  induction before as [|n before IH]; intros H funcargs; simpl.
  - eauto.
  - assert (Hrest : forall m, In m before ->
                      m = "self" \/ OD.contains m kwargs = true)
      by (intros m Hm; apply H; now right).
    destruct (String.eqb n "self") eqn:Es; [now apply IH |].
    destruct (H n (or_introl eq_refl)) as [-> | Hn]; [discriminate |].
    unfold OD.contains in Hn.
    destruct (OD.get n kwargs); [now apply IH | discriminate].
Qed.

(** A declared parameter that is no key of the mapping makes
    [_getcallargs] raise [ValueError] naming it (the first such one), whether
    or not the signature gives it a default, and whatever is stored under
    the var-positional and var-keyword names.  A mapping with the key
    [func] does not get that far: the call [_getcallargs(func, **kwargs)]
    raises the [TypeError] of a parameter given twice. *)
Theorem getcallargs_first_missing (func : pyfunc) (kwargs : OD.t pyval)
    (before after : list string) (name : string) :
  fn_required func ++ map fst (fn_optional func) = before ++ name :: after ->
  (forall n, In n before -> n = "self" \/ OD.contains n kwargs = true) ->
  name <> "self" ->
  OD.contains name kwargs = false ->
  _getcallargs func kwargs
  = if OD.contains "func" kwargs
    then Raise (Exn TypeError Unworded)
    else raise ValueError ("No value available for '" +:+ name +:+ "'").
Proof.
  intros Hnames Hbefore Hself Hmissing.
  unfold _getcallargs.
  destruct (OD.contains "func" kwargs); [reflexivity |].
  cbn [getfullargspec spec_args]. rewrite Hnames.
  destruct (collect_named_skips kwargs
              (map (fun nd => VTuple [VStr (fst nd); snd nd])
                   (optional_of (getfullargspec func)))
              before (name :: after) Hbefore []) as (acc & Hskip).
  cbn [getfullargspec] in Hskip. rewrite Hskip.
  cbn [collect_named]. rewrite (proj2 (string_eqb_false _ _) Hself).
  unfold OD.contains in Hmissing.
  destruct (OD.get name kwargs); [discriminate |].
  rewrite name_never_in_optional. reflexivity.
Qed.

(** The theorem at [def f(self, a, b=5)] and the mapping [{"a": 1}]. *)
Lemma getcallargs_first_missing_witness :
  _getcallargs
    (mkFunc ["self"; "a"] [("b", VInt 5)] None None false None
            (fun _ w => (Ok VNone, w)))
    [("a", VInt 1)]
  = raise ValueError "No value available for 'b'".
Proof.
  assert (Hbefore : forall n, In n ["self"; "a"] ->
                      n = "self" \/ OD.contains n [("a", VInt 1)] = true)
    by (simpl; intros n [<- | [<- | []]]; [now left | now right]).
  assert (Hself : "b" <> "self") by discriminate.
  exact (getcallargs_first_missing
           (mkFunc ["self"; "a"] [("b", VInt 5)] None None false None
                   (fun _ w => (Ok VNone, w)))
           [("a", VInt 1)] ["self"; "a"] [] "b" eq_refl Hbefore Hself
           eq_refl).
Defined.

(** ** [CLIToolbox.__call__] on plain tokens *)

Section ToolboxCalls.

Context {rt : Runtime}.





End ToolboxCalls.



(** ** Option strings that are taken *)

Lemma od_contains_app {V : Type} (k : string) (d d' : OD.t V) :
  OD.contains k (d ++ d') = OD.contains k d || OD.contains k d'.
Proof.
  unfold OD.contains. induction d as [|[k0 v0] d IH]; simpl; [reflexivity |].
  destruct (String.eqb k k0); [reflexivity | exact IH].
Qed.

Lemma od_contains_tagged (o : string) (i : nat) (os : list string) :
  OD.contains o (map (fun o' => (o', i)) os) = Str.mem o os.
Proof.
  unfold OD.contains, Str.mem. induction os as [|o' os IH]; simpl;
    [reflexivity |].
  destruct (String.eqb o o'); [reflexivity | exact IH].
Qed.

(** The option strings of a parser are those of its actions. *)
Lemma option_table_contains (o : string) (acts : list Argparse.action) :
  forall i,
    OD.contains o (Argparse.option_table_from i acts)
    = existsb (fun a => Str.mem o (Argparse.option_strings a)) acts.
Proof.
  induction acts as [|a acts IH]; intros i; simpl; [reflexivity |].
  now rewrite od_contains_app, od_contains_tagged, IH.
Qed.

Lemma option_taken (p : Argparse.ArgumentParser) (a : Argparse.action)
    (o : string) :
  In a (Argparse.actions p) ->
  Argparse.option_strings a = [o] ->
  OD.contains o (Argparse.option_table p) = true.
Proof.
  intros Hin Ho. unfold Argparse.option_table.
  rewrite option_table_contains. apply existsb_exists. exists a.
  split; [exact Hin |]. rewrite Ho. unfold Str.mem. simpl.
  now rewrite String.eqb_refl.
Qed.

Lemma option_stays_taken (p p' : Argparse.ArgumentParser) (o : string) :
  incl (Argparse.actions p) (Argparse.actions p') ->
  OD.contains o (Argparse.option_table p) = true ->
  OD.contains o (Argparse.option_table p') = true.
Proof.
  unfold Argparse.option_table. rewrite !option_table_contains.
  intros Hincl H. apply existsb_exists in H as (a & Hin & Ha).
  apply existsb_exists. exists a. auto.
Qed.

(** A flag that is taken cannot be added again. *)
Lemma add_argument_taken (p : Argparse.ArgumentParser) (grp : option string)
    (name : string) (kw : Argparse.add_kwargs) :
  OD.contains (argname name) (Argparse.option_table p) = true ->
  exists e, Argparse.add_argument p grp (argname name) kw = Raise e.
Proof.
  intros H. unfold Argparse.add_argument.
  assert (Hflag : exists rest, argname name = String Argparse.dash rest).
  { unfold argname. destruct (String.length name =? 1)%nat; simpl; eauto. }
  destruct Hflag as (rest & Hflag). rewrite Hflag in *.
  unfold Argparse.dash at 1. rewrite Ascii.eqb_refl. cbn [negb].
  destruct (Str.lstrip_by _ _); [simpl; eauto |].
  cbn [bind Argparse.option_strings existsb]. rewrite H.
  cbn [orb]. unfold raise. eauto.
Qed.

Lemma add_argument_keeps (p p' : Argparse.ArgumentParser)
    (grp : option string) (name_or_flag : string) (kw : Argparse.add_kwargs) :
  Argparse.add_argument p grp name_or_flag kw = Ok p' ->
  incl (Argparse.actions p) (Argparse.actions p').
Proof.
  intros H. apply add_argument_appends in H as (a & -> & _).
  apply incl_appl, incl_refl.
Qed.

Lemma add_argument_modelled (p : Argparse.ArgumentParser)
    (grp : option string) (name_or_flag : string) (kw : Argparse.add_kwargs) :
  Argparse.add_argument p grp name_or_flag kw <> Unmodelled.
Proof.
  unfold Argparse.add_argument.
  destruct name_or_flag as [|c0 rest]; [discriminate |].
  destruct (negb (Ascii.eqb c0 Argparse.dash)); cbn [bind].
  - match goal with |- context [if ?b then _ else _] => destruct b end;
      discriminate.
  - destruct (Str.lstrip_by _ _); [discriminate |]. cbn [bind].
    match goal with |- context [if ?b then _ else _] => destruct b end;
      discriminate.
Qed.

Section TakenFlags.

Variable grp : option string.
Variable func_help : option (OD.t string).

Lemma add_required_modelled (required : list string) :
  forall p, add_required grp func_help p required <> Unmodelled.
Proof.
  induction required as [|arg rest IH]; intros p; simpl; [discriminate |].
  destruct (String.eqb arg "self"); [apply IH |].
  destruct (Argparse.add_argument p grp arg _) as [p1| |] eqn:E; simpl;
    [apply IH | discriminate |].
  now apply add_argument_modelled in E.
Qed.

Lemma add_optional_modelled (optional : list (string * pyval)) :
  forall p, add_optional grp func_help p optional <> Unmodelled.
Proof.
  induction optional as [|[n d] rest IH]; intros p; simpl; [discriminate |].
  destruct (Argparse.add_argument p grp (argname n) _) as [p1| |] eqn:E;
    simpl; [apply IH | discriminate |].
  now apply add_argument_modelled in E.
Qed.

(** An optional parameter whose flag is taken stops the registration. *)
Lemma add_optional_taken (optional : list (string * pyval)) (name : string)
    (default : pyval) :
  In (name, default) optional ->
  forall p,
    OD.contains (argname name) (Argparse.option_table p) = true ->
    exists e, add_optional grp func_help p optional = Raise e.
Proof.
  induction optional as [|[n d] rest IH]; intros Hin p Hp; [contradiction |].
  simpl.
  destruct (Argparse.add_argument p grp (argname n) _) as [p1| |] eqn:E;
    simpl; [| eauto | now apply add_argument_modelled in E].
  destruct Hin as [Heq | Hin].
  - injection Heq as -> ->.
    destruct (add_argument_taken p grp name
                (Argparse.mkKwargs (Some default) (help_for func_help name)
                   (converter_of default) Argparse.NargsNone None) Hp)
      as (e & He).
    congruence.
  - apply (IH Hin). eapply option_stays_taken; [| exact Hp].
    eapply add_argument_keeps. exact E.
Qed.

Lemma config_parser_modelled (p : Argparse.ArgumentParser) (f : pyfunc) :
  config_parser_body grp func_help p f <> Unmodelled.
Proof.
  unfold config_parser_body.
  destruct (add_required grp func_help p _) as [p1| |] eqn:E1; cbn [bind];
    [| discriminate | now apply add_required_modelled in E1].
  destruct (add_optional grp func_help p1 _) as [p2| |] eqn:E2; cbn [bind];
    [| discriminate | now apply add_optional_modelled in E2].
  destruct (name_truthy (spec_varargs (getfullargspec f))) as [va|].
  - destruct (Argparse.add_argument p2 grp va _) as [p3| |] eqn:E3; cbn [bind];
      [| discriminate | now apply add_argument_modelled in E3].
    destruct (name_truthy (spec_varkw (getfullargspec f)));
      [apply add_argument_modelled | discriminate].
  - cbn [bind]. destruct (name_truthy (spec_varkw (getfullargspec f)));
      [apply add_argument_modelled | discriminate].
Qed.

(** What [_config_parser] registers stays, and each optional parameter
    has its flag in the parser that is returned. *)
Lemma config_parser_registers (p p' : Argparse.ArgumentParser) (f : pyfunc) :
  config_parser_body grp func_help p f = Ok p' ->
  incl (Argparse.actions p) (Argparse.actions p')
  /\ forall name default,
       In (name, default) (fn_optional f) ->
       OD.contains (argname name) (Argparse.option_table p') = true.
Proof.
  unfold config_parser_body. rewrite optional_of_spec.
  destruct (add_required grp func_help p _) as [p1| |] eqn:E1; cbn [bind];
    try discriminate.
  destruct (add_optional grp func_help p1 _) as [p2| |] eqn:E2; cbn [bind];
    try discriminate.
  apply add_required_keeps in E1.
  apply add_optional_registers in E2 as [E2 Hreg].
  assert (Hend : forall p3,
            incl (Argparse.actions p2) (Argparse.actions p3) ->
            incl (Argparse.actions p) (Argparse.actions p3)
            /\ forall name default,
                 In (name, default) (fn_optional f) ->
                 OD.contains (argname name) (Argparse.option_table p3) = true).
  { intros p3 H3. split.
    - eapply incl_tran; [exact E1 |]. eapply incl_tran; [exact E2 | exact H3].
    - intros name default Hin.
      destruct (Hreg name default Hin) as (a & Ha & Ho & _).
      eapply option_taken; [apply H3; exact Ha | exact Ho]. }
  destruct (name_truthy (spec_varargs (getfullargspec f))) as [va|].
  - destruct (Argparse.add_argument p2 grp va _) as [p3| |] eqn:E3; cbn [bind];
      try discriminate.
    apply add_argument_keeps in E3.
    destruct (name_truthy (spec_varkw (getfullargspec f))) as [kw|].
    + intros E4. apply add_argument_keeps in E4. apply Hend.
      eapply incl_tran; eauto.
    + intros H. injection H as <-. now apply Hend.
  - cbn [bind]. destruct (name_truthy (spec_varkw (getfullargspec f))) as [kw|].
    + intros E4. apply add_argument_keeps in E4. now apply Hend.
    + intros H. injection H as <-. apply Hend, incl_refl.
Qed.

End TakenFlags.

Lemma docargs_loop_modelled (lines : list string) :
  forall acc name, docargs_loop lines acc name <> Unmodelled.
Proof.
  induction lines as [|line rest IH]; intros acc name; simpl;
    [discriminate |].
  destruct (match_pair line) as [[n d]|]; [apply IH |].
  destruct name as [n|]; [| discriminate].
  destruct (Str.truthy n); [| discriminate].
  destruct (OD.get n acc); [apply IH | discriminate].
Qed.

Section ReservedNames.

Context {rt : Runtime}.

Lemma parse_docstr_modelled (text : string) : parse_docstr text <> Unmodelled.
Proof.
  unfold parse_docstr, sections.
  set (later := ["description"; "args"; "returns"; "yields"; "raises"]).
  assert (Hrest : forall lines,
            exists scratch left,
              parse_sections later lines = Ok (scratch, left)).
  { apply parse_sections_after_summary. simpl. intuition discriminate. }
  clearbody later. cbn [parse_sections].
  unfold parse_section at 1. unfold collect at 1.
  cbn [String.eqb Ascii.eqb Bool.eqb].
  destruct (doc_lines text) as [|l0 [|l1 rest]]; [discriminate | |].
  - cbn [firstn bind skipn List.length Str.join].
    destruct (Hrest []) as (scr & left & ->). discriminate.
  - destruct (String.eqb l1 "").
    + cbn [firstn bind skipn List.length Str.join].
      destruct (Hrest (l1 :: rest)) as (scr & left & ->). discriminate.
    + cbn [bind].
      destruct (Hrest (l0 :: l1 :: rest)) as (scr & left & ->). discriminate.
Qed.

Lemma config_parser_taken (grp : option string)
    (func_help : option (OD.t string)) (p : Argparse.ArgumentParser)
    (f : pyfunc) (name : string) (default : pyval) :
  In (name, default) (fn_optional f) ->
  OD.contains (argname name) (Argparse.option_table p) = true ->
  exists e, _config_parser p f func_help grp = Raise e.
Proof.
  intros Hin Hp. unfold _config_parser, config_parser_body.
  rewrite optional_of_spec.
  destruct (add_required grp func_help p _) as [p1| |] eqn:E1; cbn [bind];
    [| eauto | now apply add_required_modelled in E1].
  apply add_required_keeps in E1.
  destruct (add_optional_taken grp func_help _ _ _ Hin p1
              (option_stays_taken _ _ _ E1 Hp)) as (e & ->).
  cbn [bind]. eauto.
Qed.

(** The parser of a tool, once the label, the description and the help of
    the parameters are known. *)
Lemma reserved_name_stops (self : CLITool) (name : string) (default : pyval)
    (label_ description_ : option string)
    (func_help_ : option (OD.t string)) :
  logmngr self = config_logging ->
  In (name, default) (fn_optional (func self)) ->
  In name ["h"; "help"; "logfile"; "logwrite"; "loglevel"] ->
  exists e,
    (parser <- _config_parser (Argparse.new label_ description_ true)
                 (func self) func_help_ None ;;
     parsed <- parse_doc_of (fn_doc (logmngr self)) ;;
     func_help' <- docargs_of parsed ;;
     parser <- _config_parser parser (logmngr self) func_help'
                 (Some "logging arguments") ;;
     Ok (parser, set_parser self parser))%result
    = Raise e.
Proof.
  intros Hlog Hopt Hname.
  assert (Hcases : In name ["h"; "help"]
                   \/ exists d, In (name, d) (fn_optional config_logging)).
  { simpl in Hname. simpl.
    destruct Hname as [<- | [<- | [<- | [<- | [<- | []]]]]]; eauto 8. }
  destruct Hcases as [Hhelp | (d & Hd)].
  - assert (Htaken : OD.contains (argname name)
                       (Argparse.option_table
                          (Argparse.new label_ description_ true)) = true)
      by (destruct Hhelp as [<- | [<- | []]]; reflexivity).
    destruct (config_parser_taken None func_help_ _ _ _ _ Hopt Htaken)
      as (e & ->).
    cbn [bind]. eauto.
  - destruct (_config_parser (Argparse.new label_ description_ true)
                (func self) func_help_ None) as [p1| |] eqn:E1; cbn [bind];
      [| eauto | now apply config_parser_modelled in E1].
    apply config_parser_registers in E1 as [_ Hreg].
    rewrite Hlog.
    destruct (parse_doc_of (fn_doc config_logging)) as [parsed| |] eqn:E2;
      cbn [bind]; [| eauto | now apply parse_docstr_modelled in E2].
    destruct (docargs_of parsed) as [fh| |] eqn:E3; cbn [bind]; [| eauto |].
    + destruct (config_parser_taken (Some "logging arguments") fh p1
                  config_logging name d Hd (Hreg _ _ Hopt)) as (e & ->).
      cbn [bind]. eauto.
    + unfold docargs_of in E3.
      destruct (name_truthy (args parsed)) as [text|]; [| discriminate].
      unfold _parse_docargs in E3.
      destruct (docargs_loop _ _ _) eqn:E4; try discriminate.
      now apply docargs_loop_modelled in E4.
Qed.

(** The flags of the help option and of [config_logging] are taken: a
    wrapped function with an optional parameter named [h], [help],
    [logfile], [logwrite] or [loglevel] gets no parser.  With the default
    logging manager the property [parser] never returns (when the
    docstring is not parsed it raises the conflict of option strings that
    [argparse] reports), so a call of the tool ends before the logging
    manager and the function are reached. *)
Theorem reserved_option_names (self : CLITool) (name : string)
    (default : pyval) :
  _parser self = None ->
  logmngr self = config_logging ->
  In (name, default) (fn_optional (func self)) ->
  In name ["h"; "help"; "logfile"; "logwrite"; "loglevel"] ->
  (forall out, CLITool_parser self <> Ok out)
  /\ (parse_doc self = false -> exists e, CLITool_parser self = Raise e)
  /\ forall tokens w, exists r,
       CLITool_call self tokens w = (r, self, w) /\ forall out, r <> Ok out.
Proof.
  intros Hnone Hlog Hopt Hname.
  assert (Hnever : forall out, CLITool_parser self <> Ok out).
  { intros out. unfold CLITool_parser. rewrite Hnone.
    match goal with
    | |- (bind ?prelude _) <> _ =>
        destruct prelude as [[[l d] fh]| |]; cbn [bind]; try discriminate
    end.
    destruct (reserved_name_stops self name default l d fh Hlog Hopt Hname)
      as (e & ->).
    discriminate. }
  split; [exact Hnever | split].
  - intros Hdoc. unfold CLITool_parser. rewrite Hnone, Hdoc. cbn [bind].
    exact (reserved_name_stops self name default _ _ _ Hlog Hopt Hname).
  - intros tokens w. unfold CLITool_call.
    destruct (CLITool_parser self) as [[p self']| |] eqn:E.
    + exfalso. exact (Hnever _ eq_refl).
    + eexists. split; [reflexivity | discriminate].
    + eexists. split; [reflexivity | discriminate].
Qed.

End ReservedNames.

(** The theorem at [def f(path, logfile=None)]. *)
Lemma reserved_option_names_witness :
  let f := mkFunc ["path"] [("logfile", VNone)] None None false None
                  (fun _ w => (Ok VNone, w)) in
  exists e,
    CLITool_parser (rt := Example.runtime)
      (CLITool_init (rt := Example.runtime) f None None None false None)
    = Raise e.
Proof.
  intros f.
  apply (reserved_option_names (rt := Example.runtime)
           (CLITool_init (rt := Example.runtime) f None None None false None) "logfile" VNone).
  - reflexivity.
  - reflexivity.
  - simpl. auto.
  - simpl. auto.
  - reflexivity.
Defined.

(** ** A tool of required parameters, from the tokens to the call *)

Section RequiredParameters.

Context {rt : Runtime}.

Variable helps : option (OD.t string).

Lemma add_required_plain (names : list string) :
  (forall n, In n names -> plain_name n = true /\ n <> "self") ->
  forall p,
    add_required None helps p names
    = Ok (Argparse.mkParser (Argparse.parser_description p)
            (Argparse.parser_epilog p)
            (Argparse.actions p ++ map (positional_for helps) names)
            (Argparse.has_negative_number_optionals p)).
Proof.
  induction names as [|n names IH]; intros H p.
  - simpl. rewrite app_nil_r. now destruct p.
  - destruct (H n (or_introl eq_refl)) as [Hplain Hself].
    cbn [add_required]. rewrite (proj2 (string_eqb_false _ _) Hself).
    assert (Hadd : Argparse.add_argument p None n
                     (Argparse.mkKwargs None (help_for helps n) None
                        Argparse.NargsNone None)
                   = Ok (Argparse.mkParser (Argparse.parser_description p)
                           (Argparse.parser_epilog p)
                           (Argparse.actions p ++ [positional_for helps n])
                           (Argparse.has_negative_number_optionals p))).
    { unfold Argparse.add_argument, plain_name in *.
      destruct n as [|c rest]; [discriminate |].
      unfold Argparse.dash. rewrite Hplain.
      cbn [bind Argparse.kw_nargs Argparse.kw_default Argparse.kw_type
           Argparse.kw_choices Argparse.kw_help Argparse.option_strings
           existsb].
      now rewrite orb_false_r. }
    rewrite Hadd. cbn [bind].
    rewrite IH by (intros m Hm; apply H; now right).
    cbn [Argparse.parser_description Argparse.parser_epilog Argparse.actions
         Argparse.has_negative_number_optionals map].
    now rewrite <- app_assoc.
Qed.

Lemma no_flag_in_positionals (o : string) (names : list string) :
  existsb (fun a => Str.mem o (Argparse.option_strings a))
          (map (positional_for helps) names)
  = false.
Proof. induction names; simpl; auto. Qed.

Lemma add_logging_option (p : Argparse.ArgumentParser) (name : string)
    (default : pyval) (help : option string) :
  In name ["logfile"; "logwrite"; "loglevel"] ->
  OD.contains ("--" +:+ name) (Argparse.option_table p) = false ->
  Argparse.add_argument p (Some "logging arguments") (argname name)
    (Argparse.mkKwargs (Some default) help (converter_of default)
       Argparse.NargsNone None)
  = Ok (Argparse.mkParser (Argparse.parser_description p)
          (Argparse.parser_epilog p)
          (Argparse.actions p ++ [logging_option name default help])
          (Argparse.has_negative_number_optionals p)).
Proof.
  intros Hname Hfree. simpl in Hname.
  destruct Hname as [<- | [<- | [<- | []]]];
    unfold Argparse.add_argument;
    cbn [argname String.length Nat.eqb String.append Ascii.eqb Bool.eqb
         Argparse.dash negb Str.lstrip_by Argparse.dash_to_underscore bind
         Argparse.kw_nargs Argparse.kw_default Argparse.kw_type
         Argparse.kw_choices Argparse.kw_help Argparse.option_strings
         existsb];
    cbn [String.append] in Hfree; rewrite Hfree; cbn [orb];
    rewrite orb_false_r; reflexivity.
Qed.

(** The parser of a tool whose function has required parameters only:
    the help option, one positional for each parameter, and the three
    options of the logging manager. *)
Lemma tool_parser_required (f : pyfunc) (lbl dsc : option string) :
  fn_optional f = [] -> fn_varargs f = None -> fn_varkw f = None ->
  (forall n, In n (fn_required f) -> plain_name n = true /\ n <> "self") ->
  let tool := CLITool_init f lbl dsc helps false None in
  exists h1 h2 h3,
    let p :=
      Argparse.mkParser lbl (str_or dsc lbl)
        (Argparse.help_action
         :: map (positional_for helps) (fn_required f)
         ++ [logging_option "logfile" VNone h1;
             logging_option "logwrite" VNone h2;
             logging_option "loglevel" (VInt 20) h3])
        false in
    CLITool_parser tool = Ok (p, set_parser tool p).
Proof.
  intros Hopt Hva Hkw Hnames tool.
  assert (Hdoc : exists parsed fh,
            parse_doc_of (fn_doc config_logging) = Ok parsed
            /\ docargs_of parsed = Ok fh).
  { destruct rt as [plat pint pfloat pdate ploads].
    destruct plat; do 2 eexists; split; vm_compute; reflexivity. }
  destruct Hdoc as (parsed & fh & Hparsed & Hfh).
  exists (help_for fh "logfile"), (help_for fh "logwrite"),
         (help_for fh "loglevel").
  intros p. unfold CLITool_parser. subst tool.
  cbn [CLITool_init _parser parse_doc label tool_description
       func_help func logmngr bind].
  unfold _config_parser at 1. unfold config_parser_body.
  rewrite required_of_spec, optional_of_spec, Hopt.
  cbn [getfullargspec spec_varargs spec_varkw add_optional].
  rewrite Hva, Hkw. cbn [name_truthy].
  rewrite (add_required_plain _ Hnames). cbn [bind].
  rewrite Hparsed. cbn [bind]. rewrite Hfh. cbn [bind].
  unfold _config_parser, config_parser_body.
  rewrite required_of_spec, optional_of_spec.
  cbn [config_logging fn_required fn_optional fn_varargs fn_varkw
       getfullargspec spec_varargs spec_varkw name_truthy add_required
       add_optional bind Argparse.new Argparse.parser_description
       Argparse.parser_epilog Argparse.actions
       Argparse.has_negative_number_optionals app].
  rewrite add_logging_option;
    [| simpl; auto
     | unfold Argparse.option_table; rewrite option_table_contains;
       cbn [Argparse.actions existsb]; rewrite no_flag_in_positionals;
       reflexivity].
  cbn [bind Argparse.parser_description Argparse.parser_epilog
       Argparse.actions Argparse.has_negative_number_optionals].
  rewrite add_logging_option;
    [| simpl; auto
     | unfold Argparse.option_table; rewrite option_table_contains;
       cbn [Argparse.actions app existsb]; rewrite existsb_app,
         no_flag_in_positionals; reflexivity].
  cbn [bind Argparse.parser_description Argparse.parser_epilog
       Argparse.actions Argparse.has_negative_number_optionals].
  rewrite add_logging_option;
    [| simpl; auto
     | unfold Argparse.option_table; rewrite option_table_contains;
       cbn [Argparse.actions app existsb]; rewrite !existsb_app,
         no_flag_in_positionals; reflexivity].
  cbn [bind Argparse.parser_description Argparse.parser_epilog
       Argparse.actions Argparse.has_negative_number_optionals].
  subst p. cbn [app]. rewrite <- !app_assoc. reflexivity.
Qed.

(** *** The positionals take the tokens one each *)

Lemma skipn_cons_next {A : Type} (start : nat) :
  forall (l : list A) (x : A) (r : list A),
    skipn start l = x :: r -> skipn (S start) l = r.
Proof.
  induction start as [|start IH]; intros l x r H.
  - simpl in H. subst l. reflexivity.
  - destruct l as [|y l]; [discriminate |]. simpl in H.
    change (skipn (S start) l = r). now apply (IH l x r).
Qed.

Lemma firstn_repeat_min {A : Type} (x : A) (i : nat) :
  forall n, i <= n -> firstn i (repeat x n) = repeat x i.
Proof.
  induction i as [|i IH]; intros n H; [reflexivity |].
  destruct n as [|n]; [lia |]. simpl. rewrite IH by lia. reflexivity.
Qed.

Lemma combine_repeat {A B : Type} (y : B) (k : nat) :
  forall l : list A,
    combine l (repeat y k) = map (fun a => (a, y)) (firstn k l).
Proof.
  induction k as [|k IH]; intros l; destruct l as [|a l]; simpl; auto.
  now rewrite IH.
Qed.

Lemma combine_firstn_min {A B : Type} (l : list A) :
  forall (l' : list B),
    combine (firstn (Nat.min (List.length l) (List.length l')) l)
            (firstn (Nat.min (List.length l) (List.length l')) l')
    = combine l l'.
Proof.
  induction l as [|a l IH]; intros l'; [reflexivity |].
  destruct l' as [|b l']; [reflexivity |]. simpl. now rewrite IH.
Qed.

Lemma indexed_from_app {A : Type} (l l' : list A) :
  forall i,
    Argparse.indexed_from i (l ++ l')
    = Argparse.indexed_from i l
      ++ Argparse.indexed_from (i + List.length l) l'.
Proof.
  induction l as [|a l IH]; intros i; simpl.
  - now rewrite Nat.add_0_r.
  - rewrite IH. now rewrite Nat.add_succ_r.
Qed.

Lemma indexed_from_firstn {A : Type} (k : nat) :
  forall (l : list A) i,
    firstn k (Argparse.indexed_from i l)
    = Argparse.indexed_from i (firstn k l).
Proof.
  induction k as [|k IH]; intros l i; [reflexivity |].
  destruct l as [|a l]; [reflexivity |]. simpl. now rewrite IH.
Qed.

Lemma positionals_kept (names : list string) :
  forall i,
    filter (fun ia : nat * Argparse.action =>
              match Argparse.option_strings (snd ia) with
              | [] => true
              | _ :: _ => false
              end)
           (Argparse.indexed_from i (map (positional_for helps) names))
    = Argparse.indexed_from i (map (positional_for helps) names).
Proof.
  induction names as [|n names IH]; intros i; simpl; [reflexivity |].
  now rewrite IH.
Qed.

Lemma positionals_nargs (names : list string) :
  forall i,
    map (fun ia : nat * Argparse.action => Argparse.act_nargs (snd ia))
        (Argparse.indexed_from i (map (positional_for helps) names))
    = repeat Argparse.NargsNone (List.length names).
Proof.
  induction names as [|n names IH]; intros i; simpl; [reflexivity |].
  now rewrite IH.
Qed.

Lemma match_nargs_none (k : nat) :
  forall avail,
    Argparse.match_nargs (repeat Argparse.NargsNone k) avail
    = if (k <=? avail)%nat then Some (repeat 1 k) else None.
Proof.
  induction k as [|k IH]; intros avail; [reflexivity |].
  cbn [repeat Argparse.match_nargs]. rewrite IH.
  destruct avail as [|avail]; [reflexivity |].
  cbn [Nat.leb]. rewrite Nat.sub_1_r. cbn [Nat.pred].
  destruct (k <=? avail)%nat; reflexivity.
Qed.

Lemma match_partial_none (n avail : nat) :
  forall i,
    i <= n ->
    Argparse.match_partial (repeat Argparse.NargsNone n) i avail
    = repeat 1 (Nat.min i avail).
Proof.
  induction i as [|i IH]; intros Hi; [reflexivity |].
  cbn [Argparse.match_partial].
  rewrite firstn_repeat_min by exact Hi. rewrite match_nargs_none.
  destruct (Nat.leb_spec (S i) avail) as [Hle | Hlt].
  - now rewrite Nat.min_l by exact Hle.
  - rewrite IH by lia.
    replace (Nat.min (S i) avail) with (Nat.min i avail) by lia.
    reflexivity.
Qed.

Lemma take_positionals_plain (q : Argparse.ArgumentParser)
    (arg_strings : list string) (names : list string) :
  forall (toks post : list string) (i0 start : nat) (st : Argparse.pstate),
    List.length toks = List.length names ->
    skipn start arg_strings = toks ++ post ->
    Argparse.take_positionals q arg_strings
      (map (fun ia => (ia, 1))
           (Argparse.indexed_from i0 (map (positional_for helps) names)))
      start st
    = Ok (Argparse.mkState
            (fold_left (fun ns nt => OD.set (fst nt) (VStr (snd nt)) ns)
                       (combine names toks) (Argparse.namespace st))
            (rev (seq i0 (List.length names)) ++ Argparse.seen_actions st)
            (Argparse.positionals st) (Argparse.extras st),
          start + List.length names).
Proof.
  induction names as [|n names IH]; intros toks post i0 start st Hlen Hskip.
  - simpl. rewrite Nat.add_0_r. now destruct st.
  - destruct toks as [|t toks]; [discriminate |].
    cbn [map Argparse.indexed_from Argparse.take_positionals].
    unfold Argparse.slice. rewrite Hskip.
    cbn [app firstn].
    change (Argparse.take_action q i0 (positional_for helps n) [t] st)
      with (Ok (Argparse.mkState
                  (OD.set n (VStr t) (Argparse.namespace st))
                  (i0 :: Argparse.seen_actions st)
                  (Argparse.positionals st) (Argparse.extras st))).
    cbn [bind].
    rewrite (IH toks post (S i0) (start + 1)).
    + cbn [Argparse.namespace Argparse.seen_actions Argparse.positionals
           Argparse.extras combine fold_left fst snd List.length seq rev].
      rewrite <- app_assoc. cbn [app].
      replace (start + 1 + List.length names)
        with (start + S (List.length names)) by lia.
      reflexivity.
    + simpl in Hlen. lia.
    + rewrite Nat.add_1_r. exact (skipn_cons_next _ _ _ _ Hskip).
Qed.

Lemma consume_positionals_plain (q : Argparse.ArgumentParser)
    (tokens names : list string) (i0 : nat) (st : Argparse.pstate) :
  Argparse.positionals st
  = Argparse.indexed_from i0 (map (positional_for helps) names) ->
  let k := Nat.min (List.length names) (List.length tokens) in
  Argparse.consume_positionals q tokens (repeat None (List.length tokens))
    0 st
  = Ok (Argparse.mkState
          (fold_left (fun ns nt => OD.set (fst nt) (VStr (snd nt)) ns)
                     (combine names tokens) (Argparse.namespace st))
          (rev (seq i0 k) ++ Argparse.seen_actions st)
          (skipn k (Argparse.positionals st)) (Argparse.extras st),
        k).
Proof.
  intros Hpos k. unfold Argparse.consume_positionals.
  rewrite Hpos, positionals_nargs, repeat_length.
  cbn [skipn]. rewrite leading_values_repeat.
  rewrite match_partial_none by lia. fold k.
  rewrite combine_repeat, indexed_from_firstn, firstn_map.
  rewrite (take_positionals_plain q tokens (firstn k names)
             (firstn k tokens) (skipn k tokens) i0 0 st).
  - cbn [bind Argparse.namespace Argparse.seen_actions Argparse.positionals
         Argparse.extras].
    rewrite repeat_length, Hpos.
    assert (Hk : List.length (firstn k names) = k)
      by (rewrite length_firstn; subst k; lia).
    rewrite Hk. subst k. rewrite combine_firstn_min. reflexivity.
  - rewrite !length_firstn. subst k. lia.
  - cbn [skipn]. symmetry. apply firstn_skipn.
Qed.

(** *** The end of the parse *)

Lemma seen_range (a k i : nat) (seen : list nat) :
  a <= i < a + k -> existsb (Nat.eqb i) (rev (seq a k) ++ seen) = true.
Proof.
  intros H. apply existsb_exists. exists i. split; [| apply Nat.eqb_refl].
  apply in_or_app. left. apply -> in_rev. apply in_seq. exact H.
Qed.

Lemma unseen_range (a k i : nat) :
  ~ a <= i < a + k -> existsb (Nat.eqb i) (rev (seq a k) ++ []) = false.
Proof.
  intros H. destruct (existsb _ _) eqn:E; [| reflexivity].
  apply existsb_exists in E as (j & Hj & Eij).
  apply Nat.eqb_eq in Eij. subst j. rewrite app_nil_r in Hj.
  apply in_rev in Hj. apply in_seq in Hj. contradiction.
Qed.

Lemma finish_positionals (names : list string) (seen : list nat)
    (ns : OD.t pyval) (rest : list (nat * Argparse.action)) :
  forall i0,
    Argparse.finish
      (Argparse.indexed_from i0 (map (positional_for helps) names) ++ rest)
      seen ns
    = if forallb (fun i => existsb (Nat.eqb i) seen)
                 (seq i0 (List.length names))
      then Argparse.finish rest seen ns
      else Argparse.exit 2.
Proof.
  induction names as [|n names IH]; intros i0; [reflexivity |].
  cbn [map Argparse.indexed_from app Argparse.finish List.length seq forallb
       positional_for Argparse.required].
  destruct (existsb (Nat.eqb i0) seen); [apply IH | reflexivity].
Qed.

Lemma all_seen (a n k : nat) :
  forallb (fun i => existsb (Nat.eqb i) (rev (seq a k) ++ [])) (seq a n)
  = (n <=? k)%nat.
Proof.
  destruct (Nat.leb_spec n k) as [Hle | Hlt].
  - apply forallb_forall. intros i Hi. apply in_seq in Hi.
    apply seen_range. lia.
  - destruct (forallb _ _) eqn:E; [| reflexivity].
    rewrite forallb_forall in E.
    assert (Hin : In (a + k) (seq a n)) by (apply in_seq; lia).
    apply E in Hin. rewrite unseen_range in Hin by lia. discriminate.
Qed.

Lemma finish_logging (i1 i2 i3 : nat) (h1 h2 h3 : option string)
    (seen : list nat) (ns : OD.t pyval) :
  Argparse.finish
    [(i1, logging_option "logfile" VNone h1);
     (i2, logging_option "logwrite" VNone h2);
     (i3, logging_option "loglevel" (VInt 20) h3)]
    seen ns
  = Ok ns.
Proof.
  cbn [Argparse.finish logging_option Argparse.required Argparse.default
       Argparse.dest].
  destruct (existsb (Nat.eqb i1) seen), (existsb (Nat.eqb i2) seen),
    (existsb (Nat.eqb i3) seen); reflexivity.
Qed.

(** On plain tokens the parser of such a tool gives each positional one
    token, in order: it returns when there are as many tokens as
    parameters, and ends in the usage error otherwise. *)
Lemma parse_required (names tokens : list string) (lbl dsc : option string)
    (h1 h2 h3 : option string) :
  forallb plain tokens = true ->
  let p :=
    Argparse.mkParser lbl dsc
      (Argparse.help_action
       :: map (positional_for helps) names
       ++ [logging_option "logfile" VNone h1;
           logging_option "logwrite" VNone h2;
           logging_option "loglevel" (VInt 20) h3])
      false in
  Argparse.parse_args p tokens
  = if (List.length tokens =? List.length names)%nat
    then Ok (fold_left (fun ns nt => OD.set (fst nt) (VStr (snd nt)) ns)
               (combine names tokens)
               (Argparse.initial_namespace (Argparse.actions p) []))
    else Argparse.exit 2.
Proof.
  intros Hp p. unfold Argparse.parse_args, Argparse.parse_known_args.
  rewrite (plain_not_special _ Hp), (classify_plain _ _ Hp), map_none_repeat.
  cbn [bind]. cbn [Argparse.main_loop].
  rewrite next_option_values. cbn [bind].
  set (ns0 := Argparse.initial_namespace (Argparse.actions p) []).
  assert (Hacts : Argparse.indexed_from 0 (Argparse.actions p)
                  = (0, Argparse.help_action)
                    :: Argparse.indexed_from 1
                         (map (positional_for helps) names)
                    ++ [(1 + List.length names,
                         logging_option "logfile" VNone h1);
                        (S (1 + List.length names),
                         logging_option "logwrite" VNone h2);
                        (S (S (1 + List.length names)),
                         logging_option "loglevel" (VInt 20) h3)]).
  { subst p. cbn [Argparse.actions Argparse.indexed_from].
    rewrite indexed_from_app, length_map. reflexivity. }
  rewrite Hacts.
  assert (Hpos : filter
                   (fun ia : nat * Argparse.action =>
                      match Argparse.option_strings (snd ia) with
                      | [] => true
                      | _ :: _ => false
                      end)
                   ((0, Argparse.help_action)
                    :: Argparse.indexed_from 1
                         (map (positional_for helps) names)
                    ++ [(1 + List.length names,
                         logging_option "logfile" VNone h1);
                        (S (1 + List.length names),
                         logging_option "logwrite" VNone h2);
                        (S (S (1 + List.length names)),
                         logging_option "loglevel" (VInt 20) h3)])
                 = Argparse.indexed_from 1
                     (map (positional_for helps) names)).
  { cbn [filter Argparse.help_action Argparse.option_strings snd].
    rewrite filter_app, positionals_kept. cbn. apply app_nil_r. }
  rewrite Hpos.
  rewrite (consume_positionals_plain p tokens names 1) by reflexivity.
  cbn [bind Argparse.add_extras Argparse.namespace Argparse.seen_actions
       Argparse.positionals Argparse.extras app].
  cbn [Argparse.finish Argparse.help_action Argparse.required
       Argparse.default Argparse.dest].
  rewrite unseen_range by lia.
  rewrite finish_positionals, all_seen, finish_logging.
  destruct (Nat.eqb_spec (List.length tokens) (List.length names)) as [E | N].
  - rewrite E, Nat.min_id, Nat.leb_refl. cbn [bind].
    rewrite <- E, skipn_all. reflexivity.
  - destruct (Nat.leb_spec (List.length names)
                (Nat.min (List.length names) (List.length tokens)))
      as [Hle | Hlt]; [| reflexivity].
    cbn [bind].
    destruct (skipn _ tokens) eqn:Es; [| reflexivity].
    apply skipn_all_iff in Es. lia.
Qed.

(** *** The namespace and the two calls *)

Lemma get_initial (k : string) (acts : list Argparse.action) :
  forall acc,
    OD.get k (Argparse.initial_namespace acts acc)
    = match OD.get k acc with
      | Some v => Some v
      | None => find_default k acts
      end.
Proof.
  induction acts as [|a acts IH]; intros acc; simpl.
  - now destruct (OD.get k acc).
  - rewrite IH.
    destruct (Argparse.dest a) as [d|]; [| reflexivity].
    destruct (Argparse.default a) as [v|]; [| reflexivity].
    unfold OD.contains. destruct (OD.get d acc) as [v'|] eqn:Ed.
    + destruct (OD.get k acc) eqn:Ek; [reflexivity |].
      destruct (String.eqb k d) eqn:E; [| reflexivity].
      apply string_eqb_true in E. congruence.
    + destruct (String.eqb k d) eqn:E.
      * apply string_eqb_true in E. subst d.
        now rewrite od_get_set_same, Ed.
      * apply string_eqb_false in E. now rewrite od_get_set_other.
Qed.

Lemma find_default_positionals (k : string) (names : list string)
    (rest : list Argparse.action) :
  ~ In k names ->
  find_default k (map (positional_for helps) names ++ rest)
  = find_default k rest.
Proof.
  induction names as [|n names IH]; intros H; [reflexivity |].
  cbn [map app find_default positional_for Argparse.dest Argparse.default].
  assert (E : String.eqb k n = false).
  { apply string_eqb_false. intros ->. apply H. now left. }
  rewrite E. apply IH. intros Hin. apply H. now right.
Qed.

Lemma get_fold_other (k : string) (pairs : list (string * string)) :
  ~ In k (map fst pairs) ->
  forall ns,
    OD.get k (fold_left (fun ns nt => OD.set (fst nt) (VStr (snd nt)) ns)
                        pairs ns)
    = OD.get k ns.
Proof.
  induction pairs as [|[n t] pairs IH]; intros H ns; [reflexivity |].
  cbn [fold_left fst snd].
  rewrite IH by (intros Hin; apply H; now right).
  apply od_get_set_other. intros ->. apply H. now left.
Qed.

Lemma combine_names (names : list string) :
  forall (toks : list string) k,
    In k (map fst (combine names toks)) -> In k names.
Proof.
  induction names as [|n names IH]; intros toks k H; [contradiction |].
  destruct toks as [|t toks]; [contradiction |].
  destruct H as [H | H]; [now left | right; eauto].
Qed.

Lemma values_fold (names : list string) :
  NoDup names ->
  forall (toks : list string) ns,
    List.length toks = List.length names ->
    map (value_of
           (fold_left (fun ns nt => OD.set (fst nt) (VStr (snd nt)) ns)
                      (combine names toks) ns))
        names
    = map VStr toks
    /\ forall n, In n names ->
         OD.contains n
           (fold_left (fun ns nt => OD.set (fst nt) (VStr (snd nt)) ns)
                      (combine names toks) ns)
         = true.
Proof.
  induction 1 as [|n names Hn Hnd IH]; intros toks ns Hlen.
  - destruct toks; [| discriminate]. split; [reflexivity | contradiction].
  - destruct toks as [|t toks]; [discriminate |].
    cbn [combine fold_left fst snd map].
    assert (Hget : OD.get n
                     (fold_left
                        (fun ns nt => OD.set (fst nt) (VStr (snd nt)) ns)
                        (combine names toks) (OD.set n (VStr t) ns))
                   = Some (VStr t)).
    { rewrite get_fold_other; [apply od_get_set_same |].
      intros Hin. apply Hn. eapply combine_names. exact Hin. }
    destruct (IH toks (OD.set n (VStr t) ns)) as [IHv IHc];
      [simpl in Hlen; lia |].
    split.
    + unfold value_of at 1. rewrite Hget. now rewrite IHv.
    + intros m [<- | Hm]; [| now apply IHc].
      unfold OD.contains. now rewrite Hget.
Qed.

Lemma values_combine (names : list string) :
  NoDup names ->
  forall args : list pyval,
    List.length args = List.length names ->
    map (fun n => (n, value_of (combine names args) n)) names
    = combine names args
    /\ forall n, In n names -> In n (map fst (combine names args)).
Proof.
  induction 1 as [|n names Hn Hnd IH]; intros args Hlen.
  - split; [reflexivity | contradiction].
  - destruct args as [|a args]; [discriminate |].
    destruct (IH args) as [IHv IHin]; [simpl in Hlen; lia |].
    split.
    + cbn [combine map]. unfold value_of at 1. cbn [OD.get].
      rewrite String.eqb_refl. f_equal.
      transitivity (map (fun m => (m, value_of (combine names args) m))
                        names); [| exact IHv].
      apply map_ext_in. intros m Hm.
      unfold value_of. cbn [OD.get].
      assert (E : String.eqb m n = false).
      { apply string_eqb_false. intros ->. contradiction. }
      now rewrite E.
    + intros m [<- | Hm]; [now left | right; now apply IHin].
Qed.

Lemma bind_positional_all (names : list string) :
  forall args : list pyval,
    List.length args = List.length names ->
    bind_positional names args = (combine names args, []).
Proof.
  induction names as [|n names IH]; intros args Hlen.
  - destruct args; [reflexivity | discriminate].
  - destruct args as [|a args]; [discriminate |]. simpl.
    rewrite IH by (simpl in Hlen; lia). reflexivity.
Qed.

Lemma bind_defaults_env (defaults env : OD.t pyval) (names : list string) :
  (forall n, In n names -> OD.contains n env = true) ->
  bind_defaults names defaults env
  = Ok (map (fun n => (n, value_of env n)) names).
Proof.
  induction names as [|n names IH]; intros H; simpl; [reflexivity |].
  pose proof (H n (or_introl eq_refl)) as Hn.
  unfold OD.contains in Hn. unfold value_of at 1.
  destruct (OD.get n env); [| discriminate]. simpl.
  rewrite IH by (intros m Hm; apply H; now right). reflexivity.
Qed.

Lemma od_contains_key {V : Type} (k : string) (d : OD.t V) :
  In k (map fst d) -> OD.contains k d = true.
Proof.
  unfold OD.contains. induction d as [|[k0 v0] d IH]; [contradiction |].
  simpl. destruct (String.eqb k k0) eqn:E; [reflexivity |].
  intros [-> | H]; [now rewrite String.eqb_refl in E | now apply IH].
Qed.

(** The call [f( *args )] with as many arguments as [f] has parameters. *)
Lemma call_positional (f : pyfunc) (args : list pyval) (w : world) :
  fn_optional f = [] -> fn_varargs f = None -> fn_varkw f = None ->
  fn_bound f = false ->
  NoDup (fn_required f) ->
  List.length args = List.length (fn_required f) ->
  call f args [] w = fn_body f (combine (fn_required f) args) w.
Proof.
  intros Hopt Hva Hkw Hb Hnd Hlen. unfold call, bind_arguments.
  rewrite Hopt, Hva, Hkw, Hb. cbn [map]. rewrite app_nil_r.
  rewrite bind_positional_all by exact Hlen.
  cbn [bind bind_keywords].
  destruct (values_combine _ Hnd args Hlen) as [Hv Hin].
  rewrite bind_defaults_env
    by (intros n Hn; apply od_contains_key, Hin, Hn).
  cbn [bind]. rewrite Hv, app_nil_r. reflexivity.
Qed.

Lemma getcallargs_plain (f : pyfunc) (kwargs : OD.t pyval) :
  OD.contains "func" kwargs = false ->
  fn_varargs f = None -> fn_varkw f = None ->
  (forall n, In n (fn_required f ++ map fst (fn_optional f)) ->
             n <> "self" /\ OD.contains n kwargs = true) ->
  _getcallargs f kwargs
  = Ok (map (value_of kwargs) (fn_required f ++ map fst (fn_optional f)), []).
Proof.
  intros Hfunc Hva Hkw Hall. unfold _getcallargs. rewrite Hfunc.
  cbn [getfullargspec spec_args spec_varargs spec_varkw].
  rewrite collect_named_all by exact Hall.
  rewrite Hva, Hkw. reflexivity.
Qed.

(** A tool whose function has required parameters only hands the tokens of
    the command line to the function as they are, one string for each
    parameter in order, when the tokens start neither with a dash nor with
    [@] and are as many as the parameters: logging is first configured at
    its defaults, the function is then run by [execute] with each
    parameter bound to its token, and logging is shut down when [execute]
    returns.  With fewer or more tokens the tool leaves through the usage
    error of [argparse], [SystemExit(2)], and nothing is configured, run or
    logged.  The parameters are distinct names that [add_argument] takes
    for a positional, and none is [self], which [_getcallargs] skips,
    [func], which is the parameter of [_getcallargs] itself, or one of the
    three logging options. *)
Theorem tool_call_required (f : pyfunc) (lbl dsc : option string)
    (tokens : list string) (w : world) :
  fn_optional f = [] -> fn_varargs f = None -> fn_varkw f = None ->
  fn_bound f = false ->
  NoDup (fn_required f) ->
  (forall n, In n (fn_required f) ->
             plain_name n = true
             /\ ~ In n ["self"; "func"; "logfile"; "logwrite";
                        "loglevel"]) ->
  forallb plain (effective_tokens tokens w) = true ->
  let tool := CLITool_init f lbl dsc helps false None in
  let args := map VStr (effective_tokens tokens w) in
  let w1 := snd (config_logging_body logging_defaults w) in
  let out := CLITool_call tool tokens w in
  if (List.length (effective_tokens tokens w)
      =? List.length (fn_required f))%nat
  then
    fst (fst out) = fst (execute tool args [] w1)
    /\ snd out
       = match fst (execute tool args [] w1) with
         | Ok _ => emit EvShutdown (snd (execute tool args [] w1))
         | _ => snd (execute tool args [] w1)
         end
    /\ forall w', call f args [] w'
                  = fn_body f (combine (fn_required f) args) w'
  else fst (fst out) = Argparse.exit 2 /\ snd out = w.
Proof.
  intros Hopt Hva Hkw Hb Hnd Hnames Hplain tool args w1 out.
  assert (Hnames' : forall n, In n (fn_required f) ->
                      plain_name n = true /\ n <> "self").
  { intros n Hn. destruct (Hnames n Hn) as [Hp Hres].
    split; [exact Hp |]. intros ->. apply Hres. now left. }
  destruct (tool_parser_required f lbl dsc Hopt Hva Hkw Hnames')
    as (h1 & h2 & h3 & Hparser).
  cbv zeta in Hparser. fold tool in Hparser.
  subst out. unfold CLITool_call.
  fold (effective_tokens tokens w). rewrite Hparser.
  rewrite (parse_required _ _ lbl (str_or dsc lbl) h1 h2 h3 Hplain).
  destruct (Nat.eqb_spec (List.length (effective_tokens tokens w))
              (List.length (fn_required f))) as [Hlen | Hlen];
    [| split; reflexivity].
  cbn [bind].
  match goal with
  | |- context [fold_left ?g ?pairs ?ns0] => set (ns := fold_left g pairs ns0)
  end.
  destruct (values_fold _ Hnd (effective_tokens tokens w)
              (Argparse.initial_namespace
                 (Argparse.actions
                    (Argparse.mkParser lbl (str_or dsc lbl)
                       (Argparse.help_action
                        :: map (positional_for helps) (fn_required f)
                        ++ [logging_option "logfile" VNone h1;
                            logging_option "logwrite" VNone h2;
                            logging_option "loglevel" (VInt 20) h3])
                       false))
                 [])
              Hlen) as [Hvalues Hbound].
  fold ns in Hvalues, Hbound.
  assert (Hlog : forall k v,
            In (k, v) logging_defaults -> OD.get k ns = Some v).
  { intros k v Hin.
    assert (Hk : ~ In k (fn_required f)).
    { intros Hn. apply Hnames in Hn as [_ Hn]. apply Hn.
      simpl in Hin. simpl.
      destruct Hin as [E | [E | [E | []]]]; injection E as <- _; auto 6. }
    subst ns. rewrite get_fold_other
      by (intros Hc; apply Hk; eapply combine_names; exact Hc).
    rewrite get_initial. cbn [OD.get Argparse.actions find_default
      Argparse.help_action Argparse.dest].
    rewrite (find_default_positionals k _ _ Hk).
    simpl in Hin.
    destruct Hin as [E | [E | [E | []]]]; injection E as <- <-;
      reflexivity. }
  assert (Hnofunc : OD.contains "func" ns = false).
  { assert (Hk : ~ In "func" (fn_required f)).
    { intros Hn. apply Hnames in Hn as [_ Hn]. apply Hn. simpl. auto. }
    unfold OD.contains. subst ns.
    rewrite get_fold_other
      by (intros Hc; apply Hk; eapply combine_names; exact Hc).
    rewrite get_initial.
    cbn [OD.get Argparse.actions find_default Argparse.help_action
         Argparse.dest].
    rewrite (find_default_positionals "func" _ _ Hk). reflexivity. }
  change (logmngr (set_parser tool _)) with config_logging.
  change (func (set_parser tool _)) with f.
  rewrite (getcallargs_plain config_logging ns Hnofunc eq_refl eq_refl).
  2:{ intros n Hn. simpl in Hn. unfold OD.contains.
      destruct Hn as [<- | [<- | [<- | []]]];
        (split; [discriminate |]).
      - now rewrite (Hlog "logfile" VNone) by (simpl; auto).
      - now rewrite (Hlog "logwrite" VNone) by (simpl; auto).
      - now rewrite (Hlog "loglevel" (VInt 20)) by (simpl; auto). }
  cbn [bind].
  rewrite (getcallargs_plain f ns Hnofunc Hva Hkw).
  2:{ rewrite Hopt. cbn [map]. rewrite app_nil_r. intros n Hn.
      split; [apply (Hnames' n Hn) | apply (Hbound n Hn)]. }
  cbn [bind]. rewrite Hopt. cbn [map]. rewrite app_nil_r, Hvalues.
  fold args.
  cbn [config_logging fn_required fn_optional map app fst].
  unfold value_of.
  rewrite (Hlog "logfile" VNone), (Hlog "logwrite" VNone),
    (Hlog "loglevel" (VInt 20)) by (simpl; auto).
  change (call _ [VNone; VNone; VInt 20] [] w)
    with (config_logging_body logging_defaults w).
  fold config_logging.
  assert (Hok : fst (config_logging_body logging_defaults w) = Ok VNone).
  { unfold config_logging_body.
    destruct (handlers (set_root_level NOTSET w)); reflexivity. }
  subst w1.
  destruct (config_logging_body logging_defaults w) as [r w1].
  cbn [fst snd] in *. subst r.
  rewrite execute_ignores_parser.
  split; [| split].
  - destruct (execute tool args [] w1) as [[res| |] w2]; reflexivity.
  - destruct (execute tool args [] w1) as [[res| |] w2]; reflexivity.
  - intros w'. apply call_positional; auto.
    subst args. rewrite length_map. exact Hlen.
Qed.

End RequiredParameters.

(** The theorem at [def copy(src, dst)], a function that returns its
    parameters, and the tokens [a.txt b.txt]. *)
Lemma tool_call_required_witness :
  let f := mkFunc ["src"; "dst"] [] None None false None
                  (fun env w => (Ok (VDict env), w)) in
  fst (fst (CLITool_call (rt := Example.runtime)
              (CLITool_init (rt := Example.runtime) f None None None false None)
              ["a.txt"; "b.txt"] Example.world0))
  = Ok (mkResult (VInt 0)
          (VDict [("src", VStr "a.txt"); ("dst", VStr "b.txt")]) None).
Proof.
  intros f.
  assert (Hnd : NoDup (fn_required f)).
  { repeat constructor; simpl; intuition discriminate. }
  assert (Hnames : forall n, In n (fn_required f) ->
                     plain_name n = true
                     /\ ~ In n ["self"; "func"; "logfile"; "logwrite";
                        "loglevel"]).
  { intros n [<- | [<- | []]]; (split; [reflexivity |]);
      simpl; intuition discriminate. }
  exact (proj1 (tool_call_required (rt := Example.runtime) None f None None
                  ["a.txt"; "b.txt"] Example.world0
                  eq_refl eq_refl eq_refl eq_refl Hnd Hnames eq_refl)).
Defined.

(** ** The texts of the parser of a tool *)

Lemma add_argument_texts (p p' : Argparse.ArgumentParser)
    (grp : option string) (name_or_flag : string) (kw : Argparse.add_kwargs) :
  Argparse.add_argument p grp name_or_flag kw = Ok p' ->
  Argparse.parser_description p' = Argparse.parser_description p
  /\ Argparse.parser_epilog p' = Argparse.parser_epilog p.
Proof.
  unfold Argparse.add_argument.
  destruct name_or_flag as [|c0 rest]; [discriminate |].
  destruct (negb (Ascii.eqb c0 Argparse.dash)); cbn [bind].
  - match goal with |- context [if ?b then _ else _] => destruct b end;
      [discriminate |].
    intros H. injection H as <-. split; reflexivity.
  - destruct (Str.lstrip_by _ _); [discriminate |]. cbn [bind].
    match goal with |- context [if ?b then _ else _] => destruct b end;
      [discriminate |].
    intros H. injection H as <-. split; reflexivity.
Qed.

Lemma config_parser_texts (grp : option string)
    (helps : option (OD.t string)) (f : pyfunc) :
  forall p p',
    _config_parser p f helps grp = Ok p' ->
    Argparse.parser_description p' = Argparse.parser_description p
    /\ Argparse.parser_epilog p' = Argparse.parser_epilog p.
Proof.
  assert (Hreq : forall required p p',
            add_required grp helps p required = Ok p' ->
            Argparse.parser_description p' = Argparse.parser_description p
            /\ Argparse.parser_epilog p' = Argparse.parser_epilog p).
  { induction required as [|arg rest IH]; intros p p'; simpl.
    - intros H. injection H as <-. auto.
    - destruct (String.eqb arg "self"); [apply IH |].
      destruct (Argparse.add_argument p grp arg _) as [p1| |] eqn:E;
        cbn [bind]; try discriminate.
      intros H. apply IH in H as [-> ->]. eapply add_argument_texts, E. }
  assert (Hopt : forall optional p p',
            add_optional grp helps p optional = Ok p' ->
            Argparse.parser_description p' = Argparse.parser_description p
            /\ Argparse.parser_epilog p' = Argparse.parser_epilog p).
  { induction optional as [|[n d] rest IH]; intros p p'; simpl.
    - intros H. injection H as <-. auto.
    - destruct (Argparse.add_argument p grp (argname n) _) as [p1| |] eqn:E;
        cbn [bind]; try discriminate.
      intros H. apply IH in H as [-> ->]. eapply add_argument_texts, E. }
  intros p p'. unfold _config_parser, config_parser_body.
  destruct (add_required grp helps p _) as [p1| |] eqn:E1; cbn [bind];
    try discriminate.
  destruct (add_optional grp helps p1 _) as [p2| |] eqn:E2; cbn [bind];
    try discriminate.
  apply Hreq in E1 as [<- <-]. apply Hopt in E2 as [<- <-].
  destruct (name_truthy (spec_varargs (getfullargspec f))) as [va|].
  - destruct (Argparse.add_argument p2 grp va _) as [p3| |] eqn:E3;
      cbn [bind]; try discriminate.
    apply add_argument_texts in E3 as [<- <-].
    destruct (name_truthy (spec_varkw (getfullargspec f))) as [kw|].
    + apply add_argument_texts.
    + intros H. injection H as <-. auto.
  - cbn [bind].
    destruct (name_truthy (spec_varkw (getfullargspec f))) as [kw|].
    + apply add_argument_texts.
    + intros H. injection H as <-. auto.
Qed.

Section ParserTexts.

Context {rt : Runtime}.

(** The texts that head and close the help of a tool.  The description of
    the parser is the label, and its epilog the description given to the
    tool or else the label; with [parse_doc] the docstring fills in what is
    still missing, the summary for the description and the description for
    the epilog.  A label given without a description therefore keeps the
    description of the docstring out of the help: the epilog is the label. *)
Theorem tool_parser_texts (f : pyfunc) (lbl dsc : option string)
    (helps : option (OD.t string)) (parse : bool) (logm : option pyfunc)
    (p : Argparse.ArgumentParser) (tool' : CLITool) :
  CLITool_parser (CLITool_init f lbl dsc helps parse logm) = Ok (p, tool') ->
  (if parse then
     exists parsed,
       parse_doc_of (fn_doc f) = Ok parsed
       /\ Argparse.parser_description p = str_or lbl (summary parsed)
       /\ Argparse.parser_epilog p
          = str_or (str_or dsc lbl) (description parsed)
   else
     Argparse.parser_description p = lbl
     /\ Argparse.parser_epilog p = str_or dsc lbl)
  /\ (forall l, lbl = Some l -> Str.truthy l = true -> dsc = None ->
        Argparse.parser_description p = lbl
        /\ Argparse.parser_epilog p = lbl).
Proof.
  intros H.
  assert (Hbody : forall label_ description_ helps_,
            (parser <- _config_parser
                         (Argparse.new label_ description_ true) f helps_
                         None ;;
             parsed <- parse_doc_of
                         (fn_doc (logmngr (CLITool_init f lbl dsc helps parse
                                             logm))) ;;
             helps' <- docargs_of parsed ;;
             parser <- _config_parser parser
                         (logmngr (CLITool_init f lbl dsc helps parse logm))
                         helps' (Some "logging arguments") ;;
             Ok (parser,
                 set_parser (CLITool_init f lbl dsc helps parse logm)
                            parser))%result
            = Ok (p, tool') ->
            Argparse.parser_description p = label_
            /\ Argparse.parser_epilog p = description_).
  { intros label_ description_ helps_.
    destruct (_config_parser (Argparse.new label_ description_ true) f
                helps_ None) as [p1| |] eqn:E1; cbn [bind];
      try discriminate.
    destruct (parse_doc_of _) as [parsed| |]; cbn [bind]; try discriminate.
    destruct (docargs_of parsed) as [helps'| |]; cbn [bind];
      try discriminate.
    destruct (_config_parser p1 _ helps' _) as [p2| |] eqn:E2; cbn [bind];
      try discriminate.
    intros Hp. injection Hp as <- _.
    apply config_parser_texts in E1 as [E1d E1e].
    apply config_parser_texts in E2 as [-> ->].
    rewrite E1d, E1e. split; reflexivity. }
  unfold CLITool_parser in H.
  cbn [CLITool_init _parser parse_doc label tool_description func_help func]
    in H.
  assert (Hmain :
            if parse then
              exists parsed,
                parse_doc_of (fn_doc f) = Ok parsed
                /\ Argparse.parser_description p = str_or lbl (summary parsed)
                /\ Argparse.parser_epilog p
                   = str_or (str_or dsc lbl) (description parsed)
            else
              Argparse.parser_description p = lbl
              /\ Argparse.parser_epilog p = str_or dsc lbl).
  { destruct parse.
    - destruct (parse_doc_of (fn_doc f)) as [parsed| |]; cbn [bind] in H;
        try discriminate.
      exists parsed. split; [reflexivity |].
      match type of H with
      | (bind (bind ?h _) _) = _ =>
          destruct h as [helps_| |]; cbn [bind] in H; try discriminate
      end.
      apply Hbody in H. exact H.
    - cbn [bind] in H. apply Hbody in H. exact H. }
  split; [exact Hmain |].
  intros l -> Hl ->. cbn [str_or] in Hmain. rewrite Hl in Hmain.
  destruct parse; [destruct Hmain as (parsed & _ & Hd & He) | exact Hmain].
  split; assumption.
Qed.

End ParserTexts.

(** The theorem on a function whose docstring has a summary and a
    description, wrapped with a label alone. *)
Lemma tool_parser_texts_witness :
  let f := mkFunc ["path"] [] None None false
             (Some "Count the lines.

Every line of the file counts.")
             (fun _ w => (Ok VNone, w)) in
  exists p tool',
    CLITool_parser (rt := Example.runtime)
      (CLITool_init (rt := Example.runtime) f (Some "wc") None None true None)
    = Ok (p, tool')
    /\ Argparse.parser_description p = Some "wc"
    /\ Argparse.parser_epilog p = Some "wc".
Proof.
  intros f.
  destruct (CLITool_parser (rt := Example.runtime)
              (CLITool_init (rt := Example.runtime) f (Some "wc") None None true None))
    as [[p tool']| |] eqn:E; [| vm_compute in E; discriminate ..].
  exists p, tool'. split; [reflexivity |].
  exact (proj2 (tool_parser_texts (rt := Example.runtime) f (Some "wc") None
                  None true None p tool' E)
               "wc" eq_refl eq_refl eq_refl).
Defined.

(** ** What [execute] logs *)

Lemma log_call_events (level : Z) (fmt : string) (fmt_args : list log_arg)
    (w : world) :
  events (log_call level fmt fmt_args w)
  = events w ++ [EvLog level fmt fmt_args]
  /\ now (log_call level fmt fmt_args w) = now w.
Proof. unfold log_call. destruct (handlers w); split; reflexivity. Qed.

Section ExecuteLog.

Context {rt : Runtime}.

(** [execute] brackets the call between its messages.  Called with a
    keyword named [self], it raises [TypeError] to its caller before its
    body is entered and logs nothing.  Otherwise it first logs the
    label, when there is one, and the start time; after the call, the
    last message is the closing line, which reads FAILED exactly when an
    exception was caught (it then follows the error line and the
    traceback, logged at the levels ERROR and DEBUG) and SUCCEEDED
    otherwise, also when an exception that [except Exception] does not
    catch is on its way to the caller. *)
Theorem execute_log (self : CLITool) (args : list pyval)
    (kwargs : OD.t pyval) (w : world) :
  let started := log_start self w in
  let ran := call (func self) args kwargs started in
  let out := execute self args kwargs w in
  let closing (word : string) :=
    EvLog INFO
      (word +:+ " at %s (Elapsed Time: %s)" +:+ String Str.LF EmptyString)
      [LTime (now (snd ran)); LElapsed (now (snd ran) - now w)] in
  events started
  = events w
    ++ match name_truthy (label self) with
       | Some l => [EvLog INFO l []]
       | None => []
       end
    ++ [EvLog INFO "Start Time: %s" [LTime (now w)]]
  /\ if OD.contains "self" kwargs then
       out = (Raise (Exn TypeError Unworded), w)
     else
       match fst ran with
       | Ok v =>
           fst out = Ok (mkResult (VInt 0) v None)
           /\ events (snd out) = events (snd ran) ++ [closing "SUCCEEDED"]
       | Raise e =>
           if is_Exception (exc_type e) then
             fst out
             = Ok (mkResult (VInt 1) VNone (Some (exc_type e, e, Traceback)))
             /\ events (snd out)
                = events (snd ran)
                  ++ [EvLog ERROR "%s: %s"
                        [LText (exc_name (exc_type e)); LValue e];
                      EvLog DEBUG "%s" [LTrace e];
                      closing "FAILED"]
           else
             fst out = Raise e
             /\ events (snd out) = events (snd ran) ++ [closing "SUCCEEDED"]
       | Unmodelled => fst out = Unmodelled
       end.
Proof.
  intros started ran out closing. split.
  - subst started. unfold log_start.
    destruct (name_truthy (label self)) as [l|].
    + destruct (log_call_events INFO "Start Time: %s" [LTime (now w)]
                  (log_call INFO l [] w)) as [-> _].
      destruct (log_call_events INFO l [] w) as [-> _].
      now rewrite <- app_assoc.
    + destruct (log_call_events INFO "Start Time: %s" [LTime (now w)] w)
        as [-> _].
      reflexivity.
  - subst out closing. unfold execute.
    destruct (OD.contains "self" kwargs); [reflexivity |].
    fold started. fold ran.
    destruct ran as [[v|e|] w1]; cbn [fst snd]; [| | reflexivity].
    + split; [reflexivity |]. unfold log_closing. cbn [Z.eqb Pos.eqb].
      now destruct (log_call_events INFO
                      ("SUCCEEDED" +:+ " at %s (Elapsed Time: %s)"
                       +:+ String Str.LF EmptyString)
                      [LTime (now w1); LElapsed (now w1 - now w)] w1)
        as [-> _].
    + destruct (is_Exception (exc_type e)); cbn [fst snd].
      * split; [reflexivity |]. unfold log_closing. cbn [Z.eqb Pos.eqb].
        set (w2 := log_call ERROR "%s: %s"
                     [LText (exc_name (exc_type e)); LValue e] w1).
        set (w3 := log_call DEBUG "%s" [LTrace e] w2).
        destruct (log_call_events ERROR "%s: %s"
                    [LText (exc_name (exc_type e)); LValue e] w1)
          as [E2 N2].
        destruct (log_call_events DEBUG "%s" [LTrace e] w2) as [E3 N3].
        fold w2 in E2, N2. fold w3 in E3, N3.
        assert (N : now w3 = now w1) by congruence.
        rewrite N.
        destruct (log_call_events INFO
                    ("FAILED" +:+ " at %s (Elapsed Time: %s)"
                     +:+ String Str.LF EmptyString)
                    [LTime (now w1); LElapsed (now w1 - now w)] w3)
          as [-> _].
        rewrite E3, E2, <- !app_assoc. reflexivity.
      * split; [reflexivity |]. unfold log_closing. cbn [Z.eqb Pos.eqb].
        now destruct (log_call_events INFO
                        ("SUCCEEDED" +:+ " at %s (Elapsed Time: %s)"
                         +:+ String Str.LF EmptyString)
                        [LTime (now w1); LElapsed (now w1 - now w)] w1)
          as [-> _].
Qed.

End ExecuteLog.

(** ** The help option of a tool *)

Section HelpOption.

Context {rt : Runtime}.

Lemma config_parser_extends (grp : option string)
    (helps : option (OD.t string)) (f : pyfunc) :
  forall p p',
    _config_parser p f helps grp = Ok p' ->
    exists more, Argparse.actions p' = Argparse.actions p ++ more.
Proof.
  assert (Hreq : forall required p p',
            add_required grp helps p required = Ok p' ->
            exists more, Argparse.actions p' = Argparse.actions p ++ more).
  { induction required as [|arg rest IH]; intros p p'; simpl.
    - intros H. injection H as <-. exists []. now rewrite app_nil_r.
    - destruct (String.eqb arg "self"); [apply IH |].
      destruct (Argparse.add_argument p grp arg _) as [p1| |] eqn:E;
        cbn [bind]; try discriminate.
      intros H. apply IH in H as (more & ->).
      apply add_argument_appends in E as (a & -> & _).
      exists (a :: more). now rewrite <- app_assoc. }
  assert (Hopt : forall optional p p',
            add_optional grp helps p optional = Ok p' ->
            exists more, Argparse.actions p' = Argparse.actions p ++ more).
  { induction optional as [|[n d] rest IH]; intros p p'; simpl.
    - intros H. injection H as <-. exists []. now rewrite app_nil_r.
    - destruct (Argparse.add_argument p grp (argname n) _) as [p1| |] eqn:E;
        cbn [bind]; try discriminate.
      intros H. apply IH in H as (more & ->).
      apply add_argument_appends in E as (a & -> & _).
      exists (a :: more). now rewrite <- app_assoc. }
  assert (Hadd : forall p p' name kw,
            Argparse.add_argument p grp name kw = Ok p' ->
            exists more, Argparse.actions p' = Argparse.actions p ++ more).
  { intros p p' name kw E.
    apply add_argument_appends in E as (a & -> & _). eauto. }
  intros p p'. unfold _config_parser, config_parser_body.
  destruct (add_required grp helps p _) as [p1| |] eqn:E1; cbn [bind];
    try discriminate.
  destruct (add_optional grp helps p1 _) as [p2| |] eqn:E2; cbn [bind];
    try discriminate.
  apply Hreq in E1 as (m1 & E1). apply Hopt in E2 as (m2 & E2).
  assert (Hend : forall p3 m3,
            Argparse.actions p3 = Argparse.actions p2 ++ m3 ->
            exists more, Argparse.actions p3 = Argparse.actions p ++ more).
  { intros p3 m3 ->. rewrite E2, E1. exists ((m1 ++ m2) ++ m3).
    now rewrite !app_assoc. }
  destruct (name_truthy (spec_varargs (getfullargspec f))) as [va|].
  - destruct (Argparse.add_argument p2 grp va _) as [p3| |] eqn:E3;
      cbn [bind]; try discriminate.
    apply Hadd in E3 as (m3 & E3).
    destruct (name_truthy (spec_varkw (getfullargspec f))) as [kw|].
    + intros E4. apply Hadd in E4 as (m4 & E4).
      apply (Hend p' (m3 ++ m4)). now rewrite E4, E3, app_assoc.
    + intros H. injection H as <-. now apply (Hend p3 m3).
  - cbn [bind].
    destruct (name_truthy (spec_varkw (getfullargspec f))) as [kw|].
    + intros E4. apply Hadd in E4 as (m4 & E4). now apply (Hend p' m4).
    + intros H. injection H as <-. apply (Hend p2 []). now rewrite app_nil_r.
Qed.

(** The parser that a new tool builds starts with the help option. *)
Lemma tool_parser_head (self : CLITool) (p : Argparse.ArgumentParser)
    (self' : CLITool) :
  _parser self = None ->
  CLITool_parser self = Ok (p, self') ->
  self' = set_parser self p
  /\ exists rest, Argparse.actions p = Argparse.help_action :: rest.
Proof.
  intros Hnone. unfold CLITool_parser. rewrite Hnone.
  match goal with
  | |- (bind ?prelude _) = _ -> _ =>
      destruct prelude as [[[l d] fh]| |]; cbn [bind]; try discriminate
  end.
  destruct (_config_parser (Argparse.new l d true) (func self) fh None)
    as [p1| |] eqn:E1; cbn [bind]; try discriminate.
  destruct (parse_doc_of _) as [parsed| |]; cbn [bind]; try discriminate.
  destruct (docargs_of parsed) as [fh'| |]; cbn [bind]; try discriminate.
  destruct (_config_parser p1 _ fh' _) as [p2| |] eqn:E2; cbn [bind];
    try discriminate.
  intros H. injection H as <- <-. split; [reflexivity |].
  apply config_parser_extends in E1 as (m1 & E1).
  apply config_parser_extends in E2 as (m2 & E2).
  rewrite E2, E1. cbn [Argparse.new Argparse.actions app]. eauto.
Qed.

Lemma parse_help (p : Argparse.ArgumentParser) (rest : list Argparse.action)
    (flag : string) :
  Argparse.actions p = Argparse.help_action :: rest ->
  Argparse.print_help p = Ok tt ->
  flag = "-h" \/ flag = "--help" ->
  Argparse.parse_args p [flag] = Argparse.exit 0.
Proof.
  intros Hacts Hprint Hflag.
  assert (Htake : forall st,
             Argparse.take_action p 0 Argparse.help_action [] st
             = Argparse.exit 0).
  { intros st. unfold Argparse.take_action.
    cbn -[Argparse.print_help]. rewrite Hprint. reflexivity. }
  destruct p as [d e acts hnn]. cbn [Argparse.actions] in Hacts, Htake.
  subst acts.
  destruct Hflag as [-> | ->];
    unfold Argparse.parse_args, Argparse.parse_known_args;
    cbn -[Argparse.take_action]; rewrite Htake; reflexivity.
Qed.

(** The help option comes before everything else: whatever the function
    declares, a tool whose parser can be built, and whose help message can
    be printed (no help text holds a percent sign, which the formatting of
    the message would expand, and neither the description nor the epilog
    holds [%(prog)]), answers the lone token [-h] (or [--help]) with the
    exit of status 0 that follows the help message; nothing is configured,
    run or logged, on the first call as on the later ones that find the
    parser built. *)
Theorem tool_help_option (f : pyfunc) (lbl dsc : option string)
    (helps : option (OD.t string)) (parse : bool) (logm : option pyfunc)
    (p : Argparse.ArgumentParser) (tool' : CLITool) (flag : string)
    (w : world) :
  let tool := CLITool_init f lbl dsc helps parse logm in
  CLITool_parser tool = Ok (p, tool') ->
  Argparse.print_help p = Ok tt ->
  flag = "-h" \/ flag = "--help" ->
  CLITool_call tool [flag] w = (Argparse.exit 0, tool', w)
  /\ CLITool_call tool' [flag] w = (Argparse.exit 0, tool', w).
Proof.
  intros tool Hp Hprint Hflag.
  destruct (tool_parser_head tool p tool' eq_refl Hp) as [-> (rest & Hacts)].
  assert (Hcached : CLITool_parser (set_parser tool p)
                    = Ok (p, set_parser tool p)) by reflexivity.
  pose proof (parse_help p rest flag Hacts Hprint Hflag) as Hparse.
  split; unfold CLITool_call.
  - rewrite Hp, Hparse. reflexivity.
  - rewrite Hcached, Hparse. reflexivity.
Qed.

End HelpOption.

(** The theorem at [def copy(src, dst)]: the two positionals are not
    asked for. *)
Lemma tool_help_option_witness :
  let f := mkFunc ["src"; "dst"] [] None None false None
                  (fun env w => (Ok (VDict env), w)) in
  fst (fst (CLITool_call (rt := Example.runtime)
              (CLITool_init (rt := Example.runtime) f None None None false None) ["-h"]
              Example.world0))
  = Argparse.exit 0.
Proof.
  intros f.
  destruct (CLITool_parser (rt := Example.runtime)
              (CLITool_init (rt := Example.runtime) f None None None false None))
    as [[p tool']| |] eqn:E; [| vm_compute in E; discriminate ..].
  assert (Hprint : Argparse.print_help p = Ok tt).
  { vm_compute in E. injection E as <- _. reflexivity. }
  destruct (tool_help_option (rt := Example.runtime) f None None None false
              None p tool' "-h" Example.world0 E Hprint (or_introl eq_refl))
    as [H _].
  rewrite H. reflexivity.
Defined.

(** ** The namespace holds every parameter *)

Lemma keeps_refl (ns : OD.t pyval) : keeps ns ns.
Proof. intros k H. exact H. Qed.

Lemma keeps_trans (a b c : OD.t pyval) : keeps a b -> keeps b c -> keeps a c.
Proof. intros H1 H2 k H. auto. Qed.

Lemma keeps_set (k : string) (v : pyval) (ns : OD.t pyval) :
  keeps ns (OD.set k v ns).
Proof.
  intros k' H. unfold OD.contains in *.
  destruct (String.eqb k' k) eqn:E.
  - apply string_eqb_true in E. subst k'. now rewrite od_get_set_same.
  - apply string_eqb_false in E. now rewrite od_get_set_other.
Qed.

Lemma dash_free_head (c : ascii) (n : string) :
  dash_free (String c n) = true ->
  Ascii.eqb c Argparse.dash = false /\ dash_free n = true.
Proof.
  unfold dash_free. cbn [Str.contains_char]. intros H.
  apply negb_true_iff, orb_false_iff in H as [Hc Hn].
  split; [exact Hc | now rewrite Hn].
Qed.

Lemma dash_to_underscore_free (n : string) :
  dash_free n = true -> Argparse.dash_to_underscore n = n.
Proof.
  induction n as [|c n IH]; intros H; [reflexivity |].
  apply dash_free_head in H as [Hc Hn]. cbn [Argparse.dash_to_underscore].
  now rewrite Hc, IH.
Qed.

Lemma lstrip_dash_free (n : string) :
  dash_free n = true -> Str.lstrip_by (Ascii.eqb Argparse.dash) n = n.
Proof.
  destruct n as [|c n]; intros H; [reflexivity |].
  apply dash_free_head in H as [Hc _]. cbn [Str.lstrip_by].
  rewrite Ascii.eqb_sym. now rewrite Hc.
Qed.

(** The destination of the flag of a name without dash is the name. *)
Lemma dest_argname (n : string) :
  dash_free n = true ->
  Argparse.dash_to_underscore
    (Str.lstrip_by (Ascii.eqb Argparse.dash) (argname n))
  = n.
Proof.
  intros H. unfold argname.
  destruct (String.length n =? 1)%nat; simpl;
    rewrite (lstrip_dash_free n H); now apply dash_to_underscore_free.
Qed.

Lemma has_dest_incl (p p' : Argparse.ArgumentParser) (k : string) :
  incl (Argparse.actions p) (Argparse.actions p') ->
  has_dest p k -> has_dest p' k.
Proof. intros Hincl (a & v & Ha & Hd & Hv). exists a, v. auto. Qed.

Lemma add_positional_dest (p p' : Argparse.ArgumentParser)
    (grp : option string) (n : string) (kw : Argparse.add_kwargs) :
  dash_free n = true ->
  Argparse.add_argument p grp n kw = Ok p' ->
  has_dest p' n.
Proof.
  intros Hn. unfold Argparse.add_argument.
  destruct n as [|c n]; [discriminate |].
  apply dash_free_head in Hn as [Hc _]. rewrite Hc. cbn [negb bind].
  match goal with |- context [if ?b then _ else _] => destruct b end;
    [discriminate |].
  intros H. injection H as <-. do 2 eexists.
  split; [cbn [Argparse.actions]; apply in_or_app; right; now left |].
  split; reflexivity.
Qed.

Lemma add_flag_dest (p p' : Argparse.ArgumentParser) (grp : option string)
    (n : string) (kw : Argparse.add_kwargs) :
  dash_free n = true ->
  Argparse.add_argument p grp (argname n) kw = Ok p' ->
  has_dest p' n.
Proof.
  intros Hn. pose proof (dest_argname n Hn) as Hdest.
  unfold Argparse.add_argument.
  assert (Hflag : exists rest, argname n = String Argparse.dash rest).
  { unfold argname. destruct (String.length n =? 1)%nat; simpl; eauto. }
  destruct Hflag as (rest & Hflag). rewrite Hflag in *.
  unfold Argparse.dash at 1. rewrite Ascii.eqb_refl. cbn [negb].
  destruct (Str.lstrip_by _ _) eqn:El; [discriminate |]. cbn [bind].
  match goal with |- context [if ?b then _ else _] => destruct b end;
    [discriminate |].
  intros H. injection H as <-. do 2 eexists.
  split; [cbn [Argparse.actions]; apply in_or_app; right; now left |].
  split; [cbn [Argparse.dest]; f_equal; exact Hdest | reflexivity].
Qed.

Section Registered.

Variable grp : option string.
Variable helps : option (OD.t string).

Lemma add_required_dests (required : list string) :
  forall p p',
    add_required grp helps p required = Ok p' ->
    forall n, In n required -> n <> "self" -> dash_free n = true ->
              has_dest p' n.
Proof.
  induction required as [|arg rest IH]; intros p p' H n Hin Hself Hfree;
    [contradiction |].
  simpl in H. destruct (String.eqb arg "self") eqn:Es.
  - apply string_eqb_true in Es. subst arg.
    destruct Hin as [<- | Hin]; [contradiction | eauto].
  - destruct (Argparse.add_argument p grp arg _) as [p1| |] eqn:E;
      cbn [bind] in H; try discriminate.
    destruct Hin as [<- | Hin]; [| eauto].
    eapply has_dest_incl;
      [eapply add_required_keeps; exact H
      | eapply add_positional_dest; eauto].
Qed.

Lemma add_optional_dests (optional : list (string * pyval)) :
  forall p p',
    add_optional grp helps p optional = Ok p' ->
    forall n, In n (map fst optional) -> dash_free n = true -> has_dest p' n.
Proof.
  induction optional as [|[m d] rest IH]; intros p p' H n Hin Hfree;
    [contradiction |].
  simpl in H.
  destruct (Argparse.add_argument p grp (argname m) _) as [p1| |] eqn:E;
    cbn [bind] in H; try discriminate.
  destruct Hin as [<- | Hin]; [| eauto].
  eapply has_dest_incl;
    [apply (add_optional_registers grp helps rest p1 p' H)
    | eapply add_flag_dest; eauto].
Qed.

(** After [_config_parser] every declared parameter has its action. *)
Lemma config_parser_dests (p p' : Argparse.ArgumentParser) (f : pyfunc) :
  _config_parser p f helps grp = Ok p' ->
  forall n,
    In n (fn_required f ++ map fst (fn_optional f)) ->
    n <> "self" -> dash_free n = true -> has_dest p' n.
Proof.
  unfold _config_parser, config_parser_body.
  rewrite required_of_spec, optional_of_spec.
  destruct (add_required grp helps p _) as [p1| |] eqn:E1; cbn [bind];
    try discriminate.
  destruct (add_optional grp helps p1 _) as [p2| |] eqn:E2; cbn [bind];
    try discriminate.
  intros Hrest n Hin Hself Hfree.
  assert (H2 : has_dest p2 n).
  { apply in_app_or in Hin as [Hin | Hin].
    - eapply has_dest_incl;
        [apply (add_optional_registers grp helps _ p1 p2 E2)
        | eapply add_required_dests; eauto].
    - eapply add_optional_dests; eauto. }
  eapply has_dest_incl; [| exact H2].
  destruct (name_truthy (spec_varargs (getfullargspec f))) as [va|].
  - destruct (Argparse.add_argument p2 grp va _) as [p3| |] eqn:E3;
      cbn [bind] in Hrest; try discriminate.
    apply add_argument_keeps in E3.
    destruct (name_truthy (spec_varkw (getfullargspec f))) as [kw|].
    + apply add_argument_keeps in Hrest. eapply incl_tran; eauto.
    + injection Hrest as <-. exact E3.
  - cbn [bind] in Hrest.
    destruct (name_truthy (spec_varkw (getfullargspec f))) as [kw|].
    + eapply add_argument_keeps; eauto.
    + injection Hrest as <-. apply incl_refl.
Qed.

End Registered.

Lemma find_default_some (k : string) (acts : list Argparse.action)
    (a : Argparse.action) (v : pyval) :
  In a acts -> Argparse.dest a = Some k -> Argparse.default a = Some v ->
  exists v', find_default k acts = Some v'.
Proof.
  induction acts as [|b acts IH]; intros Hin Hd Hv; [contradiction |].
  cbn [find_default].
  destruct Hin as [-> | Hin].
  - rewrite Hd, Hv, String.eqb_refl. eauto.
  - destruct (Argparse.dest b) as [d|]; [| auto].
    destruct (Argparse.default b) as [vb|]; [| auto].
    destruct (String.eqb k d); eauto.
Qed.

Section KeysKept.

Context {rt : Runtime}.

Lemma take_action_keeps (p : Argparse.ArgumentParser) (i : nat)
    (a : Argparse.action) (arg_strings : list string)
    (st st' : Argparse.pstate) :
  Argparse.take_action p i a arg_strings st = Ok st' ->
  keeps (Argparse.namespace st) (Argparse.namespace st').
Proof.
  unfold Argparse.take_action.
  destruct (Argparse.get_values a arg_strings) as [values| |]; cbn [bind];
    try discriminate.
  destruct (Argparse.kind a);
    [| destruct (Argparse.print_help p); discriminate].
  intros H. injection H as <-. cbn [Argparse.namespace].
  destruct (Argparse.dest a); [apply keeps_set | apply keeps_refl].
Qed.

Lemma take_positionals_keeps (p : Argparse.ArgumentParser)
    (arg_strings : list string)
    (todo : list (nat * Argparse.action * nat)) :
  forall start st st' stop,
    Argparse.take_positionals p arg_strings todo start st = Ok (st', stop) ->
    keeps (Argparse.namespace st) (Argparse.namespace st').
Proof.
  induction todo as [|[[i a] count] todo IH]; intros start st st' stop;
    cbn [Argparse.take_positionals].
  - intros H. injection H as <- _. apply keeps_refl.
  - destruct (Argparse.take_action p i a _ st) as [st1| |] eqn:E;
      cbn [bind]; try discriminate.
    intros H. apply IH in H. apply take_action_keeps in E.
    eapply keeps_trans; eauto.
Qed.

Lemma consume_positionals_keeps (p : Argparse.ArgumentParser)
    (arg_strings : list string)
    (pattern : list (option (option nat * string * option string)))
    (start : nat) (st st' : Argparse.pstate) (stop : nat) :
  Argparse.consume_positionals p arg_strings pattern start st
  = Ok (st', stop) ->
  keeps (Argparse.namespace st) (Argparse.namespace st').
Proof.
  unfold Argparse.consume_positionals.
  destruct (Argparse.take_positionals p arg_strings _ start st)
    as [[st1 s1]| |] eqn:E; cbn [bind]; try discriminate.
  intros H. injection H as <- _. cbn [Argparse.namespace].
  eapply take_positionals_keeps. exact E.
Qed.

Lemma consume_optional_keeps (p : Argparse.ArgumentParser)
    (arg_strings : list string)
    (pattern : list (option (option nat * string * option string)))
    (start : nat) (st st' : Argparse.pstate) (stop : nat) :
  Argparse.consume_optional p arg_strings pattern start st = Ok (st', stop) ->
  keeps (Argparse.namespace st) (Argparse.namespace st').
Proof.
  unfold Argparse.consume_optional.
  destruct (nth_error pattern start) as [[[[[i|] o] e]|]|];
    try discriminate.
  - destruct (nth_error (Argparse.actions p) i) as [a|]; [| discriminate].
    destruct e as [e|].
    + destruct (Argparse.match_nargs [Argparse.act_nargs a] 1)
        as [[|[|[|n]] [|c l]]|]; try discriminate.
      * destruct o as [|c0 [|c1 o]]; try discriminate.
        destruct (Ascii.eqb c1 Argparse.dash); discriminate.
      * destruct (Argparse.take_action p i a [e] st) as [st1| |] eqn:E;
          cbn [bind]; try discriminate.
        intros H. injection H as <- _. eapply take_action_keeps. exact E.
    + destruct (Argparse.match_nargs _ _) as [[|count [|c l]]|];
        try discriminate.
      destruct (Argparse.take_action p i a _ st) as [st1| |] eqn:E;
        cbn [bind]; try discriminate.
      intros H. injection H as <- _. eapply take_action_keeps. exact E.
  - intros H. injection H as <- _. apply keeps_refl.
Qed.

Lemma main_loop_keeps (p : Argparse.ArgumentParser)
    (arg_strings : list string)
    (pattern : list (option (option nat * string * option string)))
    (fuel : nat) :
  forall start st st' stop,
    Argparse.main_loop p arg_strings pattern fuel start st = Ok (st', stop) ->
    keeps (Argparse.namespace st) (Argparse.namespace st').
Proof.
  induction fuel as [|fuel IH]; intros start st st' stop;
    cbn [Argparse.main_loop]; [discriminate |].
  destruct (Argparse.next_option pattern start _) as [nx|];
    [| intros H; injection H as <- _; apply keeps_refl].
  assert (Hafter : forall st1 s1,
            (let '(st2, s2) :=
               match nth_error pattern s1 with
               | Some (Some _) => (st1, s1)
               | _ =>
                   (Argparse.add_extras
                      (Argparse.slice arg_strings s1 (nx - s1)) st1, nx)
               end in
             ('(st3, s3) <-
                Argparse.consume_optional p arg_strings pattern s2 st2 ;;
              Argparse.main_loop p arg_strings pattern fuel s3 st3)%result)
            = Ok (st', stop) ->
            keeps (Argparse.namespace st1) (Argparse.namespace st')).
  { intros st1 s1.
    destruct (nth_error pattern s1) as [[t|]|].
    - destruct (Argparse.consume_optional p arg_strings pattern s1 st1)
        as [[st3 s3]| |] eqn:E; cbn [bind]; try discriminate.
      intros H. apply IH in H. apply consume_optional_keeps in E.
      eapply keeps_trans; eauto.
    - destruct (Argparse.consume_optional p arg_strings pattern nx _)
        as [[st3 s3]| |] eqn:E; cbn [bind]; try discriminate.
      intros H. apply IH in H. apply consume_optional_keeps in E.
      eapply keeps_trans; eauto.
    - destruct (Argparse.consume_optional p arg_strings pattern nx _)
        as [[st3 s3]| |] eqn:E; cbn [bind]; try discriminate.
      intros H. apply IH in H. apply consume_optional_keeps in E.
      eapply keeps_trans; eauto. }
  destruct (start =? nx)%nat; [apply Hafter |].
  destruct (Argparse.consume_positionals p arg_strings pattern start st)
    as [[st1 pe]| |] eqn:E; cbn [bind]; try discriminate.
  apply consume_positionals_keeps in E.
  destruct (start <? pe)%nat.
  - intros H. apply IH in H. eapply keeps_trans; eauto.
  - intros H. apply Hafter in H. eapply keeps_trans; eauto.
Qed.

Lemma finish_keeps (acts : list (nat * Argparse.action)) (seen : list nat) :
  forall ns ns',
    Argparse.finish acts seen ns = Ok ns' -> keeps ns ns'.
Proof.
  induction acts as [|[i a] acts IH]; intros ns ns'; cbn [Argparse.finish].
  - intros H. injection H as <-. apply keeps_refl.
  - destruct (existsb (Nat.eqb i) seen); [apply IH |].
    destruct (Argparse.required a); [discriminate |].
    destruct (Argparse.default a) as [[]|]; try apply IH.
    destruct (Argparse.dest a) as [d|]; [| apply IH].
    destruct (OD.get d ns) as [[]|]; try apply IH.
    destruct (String.eqb _ _); [| apply IH].
    destruct (Argparse.get_value a _) as [v| |]; cbn [bind];
      try discriminate.
    intros H. apply IH in H.
    eapply keeps_trans; [apply keeps_set | exact H].
Qed.

(** Parsing only adds to the namespace that the defaults fill: every
    destination with a default is a key of the result. *)
Lemma parse_args_has_dests (p : Argparse.ArgumentParser)
    (tokens : list string) (ns : OD.t pyval) (k : string) :
  Argparse.parse_args p tokens = Ok ns ->
  has_dest p k -> OD.contains k ns = true.
Proof.
  unfold Argparse.parse_args, Argparse.parse_known_args.
  destruct (existsb Argparse.from_file tokens
            || existsb (String.eqb "--") tokens); [discriminate |].
  destruct (Argparse.classify p tokens) as [pattern| |]; cbn [bind];
    try discriminate.
  destruct (Argparse.main_loop p tokens pattern _ 0 _)
    as [[st1 s1]| |] eqn:E1; cbn [bind]; try discriminate.
  destruct (Argparse.consume_positionals p tokens pattern s1 st1)
    as [[st2 s2]| |] eqn:E2; cbn [bind]; try discriminate.
  destruct (Argparse.finish _ _ _) as [ns'| |] eqn:E3; cbn [bind];
    try discriminate.
  cbn [Argparse.add_extras Argparse.extras].
  destruct (Argparse.extras st2 ++ skipn s2 tokens); [| discriminate].
  intros H. injection H as <-.
  intros (a & v & Ha & Hd & Hv).
  apply main_loop_keeps in E1. apply consume_positionals_keeps in E2.
  apply finish_keeps in E3. cbn [Argparse.namespace] in *.
  apply E3, E2, E1. unfold OD.contains. rewrite get_initial. cbn [OD.get].
  destruct (find_default_some k _ a v Ha Hd Hv) as (v' & ->). reflexivity.
Qed.

(** In [CLITool.__call__] the mapping handed to [_getcallargs] holds every
    parameter.  When the parser of a new tool has been built and has
    parsed the tokens, every declared parameter of the function and of the
    logging manager whose name has no dash, as every identifier, is a key
    of the namespace, the optional ones that the command line does not
    mention among them; so [_getcallargs] never lacks a value
    there: when all the names are such, the only exception it can raise
    on that namespace is a [TypeError]. *)
Theorem call_namespace_holds_parameters (f : pyfunc) (lbl dsc : option string)
    (helps : option (OD.t string)) (parse : bool) (logm : option pyfunc)
    (p : Argparse.ArgumentParser) (tool' : CLITool) (tokens : list string)
    (ns : OD.t pyval) :
  let tool := CLITool_init f lbl dsc helps parse logm in
  CLITool_parser tool = Ok (p, tool') ->
  Argparse.parse_args p tokens = Ok ns ->
  (forall g n,
     g = f \/ g = logmngr tool ->
     In n (fn_required g ++ map fst (fn_optional g)) ->
     n <> "self" -> dash_free n = true ->
     OD.contains n ns = true)
  /\ (forall g,
        g = f \/ g = logmngr tool ->
        forallb dash_free (fn_required g ++ map fst (fn_optional g)) = true ->
        forall e, _getcallargs g ns = Raise e -> exc_type e = TypeError).
Proof.
  intros tool Hp Hparse.
  assert (Hdests : forall g n,
            g = f \/ g = logmngr tool ->
            In n (fn_required g ++ map fst (fn_optional g)) ->
            n <> "self" -> dash_free n = true -> has_dest p n).
  { unfold CLITool_parser in Hp.
    cbn [tool CLITool_init _parser] in Hp.
    match type of Hp with
    | (bind ?prelude _) = _ =>
        destruct prelude as [[[l d] fh]| |]; cbn [bind] in Hp;
        try discriminate
    end.
    destruct (_config_parser (Argparse.new l d true) _ fh None)
      as [p1| |] eqn:E1; cbn [bind] in Hp; try discriminate.
    destruct (parse_doc_of _) as [parsed| |]; cbn [bind] in Hp;
      try discriminate.
    destruct (docargs_of parsed) as [fh'| |]; cbn [bind] in Hp;
      try discriminate.
    destruct (_config_parser p1 _ fh' _) as [p2| |] eqn:E2;
      cbn [bind] in Hp; try discriminate.
    injection Hp as <- _.
    intros g n [-> | ->] Hin Hself Hfree.
    - eapply has_dest_incl;
        [apply (config_parser_registers _ _ _ _ _ E2)
        | eapply config_parser_dests; eauto].
    - eapply config_parser_dests; eauto. }
  assert (Hkeys : forall g n,
            g = f \/ g = logmngr tool ->
            In n (fn_required g ++ map fst (fn_optional g)) ->
            n <> "self" -> dash_free n = true ->
            OD.contains n ns = true).
  { intros g n Hg Hin Hself Hfree.
    eapply parse_args_has_dests; eauto. }
  split; [exact Hkeys |].
  intros g Hg Hfree e. unfold _getcallargs.
  destruct (OD.contains "func" ns);
    [intros H; injection H as <-; reflexivity |].
  cbn [getfullargspec spec_args spec_varargs spec_varkw].
  assert (Hcollect : exists funcargs,
            collect_named ns
              (map (fun nd => VTuple [VStr (fst nd); snd nd])
                   (optional_of (getfullargspec g)))
              (fn_required g ++ map fst (fn_optional g)) []
            = Ok funcargs).
  { assert (Hall : forall n,
              In n (fn_required g ++ map fst (fn_optional g)) ->
              n = "self" \/ OD.contains n ns = true).
    { intros n Hn. destruct (String.eqb n "self") eqn:Es.
      - left. now apply string_eqb_true.
      - right. apply (Hkeys g n Hg Hn).
        + now apply string_eqb_false.
        + rewrite forallb_forall in Hfree. now apply Hfree. }
    destruct (collect_named_skips ns
                (map (fun nd => VTuple [VStr (fst nd); snd nd])
                     (optional_of (getfullargspec g)))
                _ [] Hall []) as (acc & Hc).
    rewrite app_nil_r in Hc. rewrite Hc. cbn [collect_named]. eauto. }
  destruct Hcollect as (funcargs & ->). cbn [bind].
  destruct (name_truthy (fn_varargs g)) as [va|].
  - destruct (OD.get va ns) as [[]|]; cbn [bind];
      try (intros H; injection H as <-; reflexivity);
      (destruct (name_truthy (fn_varkw g)) as [kw|];
       [destruct (OD.get kw ns) as [[]|]; cbn [bind];
        try discriminate; intros H; injection H as <-; reflexivity
       | discriminate]).
  - cbn [bind]. destruct (name_truthy (fn_varkw g)) as [kw|];
      [destruct (OD.get kw ns) as [[]|]; cbn [bind];
       try discriminate; intros H; injection H as <-; reflexivity
      | discriminate].
Qed.

End KeysKept.

(** The theorem at [def f(a, b=5)] and the token [x]: the parameter [b],
    which the command line does not mention, is a key of the namespace. *)
Lemma call_namespace_holds_parameters_witness :
  let f := mkFunc ["a"] [("b", VInt 5)] None None false None
                  (fun _ w => (Ok VNone, w)) in
  exists p tool' ns,
    CLITool_parser (rt := Example.runtime)
      (CLITool_init (rt := Example.runtime) f None None None false None)
    = Ok (p, tool')
    /\ Argparse.parse_args (rt := Example.runtime) p ["x"] = Ok ns
    /\ OD.contains "b" ns = true.
Proof.
  intros f.
  destruct (CLITool_parser (rt := Example.runtime)
              (CLITool_init (rt := Example.runtime) f None None None false None))
    as [[p tool']| |] eqn:E; [| vm_compute in E; discriminate ..].
  pose proof E as E'. vm_compute in E'. injection E' as Hp Ht.
  subst p tool'.
  match goal with
  | |- exists p tool' ns, Ok (?P, ?T) = _ /\ _ =>
      destruct (Argparse.parse_args (rt := Example.runtime) P ["x"])
        as [ns| |] eqn:E2; [| vm_compute in E2; discriminate ..];
      exists P, T, ns
  end.
  split; [reflexivity |]. split; [exact E2 |].
  apply (proj1 (call_namespace_holds_parameters (rt := Example.runtime)
                  f None None None false None _ _ ["x"] ns E E2) f "b").
  - now left.
  - simpl. auto.
  - discriminate.
  - reflexivity.
Defined.

(** ** The description of a [CLITool] command *)

(** For an instance of [CLITool], [inspect.getdoc] gives the docstring of
    the class.  A tool registered with [parse_doc] and no description of
    its own is therefore listed under the summary of that docstring,
    whatever function it wraps and whatever label and description it was
    built with. *)
Theorem add_command_tool_docstring {rt : Runtime} (self : Toolbox.t)
    (tool : CLITool) (name : string) (d : option string) :
  Str.contains_char " "%char name = false ->
  name_truthy d = None ->
  Toolbox.add_command self (ToolCommand tool) name d true
  = (Ok tt,
     Toolbox.mk (Toolbox.description self) None
       (Toolbox._commands self
        ++ [(ToolCommand tool, name,
             Some "Create CLI interface for the supplied function or callable object.")])).
Proof.
  intros Hname Hd. unfold Toolbox.add_command. rewrite Hname, Hd.
  assert (Hdoc : exists parsed,
            parse_doc_of (getdoc (ToolCommand tool)) = Ok parsed
            /\ Toolbox.opt_or (summary parsed) (doc_description parsed)
               = Some "Create CLI interface for the supplied function or callable object.").
  { destruct rt as [plat pint pfloat pdate ploads].
    destruct plat; eexists; split; vm_compute; reflexivity. }
  destruct Hdoc as (parsed & -> & Hsum). cbn [bind]. now rewrite Hsum.
Qed.

(** The theorem on a tool that wraps a documented function. *)
Lemma add_command_tool_docstring_witness :
  let f := mkFunc ["path"] [] None None false (Some "Count the lines.")
                  (fun _ w => (Ok VNone, w)) in
  let tool := CLITool_init (rt := Example.runtime) f (Some "wc") None None true None in
  Toolbox._commands
    (snd (Toolbox.add_command (rt := Example.runtime) (Toolbox.init None)
            (ToolCommand tool) "wc" None true))
  = [(ToolCommand tool, "wc",
      Some "Create CLI interface for the supplied function or callable object.")].
Proof.
  intros f tool.
  rewrite (add_command_tool_docstring (rt := Example.runtime)
             (Toolbox.init None) tool "wc" None eq_refl eq_refl).
  reflexivity.
Defined.

(** ** A variadic function, from the tokens to the call *)

Section Variadic.

Context {rt : Runtime}.

Variable helps : option (OD.t string).

Lemma add_variadic (p : Argparse.ArgumentParser) (va : string) :
  plain_name va = true ->
  Argparse.add_argument p None va
    (Argparse.mkKwargs None (help_for helps va) None
       Argparse.NargsZeroOrMore None)
  = Ok (Argparse.mkParser (Argparse.parser_description p)
          (Argparse.parser_epilog p)
          (Argparse.actions p ++ [variadic_for helps va])
          (Argparse.has_negative_number_optionals p)).
Proof.
  intros Hplain. unfold Argparse.add_argument, plain_name in *.
  destruct va as [|c rest]; [discriminate |].
  unfold Argparse.dash. rewrite Hplain.
  cbn [bind Argparse.kw_nargs Argparse.kw_default Argparse.kw_type
       Argparse.kw_choices Argparse.kw_help Argparse.option_strings existsb].
  now rewrite orb_false_r.
Qed.

Lemma no_flag_in_variadic (o : string) (names : list string) (va : string) :
  existsb (fun a => Str.mem o (Argparse.option_strings a))
          (map (positional_for helps) names ++ [variadic_for helps va])
  = false.
Proof.
  rewrite existsb_app, no_flag_in_positionals. reflexivity.
Qed.

(** The parser of a tool whose function has required parameters and a
    var-positional one. *)
Lemma tool_parser_variadic (f : pyfunc) (lbl dsc : option string)
    (va : string) :
  fn_optional f = [] -> fn_varargs f = Some va -> fn_varkw f = None ->
  plain_name va = true ->
  (forall n, In n (fn_required f) -> plain_name n = true /\ n <> "self") ->
  let tool := CLITool_init f lbl dsc helps false None in
  exists h1 h2 h3,
    let p :=
      Argparse.mkParser lbl (str_or dsc lbl)
        (Argparse.help_action
         :: (map (positional_for helps) (fn_required f)
             ++ [variadic_for helps va])
         ++ [logging_option "logfile" VNone h1;
             logging_option "logwrite" VNone h2;
             logging_option "loglevel" (VInt 20) h3])
        false in
    CLITool_parser tool = Ok (p, set_parser tool p).
Proof.
  intros Hopt Hva Hkw Hplain Hnames tool.
  assert (Hdoc : exists parsed fh,
            parse_doc_of (fn_doc config_logging) = Ok parsed
            /\ docargs_of parsed = Ok fh).
  { destruct rt as [plat pint pfloat pdate ploads].
    destruct plat; do 2 eexists; split; vm_compute; reflexivity. }
  destruct Hdoc as (parsed & fh & Hparsed & Hfh).
  assert (Htruthy : name_truthy (Some va) = Some va).
  { unfold name_truthy. destruct va; [discriminate | reflexivity]. }
  exists (help_for fh "logfile"), (help_for fh "logwrite"),
         (help_for fh "loglevel").
  intros p. unfold CLITool_parser. subst tool.
  cbn [CLITool_init _parser parse_doc label tool_description
       func_help func logmngr bind].
  unfold _config_parser at 1. unfold config_parser_body.
  rewrite required_of_spec, optional_of_spec, Hopt.
  cbn [getfullargspec spec_varargs spec_varkw add_optional].
  rewrite Hva, Hkw, Htruthy. cbn [name_truthy].
  rewrite (add_required_plain helps _ Hnames). cbn [bind].
  rewrite (add_variadic _ va Hplain). cbn [bind].
  rewrite Hparsed. cbn [bind]. rewrite Hfh. cbn [bind].
  unfold _config_parser, config_parser_body.
  rewrite required_of_spec, optional_of_spec.
  cbn [config_logging fn_required fn_optional fn_varargs fn_varkw
       getfullargspec spec_varargs spec_varkw name_truthy add_required
       add_optional bind Argparse.new Argparse.parser_description
       Argparse.parser_epilog Argparse.actions
       Argparse.has_negative_number_optionals app].
  rewrite add_logging_option;
    [| simpl; auto
     | unfold Argparse.option_table; rewrite option_table_contains;
       cbn [Argparse.actions existsb]; rewrite no_flag_in_variadic;
       reflexivity].
  cbn [bind Argparse.parser_description Argparse.parser_epilog
       Argparse.actions Argparse.has_negative_number_optionals].
  rewrite add_logging_option;
    [| simpl; auto
     | unfold Argparse.option_table; rewrite option_table_contains;
       cbn [Argparse.actions app existsb]; rewrite existsb_app,
         no_flag_in_variadic; reflexivity].
  cbn [bind Argparse.parser_description Argparse.parser_epilog
       Argparse.actions Argparse.has_negative_number_optionals].
  rewrite add_logging_option;
    [| simpl; auto
     | unfold Argparse.option_table; rewrite option_table_contains;
       cbn [Argparse.actions app existsb]; do 2 rewrite existsb_app;
       rewrite no_flag_in_variadic; reflexivity].
  cbn [bind Argparse.parser_description Argparse.parser_epilog
       Argparse.actions Argparse.has_negative_number_optionals].
  subst p. cbn [app]. rewrite <- !app_assoc. reflexivity.
Qed.

(** *** The match of the positionals *)

Lemma match_nargs_variadic (k : nat) :
  forall avail,
    Argparse.match_nargs
      (repeat Argparse.NargsNone k ++ [Argparse.NargsZeroOrMore]) avail
    = if (k <=? avail)%nat then Some (repeat 1 k ++ [avail - k]) else None.
Proof.
  induction k as [|k IH]; intros avail.
  - cbn [repeat app Nat.leb]. rewrite Nat.sub_0_r.
    destruct avail as [|avail]; cbn; reflexivity.
  - cbn [repeat app Argparse.match_nargs]. rewrite IH.
    destruct avail as [|avail]; [reflexivity |].
    cbn [Nat.leb]. rewrite Nat.sub_1_r. cbn [Nat.pred Nat.sub].
    destruct (k <=? avail)%nat; reflexivity.
Qed.

Lemma match_partial_prefix (n avail : nat) (tail : list Argparse.nargs) :
  forall i,
    i <= n ->
    Argparse.match_partial (repeat Argparse.NargsNone n ++ tail) i avail
    = repeat 1 (Nat.min i avail).
Proof.
  induction i as [|i IH]; intros Hi; [reflexivity |].
  cbn [Argparse.match_partial].
  rewrite firstn_app, repeat_length.
  replace (S i - n) with 0 by lia.
  change (firstn 0 tail) with (@nil Argparse.nargs). rewrite app_nil_r.
  rewrite firstn_repeat_min by exact Hi. rewrite match_nargs_none.
  destruct (Nat.leb_spec (S i) avail) as [Hle | Hlt].
  - now rewrite Nat.min_l by exact Hle.
  - rewrite IH by lia.
    replace (Nat.min (S i) avail) with (Nat.min i avail) by lia.
    reflexivity.
Qed.

Lemma match_partial_variadic (n avail : nat) :
  Argparse.match_partial
    (repeat Argparse.NargsNone n ++ [Argparse.NargsZeroOrMore]) (n + 1) avail
  = if (n <=? avail)%nat then repeat 1 n ++ [avail - n]
    else repeat 1 avail.
Proof.
  rewrite Nat.add_1_r. cbn [Argparse.match_partial].
  rewrite firstn_all2 by (rewrite length_app, repeat_length; simpl; lia).
  rewrite match_nargs_variadic.
  destruct (Nat.leb_spec n avail) as [Hle | Hlt]; [reflexivity |].
  rewrite match_partial_prefix by lia. now rewrite Nat.min_r by lia.
Qed.

(** *** The positionals take the tokens, the last one those that are left *)

Lemma take_positionals_app (q : Argparse.ArgumentParser)
    (arg_strings : list string)
    (t1 : list (nat * Argparse.action * nat)) :
  forall t2 start st,
    Argparse.take_positionals q arg_strings (t1 ++ t2) start st
    = ('(st1, s1) <- Argparse.take_positionals q arg_strings t1 start st ;;
       Argparse.take_positionals q arg_strings t2 s1 st1)%result.
Proof.
  induction t1 as [|[[i a] count] t1 IH]; intros t2 start st;
    [reflexivity |].
  cbn [app Argparse.take_positionals].
  destruct (Argparse.take_action q i a _ st) as [st1| |]; cbn [bind];
    [apply IH | reflexivity | reflexivity].
Qed.

Lemma combine_app_same {A B : Type} (l1 : list A) :
  forall (l1' : list B) l2 l2',
    List.length l1 = List.length l1' ->
    combine (l1 ++ l2) (l1' ++ l2') = combine l1 l1' ++ combine l2 l2'.
Proof.
  induction l1 as [|a l1 IH]; intros l1' l2 l2' H;
    destruct l1' as [|b l1']; try discriminate; [reflexivity |].
  simpl. rewrite IH by (simpl in H; lia). reflexivity.
Qed.

Lemma indexed_from_length {A : Type} (l : list A) :
  forall i, List.length (Argparse.indexed_from i l) = List.length l.
Proof. induction l as [|a l IH]; intros i; simpl; auto. Qed.

Lemma get_value_each_plain (a : Argparse.action) (toks : list string) :
  Argparse.type_ a = None ->
  Argparse.get_value_each a toks = Ok (map VStr toks).
Proof.
  intros Ht. induction toks as [|t toks IH]; [reflexivity |].
  cbn [Argparse.get_value_each]. unfold Argparse.get_value at 1.
  rewrite Ht. cbn [Argparse.convert bind]. rewrite IH. reflexivity.
Qed.

Lemma check_value_each_free (a : Argparse.action) (vs : list pyval) :
  Argparse.choices a = None ->
  Argparse.check_value_each a vs = Ok tt.
Proof.
  intros Hc. induction vs as [|v vs IH]; [reflexivity |].
  cbn [Argparse.check_value_each]. unfold Argparse.check_value at 1.
  rewrite Hc. cbn [bind]. exact IH.
Qed.

Lemma get_values_variadic (va : string) (toks : list string) :
  Argparse.get_values (variadic_for helps va) toks
  = Ok (VList (map VStr toks)).
Proof.
  destruct toks as [|t [|t' toks]]; [reflexivity | reflexivity |].
  unfold Argparse.get_values.
  cbn [variadic_for Argparse.act_nargs Argparse.option_strings].
  rewrite get_value_each_plain by reflexivity. cbn [bind].
  rewrite check_value_each_free by reflexivity. reflexivity.
Qed.

Lemma take_action_variadic (q : Argparse.ArgumentParser) (i : nat)
    (va : string) (toks : list string) (st : Argparse.pstate) :
  Argparse.take_action q i (variadic_for helps va) toks st
  = Ok (Argparse.mkState
          (OD.set va (VList (map VStr toks)) (Argparse.namespace st))
          (i :: Argparse.seen_actions st) (Argparse.positionals st)
          (Argparse.extras st)).
Proof.
  unfold Argparse.take_action. rewrite get_values_variadic. reflexivity.
Qed.

Lemma consume_variadic (q : Argparse.ArgumentParser)
    (tokens names : list string) (va : string) (i0 : nat)
    (st : Argparse.pstate) :
  Argparse.positionals st
  = Argparse.indexed_from i0
      (map (positional_for helps) names ++ [variadic_for helps va]) ->
  let n := List.length names in
  let m := List.length tokens in
  Argparse.consume_positionals q tokens (repeat None m) 0 st
  = if (n <=? m)%nat then
      Ok (Argparse.mkState
            (OD.set va (VList (map VStr (skipn n tokens)))
               (fold_left (fun ns nt => OD.set (fst nt) (VStr (snd nt)) ns)
                          (combine names tokens) (Argparse.namespace st)))
            ((i0 + n) :: rev (seq i0 n) ++ Argparse.seen_actions st)
            (skipn (n + 1) (Argparse.positionals st)) (Argparse.extras st),
          m)
    else
      Ok (Argparse.mkState
            (fold_left (fun ns nt => OD.set (fst nt) (VStr (snd nt)) ns)
                       (combine names tokens) (Argparse.namespace st))
            (rev (seq i0 m) ++ Argparse.seen_actions st)
            (skipn m (Argparse.positionals st)) (Argparse.extras st),
          m).
Proof.
  intros Hpos n m. unfold Argparse.consume_positionals.
  rewrite Hpos, indexed_from_app, map_app, positionals_nargs.
  cbn [Argparse.indexed_from map snd variadic_for Argparse.act_nargs].
  rewrite length_app, repeat_length. cbn [List.length skipn].
  rewrite leading_values_repeat, length_map. fold n m.
  rewrite match_partial_variadic.
  destruct (Nat.leb_spec n m) as [Hle | Hlt].
  - rewrite combine_app_same
      by (rewrite indexed_from_length, length_map, repeat_length;
          reflexivity).
    rewrite combine_repeat.
    rewrite firstn_all2 by (rewrite indexed_from_length, length_map; subst n;
                            lia).
    cbn [combine]. rewrite take_positionals_app.
    rewrite (take_positionals_plain helps q tokens names (firstn n tokens)
               (skipn n tokens) i0 0 st).
    + cbn [bind Argparse.take_positionals]. unfold Argparse.slice.
      fold n. cbn [Nat.add].
      rewrite (firstn_all2 (n := m - n)) by (rewrite length_skipn; subst m; lia).
      rewrite take_action_variadic.
      cbn [bind Argparse.namespace Argparse.seen_actions Argparse.positionals
           Argparse.extras].
      rewrite length_app, repeat_length. cbn [List.length].
      replace (n + (m - n)) with m by lia.
      replace (combine names (firstn n tokens)) with (combine names tokens).
      * rewrite Hpos, indexed_from_app, length_map. reflexivity.
      * rewrite <- (combine_firstn_min names tokens). fold n m.
        rewrite Nat.min_l by exact Hle.
        rewrite (firstn_all2 (n := n) names) by (subst n; lia).
        reflexivity.
    + rewrite length_firstn. subst n m. lia.
    + cbn [skipn]. symmetry. apply firstn_skipn.
  - rewrite combine_repeat.
    rewrite firstn_app, indexed_from_length, length_map. fold n.
    replace (m - n) with 0 by lia.
    change (firstn 0 (Argparse.indexed_from (i0 + n) [variadic_for helps va]))
      with (@nil (nat * Argparse.action)).
    rewrite app_nil_r, indexed_from_firstn, firstn_map.
    rewrite (take_positionals_plain helps q tokens (firstn m names) tokens []
               i0 0 st).
    + cbn [bind Argparse.namespace Argparse.seen_actions Argparse.positionals
           Argparse.extras].
      rewrite repeat_length.
      assert (Hk : List.length (firstn m names) = m)
        by (rewrite length_firstn; subst n; lia).
      rewrite Hk.
      replace (combine (firstn m names) tokens) with (combine names tokens).
      * rewrite Hpos, indexed_from_app, length_map. reflexivity.
      * rewrite <- (combine_firstn_min names tokens). fold n m.
        rewrite Nat.min_r by lia.
        rewrite (firstn_all2 (n := m) tokens) by (subst m; lia).
        reflexivity.
    + rewrite length_firstn. subst n m. lia.
    + cbn [skipn]. now rewrite app_nil_r.
Qed.

(** *** The parse, the namespace and the call *)

Lemma variadic_kept (names : list string) (va : string) (i : nat) :
  filter (fun ia : nat * Argparse.action =>
            match Argparse.option_strings (snd ia) with
            | [] => true
            | _ :: _ => false
            end)
         (Argparse.indexed_from i
            (map (positional_for helps) names ++ [variadic_for helps va]))
  = Argparse.indexed_from i
      (map (positional_for helps) names ++ [variadic_for helps va]).
Proof.
  rewrite indexed_from_app, filter_app, positionals_kept. reflexivity.
Qed.

Lemma all_seen_under (x a n : nat) (seen : list nat) :
  forallb (fun i => existsb (Nat.eqb i) (x :: rev (seq a n) ++ seen))
          (seq a n)
  = true.
Proof.
  apply forallb_forall. intros i Hi. apply in_seq in Hi.
  cbn [existsb]. rewrite seen_range by exact Hi. apply orb_true_r.
Qed.

Lemma combine_firstn_l {A B : Type} (l : list A) :
  forall l' : list B, combine l (firstn (List.length l) l') = combine l l'.
Proof.
  induction l as [|a l IH]; intros l'; [reflexivity |].
  destruct l' as [|b l']; [reflexivity |]. simpl. now rewrite IH.
Qed.

Lemma finish_seen_head (i : nat) (a : Argparse.action)
    (rest : list (nat * Argparse.action)) (seen : list nat)
    (ns : OD.t pyval) :
  existsb (Nat.eqb i) seen = true ->
  Argparse.finish ((i, a) :: rest) seen ns = Argparse.finish rest seen ns.
Proof. intros H. cbn [Argparse.finish]. now rewrite H. Qed.

(** On plain tokens the parser of such a tool gives each parameter one
    token and the var-positional one those that are left: it returns
    when there are at least as many tokens as parameters. *)
Lemma parse_variadic (names : list string) (va : string)
    (tokens : list string) (lbl dsc : option string)
    (h1 h2 h3 : option string) :
  forallb plain tokens = true ->
  let p :=
    Argparse.mkParser lbl dsc
      (Argparse.help_action
       :: (map (positional_for helps) names ++ [variadic_for helps va])
       ++ [logging_option "logfile" VNone h1;
           logging_option "logwrite" VNone h2;
           logging_option "loglevel" (VInt 20) h3])
      false in
  Argparse.parse_args p tokens
  = if (List.length names <=? List.length tokens)%nat
    then Ok (OD.set va
               (VList (map VStr (skipn (List.length names) tokens)))
               (fold_left (fun ns nt => OD.set (fst nt) (VStr (snd nt)) ns)
                  (combine names tokens)
                  (Argparse.initial_namespace (Argparse.actions p) [])))
    else Argparse.exit 2.
Proof.
  intros Hp p. unfold Argparse.parse_args, Argparse.parse_known_args.
  rewrite (plain_not_special _ Hp), (classify_plain _ _ Hp), map_none_repeat.
  cbn [bind]. cbn [Argparse.main_loop].
  rewrite next_option_values. cbn [bind].
  set (ns0 := Argparse.initial_namespace (Argparse.actions p) []).
  assert (Hacts : exists i1 i2 i3,
            Argparse.indexed_from 0 (Argparse.actions p)
            = (0, Argparse.help_action)
              :: Argparse.indexed_from 1
                   (map (positional_for helps) names
                    ++ [variadic_for helps va])
              ++ [(i1, logging_option "logfile" VNone h1);
                  (i2, logging_option "logwrite" VNone h2);
                  (i3, logging_option "loglevel" (VInt 20) h3)]).
  { subst p. cbn [Argparse.actions Argparse.indexed_from].
    rewrite (indexed_from_app
               (map (positional_for helps) names ++ [variadic_for helps va])).
    cbn [Argparse.indexed_from]. eauto. }
  destruct Hacts as (i1 & i2 & i3 & Hacts). rewrite Hacts.
  cbn [filter Argparse.help_action Argparse.option_strings snd].
  rewrite filter_app, variadic_kept.
  cbn [filter logging_option Argparse.option_strings snd]. rewrite app_nil_r.
  rewrite (consume_variadic p tokens names va 1) by reflexivity.
  destruct (Nat.leb_spec (List.length names) (List.length tokens))
    as [Hle | Hlt];
    cbn [bind Argparse.add_extras Argparse.namespace Argparse.seen_actions
         Argparse.positionals Argparse.extras app];
    cbn [Argparse.finish Argparse.help_action Argparse.required
         Argparse.default Argparse.dest].
  - cbn [existsb Nat.add].
    change (Nat.eqb 0 (S (List.length names))) with false. cbn [orb].
    rewrite unseen_range by lia.
    rewrite indexed_from_app, <- app_assoc, finish_positionals,
      all_seen_under.
    cbn [Argparse.indexed_from app].
    rewrite finish_seen_head
      by (rewrite length_map; cbn [existsb Nat.add];
          rewrite Nat.eqb_refl; reflexivity).
    rewrite finish_logging. cbn [bind]. rewrite skipn_all. reflexivity.
  - rewrite unseen_range by lia.
    rewrite indexed_from_app, <- app_assoc, finish_positionals, all_seen.
    destruct (Nat.leb_spec (List.length names) (List.length tokens));
      [lia | reflexivity].
Qed.

Lemma bind_positional_more (names : list string) :
  forall args : list pyval,
    List.length names <= List.length args ->
    bind_positional names args
    = (combine names args, skipn (List.length names) args).
Proof.
  induction names as [|n names IH]; intros args Hlen.
  - destruct args; reflexivity.
  - destruct args as [|a args]; [simpl in Hlen; lia |]. simpl.
    rewrite IH by (simpl in Hlen; lia). reflexivity.
Qed.

(** The call [f( *args )] of a variadic function. *)
Lemma call_variadic (f : pyfunc) (va : string) (args : list pyval)
    (w : world) :
  fn_optional f = [] -> fn_varargs f = Some va -> fn_varkw f = None ->
  fn_bound f = false ->
  NoDup (fn_required f) ->
  List.length (fn_required f) <= List.length args ->
  call f args [] w
  = fn_body f
      (combine (fn_required f) args
       ++ [(va, VTuple (skipn (List.length (fn_required f)) args))])
      w.
Proof.
  intros Hopt Hva Hkw Hb Hnd Hlen. unfold call, bind_arguments.
  rewrite Hopt, Hva, Hkw, Hb. cbn [map]. rewrite app_nil_r.
  rewrite bind_positional_more by exact Hlen.
  assert (Hextra : match skipn (List.length (fn_required f)) args,
                         Some va with
                   | _ :: _, None => @binding_error unit
                   | _, _ => Ok tt
                   end = Ok tt)
    by (destruct (skipn _ args); reflexivity).
  rewrite Hextra. cbn [bind bind_keywords].
  rewrite <- (combine_firstn_l (fn_required f) args).
  assert (Hn : List.length (firstn (List.length (fn_required f)) args)
               = List.length (fn_required f))
    by (rewrite length_firstn; lia).
  destruct (values_combine _ Hnd _ Hn) as [Hv Hin].
  rewrite bind_defaults_env
    by (intros n Hin'; apply od_contains_key, Hin, Hin').
  cbn [bind]. rewrite Hv, app_nil_r. reflexivity.
Qed.

(** A tool whose function has required parameters and a var-positional
    one hands every token to the function, the first ones to the
    parameters in order and those that are left, as a tuple, to the
    var-positional parameter, when the tokens start neither with a dash
    nor with [@] and are at least as many as the required parameters;
    with fewer tokens it leaves through the usage error of [argparse],
    [SystemExit(2)], and nothing is configured, run or logged.  The
    parameters, the var-positional one included, are distinct names that
    [add_argument] takes for a positional, and none is [self], which
    [_getcallargs] skips, [func], which is the parameter of [_getcallargs]
    itself, or one of the three logging options. *)
Theorem tool_call_variadic (f : pyfunc) (lbl dsc : option string)
    (va : string) (tokens : list string) (w : world) :
  fn_optional f = [] -> fn_varargs f = Some va -> fn_varkw f = None ->
  fn_bound f = false ->
  NoDup (fn_required f ++ [va]) ->
  (forall n, In n (fn_required f ++ [va]) ->
             plain_name n = true
             /\ ~ In n ["self"; "func"; "logfile"; "logwrite";
                        "loglevel"]) ->
  forallb plain (effective_tokens tokens w) = true ->
  let tool := CLITool_init f lbl dsc helps false None in
  let args := map VStr (effective_tokens tokens w) in
  let w1 := snd (config_logging_body logging_defaults w) in
  let out := CLITool_call tool tokens w in
  if (List.length (fn_required f)
      <=? List.length (effective_tokens tokens w))%nat
  then
    fst (fst out) = fst (execute tool args [] w1)
    /\ snd out
       = match fst (execute tool args [] w1) with
         | Ok _ => emit EvShutdown (snd (execute tool args [] w1))
         | _ => snd (execute tool args [] w1)
         end
    /\ forall w',
         call f args [] w'
         = fn_body f
             (combine (fn_required f) args
              ++ [(va, VTuple (skipn (List.length (fn_required f)) args))])
             w'
  else fst (fst out) = Argparse.exit 2 /\ snd out = w.
Proof.
  intros Hopt Hva Hkw Hb Hnd Hnames Hplain tool args w1 out.
  assert (Hnd' : NoDup (fn_required f)) by (eapply NoDup_app_remove_r; eauto).
  assert (Hfresh : ~ In va (fn_required f)).
  { intros Hin. apply NoDup_remove_2 in Hnd. rewrite app_nil_r in Hnd.
    contradiction. }
  assert (Hnames' : forall n, In n (fn_required f) ->
                      plain_name n = true /\ n <> "self").
  { intros n Hn. destruct (Hnames n) as [Hp Hres];
      [apply in_or_app; now left |].
    split; [exact Hp |]. intros ->. apply Hres. now left. }
  destruct (Hnames va) as [Hvp Hvres]; [apply in_or_app; right; now left |].
  destruct (tool_parser_variadic f lbl dsc va Hopt Hva Hkw Hvp Hnames')
    as (h1 & h2 & h3 & Hparser).
  cbv zeta in Hparser. fold tool in Hparser.
  subst out. unfold CLITool_call.
  fold (effective_tokens tokens w). rewrite Hparser.
  rewrite (parse_variadic _ va _ lbl (str_or dsc lbl) h1 h2 h3 Hplain).
  destruct (Nat.leb_spec (List.length (fn_required f))
              (List.length (effective_tokens tokens w))) as [Hlen | Hlen];
    [| split; reflexivity].
  cbn [bind].
  set (eff := effective_tokens tokens w) in *.
  set (n := List.length (fn_required f)) in *.
  match goal with
  | |- context [fold_left ?g ?pairs ?ns0] =>
      set (base := ns0); set (filled := fold_left g pairs base)
  end.
  set (ns := OD.set va (VList (map VStr (skipn n eff))) filled).
  assert (Hfilled : filled
                    = fold_left
                        (fun ns nt => OD.set (fst nt) (VStr (snd nt)) ns)
                        (combine (fn_required f) (firstn n eff)) base).
  { subst filled n. now rewrite combine_firstn_l. }
  assert (Hn : List.length (firstn n eff) = List.length (fn_required f))
    by (rewrite length_firstn; subst n; lia).
  destruct (values_fold _ Hnd' (firstn n eff) base Hn) as [Hvalues Hbound].
  rewrite <- Hfilled in Hvalues, Hbound.
  assert (Hother : forall k, k <> va -> OD.get k ns = OD.get k filled).
  { intros k Hk. subst ns. now apply od_get_set_other. }
  assert (Hns_values : map (value_of ns) (fn_required f)
                       = map VStr (firstn n eff)).
  { rewrite <- Hvalues. apply map_ext_in. intros k Hk. unfold value_of.
    rewrite Hother; [reflexivity |]. intros ->. contradiction. }
  assert (Hns_bound : forall k, In k (fn_required f) ->
                        OD.contains k ns = true).
  { intros k Hk. unfold OD.contains. rewrite Hother.
    - apply (Hbound k Hk).
    - intros ->. contradiction. }
  assert (Hlog : forall k v,
            In (k, v) logging_defaults -> OD.get k ns = Some v).
  { intros k v Hin.
    assert (Hres : In k ["self"; "func"; "logfile"; "logwrite"; "loglevel"]).
    { simpl in Hin. simpl.
      destruct Hin as [E | [E | [E | []]]]; injection E as <- _; auto 6. }
    assert (Hk : ~ In k (fn_required f)).
    { intros Hc. destruct (Hnames k) as [_ Hc'];
        [apply in_or_app; now left | contradiction]. }
    assert (Hkv : k <> va) by (intros ->; contradiction).
    rewrite Hother by exact Hkv. subst filled.
    rewrite get_fold_other
      by (intros Hc; apply Hk; eapply combine_names; exact Hc).
    subst base. rewrite get_initial.
    cbn [OD.get Argparse.actions find_default Argparse.help_action
         Argparse.dest].
    rewrite <- app_assoc.
    rewrite (find_default_positionals helps k _ _ Hk).
    cbn [app find_default variadic_for Argparse.dest Argparse.default].
    apply string_eqb_false in Hkv. rewrite Hkv.
    simpl in Hin.
    destruct Hin as [E | [E | [E | []]]]; injection E as <- <-;
      reflexivity. }
  assert (Hnofunc : OD.contains "func" ns = false).
  { assert (Hk : ~ In "func" (fn_required f)).
    { intros Hc. destruct (Hnames "func") as [_ Hc'];
        [apply in_or_app; now left | apply Hc'; simpl; auto]. }
    assert (Hkv : "func" <> va).
    { intros <-. apply Hvres. simpl. auto. }
    unfold OD.contains. rewrite Hother by exact Hkv. subst filled.
    rewrite get_fold_other
      by (intros Hc; apply Hk; eapply combine_names; exact Hc).
    subst base. rewrite get_initial.
    cbn [OD.get Argparse.actions find_default Argparse.help_action
         Argparse.dest].
    rewrite <- app_assoc.
    rewrite (find_default_positionals helps "func" _ _ Hk).
    cbn [app find_default variadic_for Argparse.dest Argparse.default].
    apply string_eqb_false in Hkv. rewrite Hkv. reflexivity. }
  change (logmngr (set_parser tool _)) with config_logging.
  change (func (set_parser tool _)) with f.
  rewrite (getcallargs_plain config_logging ns Hnofunc eq_refl eq_refl).
  2:{ intros k Hk. simpl in Hk. unfold OD.contains.
      destruct Hk as [<- | [<- | [<- | []]]];
        (split; [discriminate |]).
      - now rewrite (Hlog "logfile" VNone) by (simpl; auto).
      - now rewrite (Hlog "logwrite" VNone) by (simpl; auto).
      - now rewrite (Hlog "loglevel" (VInt 20)) by (simpl; auto). }
  cbn [bind].
  assert (Hcall : _getcallargs f ns = Ok (args, [])).
  { unfold _getcallargs. rewrite Hnofunc.
    cbn [getfullargspec spec_args spec_varargs spec_varkw].
    rewrite Hopt. cbn [map]. rewrite app_nil_r.
    rewrite collect_named_all
      by (intros k Hk; split; [apply (Hnames' k Hk) | apply (Hns_bound k Hk)]).
    cbn [bind app]. rewrite Hva, Hkw.
    assert (Htruthy : name_truthy (Some va) = Some va).
    { unfold name_truthy. destruct va; [discriminate | reflexivity]. }
    assert (Hget : OD.get va ns = Some (VList (map VStr (skipn n eff))))
      by (unfold ns; apply od_get_set_same).
    rewrite Htruthy, Hget. cbn [bind name_truthy].
    rewrite Hns_values, <- map_app, firstn_skipn. reflexivity. }
  rewrite Hcall. cbn [bind].
  cbn [config_logging fn_required fn_optional map app fst].
  unfold value_of.
  rewrite (Hlog "logfile" VNone), (Hlog "logwrite" VNone),
    (Hlog "loglevel" (VInt 20)) by (simpl; auto).
  change (call _ [VNone; VNone; VInt 20] [] w)
    with (config_logging_body logging_defaults w).
  fold config_logging.
  assert (Hok : fst (config_logging_body logging_defaults w) = Ok VNone).
  { unfold config_logging_body.
    destruct (handlers (set_root_level NOTSET w)); reflexivity. }
  subst w1.
  destruct (config_logging_body logging_defaults w) as [r w1].
  cbn [fst snd] in *. subst r.
  rewrite execute_ignores_parser.
  split; [| split].
  - destruct (execute tool args [] w1) as [[res| |] w2]; reflexivity.
  - destruct (execute tool args [] w1) as [[res| |] w2]; reflexivity.
  - intros w'. apply call_variadic; auto.
    subst args. rewrite length_map. exact Hlen.
Qed.

End Variadic.

(** The theorem at [def join(sep, *parts)], a function that returns its
    parameters, and the tokens [+ a b]. *)
Lemma tool_call_variadic_witness :
  let f := mkFunc ["sep"] [] (Some "parts") None false None
                  (fun env w => (Ok (VDict env), w)) in
  fst (fst (CLITool_call (rt := Example.runtime)
              (CLITool_init (rt := Example.runtime) f None None None false None)
              ["+"; "a"; "b"] Example.world0))
  = Ok (mkResult (VInt 0)
          (VDict [("sep", VStr "+");
                  ("parts", VTuple [VStr "a"; VStr "b"])]) None).
Proof.
  intros f.
  assert (Hnd : NoDup (fn_required f ++ ["parts"])).
  { repeat constructor; simpl; intuition discriminate. }
  assert (Hnames : forall n, In n (fn_required f ++ ["parts"]) ->
                     plain_name n = true
                     /\ ~ In n ["self"; "func"; "logfile"; "logwrite";
                        "loglevel"]).
  { intros n [<- | [<- | []]]; (split; [reflexivity |]);
      simpl; intuition discriminate. }
  exact (proj1 (tool_call_variadic (rt := Example.runtime) None f None None
                  "parts" ["+"; "a"; "b"] Example.world0
                  eq_refl eq_refl eq_refl eq_refl Hnd Hnames eq_refl)).
Defined.
